(** * Listing loader: 3NF dimensions and SCD-2 history

    A shallow embedding of [loader.py].  The loader is a Python driver
    around a fixed sequence of PostgreSQL statements; each statement is
    embedded as a function on tables (lists of rows, in heap order), with
    the SQL operators it uses written out:

    - text helpers ([btrim], [lower], [regexp_replace], [lpad]) and the
      per-column CASE expressions ([norm_zip_5], [num_nonneg], ...);
    - the dimension, listing and description upserts;
    - the SCD-2 engine ([stg_listing_incoming], [stg_delta], the closing
      UPDATE and the guarded INSERT);
    - [run_pipeline], the transaction around them.

    NULL is [None].  Statements that can raise (a cast that overflows, a
    text that is no timestamp, an upsert hitting one key twice) return in
    the [result] monad; an error inside the transaction rolls it back. *)

From Stdlib Require Import List ZArith String Ascii Bool Lia Permutation Sorted.
Import ListNotations.

Local Open Scope string_scope.
Local Open Scope Z_scope.
Local Open Scope list_scope.

Set Implicit Arguments.

(* ------------------------------------------------------------------ *)
(** * Errors *)

Inductive error : Type :=
| RuntimeError (missing : list string)  (* assert_expected_headers *)
| BadCopyFileFormat                     (* COPY: a line with the wrong number of columns *)
| InvalidDatetimeFormat (s : string)    (* ::timestamptz on a text that is no timestamp *)
| NumericValueOutOfRange                (* ::int or ::smallint overflow *)
| NotNullViolation                      (* NULL business key *)
| CardinalityViolation.                 (* ON CONFLICT DO UPDATE reaching one row twice *)

Definition result (A : Type) : Type := (error + A)%type.

Definition ok {A} (a : A) : result A := inr a.
Definition raise {A} (e : error) : result A := inl e.

Definition bind {A B} (m : result A) (f : A -> result B) : result B :=
  match m with
  | inl e => inl e
  | inr a => f a
  end.

Notation "x <- m ;; f" := (bind m (fun x => f))
  (at level 61, m at next level, right associativity).

Fixpoint mapM {A B} (f : A -> result B) (l : list A) : result (list B) :=
  match l with
  | [] => ok []
  | a :: l' => b <- f a ;; bs <- mapM f l' ;; ok (b :: bs)
  end.

(* ------------------------------------------------------------------ *)
(** * Text *)

Definition chars : string -> list ascii := list_ascii_of_string.
Definition text : list ascii -> string := string_of_list_ascii.

Definition is_digit (c : ascii) : bool :=
  let n := nat_of_ascii c in (48 <=? n)%nat && (n <=? 57)%nat.

Definition is_upper (c : ascii) : bool :=
  let n := nat_of_ascii c in (65 <=? n)%nat && (n <=? 90)%nat.

(** The white space of Python's [str.strip].  A text is held as the bytes
    of its UTF-8 encoding (the loader opens the file as UTF-8), so a
    white-space character is one, two or three bytes:
    U+0009..U+000D, U+001C..U+0020;
    U+0085 and U+00A0;
    U+1680, U+2000..U+200A, U+2028, U+2029, U+202F, U+205F and U+3000. *)
Definition is_py_space (c : ascii) : bool :=
  let n := nat_of_ascii c in
  ((9 <=? n)%nat && (n <=? 13)%nat) || ((28 <=? n)%nat && (n <=? 32)%nat).

Definition is_py_space2 (a b : ascii) : bool :=
  let (x, y) := (nat_of_ascii a, nat_of_ascii b) in
  (x =? 194)%nat && ((y =? 133)%nat || (y =? 160)%nat).

Definition is_py_space3 (a b c : ascii) : bool :=
  let (x, y) := (nat_of_ascii a, nat_of_ascii b) in
  let z := nat_of_ascii c in
  ((x =? 225)%nat && (y =? 154)%nat && (z =? 128)%nat)
  || ((x =? 226)%nat && (y =? 128)%nat
      && (((128 <=? z)%nat && (z <=? 138)%nat)
          || (z =? 168)%nat || (z =? 169)%nat || (z =? 175)%nat))
  || ((x =? 226)%nat && (y =? 129)%nat && (z =? 159)%nat)
  || ((x =? 227)%nat && (y =? 128)%nat && (z =? 128)%nat).

(** Drop the leading characters that [one], [two] or [three] accept. *)
Fixpoint ltrim_chars (one : ascii -> bool) (two : ascii -> ascii -> bool)
    (three : ascii -> ascii -> ascii -> bool) (l : list ascii) : list ascii :=
  match l with
  | a :: r1 =>
      if one a then ltrim_chars one two three r1
      else match r1 with
           | b :: r2 =>
               if two a b then ltrim_chars one two three r2
               else match r2 with
                    | c :: r3 =>
                        if three a b c then ltrim_chars one two three r3 else l
                    | [] => l
                    end
           | [] => l
           end
  | [] => []
  end.

Definition is_blank (c : ascii) : bool := Ascii.eqb c " "%char.

Fixpoint ltrim_by (p : ascii -> bool) (l : list ascii) : list ascii :=
  match l with
  | c :: r => if p c then ltrim_by p r else l
  | [] => []
  end.

Definition trim_by (p : ascii -> bool) (l : list ascii) : list ascii :=
  rev (ltrim_by p (rev (ltrim_by p l))).

(** SQL [btrim(s)]: spaces only. *)
Definition btrim (s : string) : string := text (trim_by is_blank (chars s)).

(** Python [s.strip()]: white space goes from the left, then from the
    right, where the bytes of a character are met last byte first. *)
Definition strip (s : string) : string :=
  text (rev (ltrim_chars is_py_space
               (fun b a => is_py_space2 a b) (fun c b a => is_py_space3 a b c)
               (rev (ltrim_chars is_py_space is_py_space2 is_py_space3 (chars s))))).

Definition lower_char (c : ascii) : ascii :=
  if is_upper c then ascii_of_nat (nat_of_ascii c + 32) else c.

(** [lower(s)] / [s.lower()]. *)
Definition lower (s : string) : string := text (map lower_char (chars s)).

(** [regexp_replace(s, '\D', '', 'g')] and [regexp_replace(s, '[^0-9]', '', 'g')]. *)
Definition digits_of (s : string) : list ascii := filter is_digit (chars s).

Definition is_num_char (c : ascii) : bool :=
  is_digit c || Ascii.eqb c "."%char || Ascii.eqb c "-"%char.

(** [regexp_replace(s, '[^0-9\.-]', '', 'g')]. *)
Definition num_chars_of (s : string) : list ascii := filter is_num_char (chars s).

(** [lpad(s, n, '0')]: zero fill on the left, cut on the right when longer. *)
Definition lpad0 (l : list ascii) (n : nat) : list ascii :=
  if (n <=? List.length l)%nat then firstn n l
  else repeat "0"%char (n - List.length l) ++ l.

Definition digit_value (c : ascii) : Z := Z.of_nat (nat_of_ascii c) - 48.

Definition digits_value (l : list ascii) : Z :=
  fold_left (fun acc c => 10 * acc + digit_value c) l 0.

Fixpoint span_digits (l : list ascii) : list ascii * list ascii :=
  match l with
  | c :: r =>
      if is_digit c then let (d, t) := span_digits r in (c :: d, t)
      else ([], l)
  | [] => ([], [])
  end.

Definition split_sign (l : list ascii) : bool * list ascii :=
  match l with
  | c :: r => if Ascii.eqb c "-"%char then (true, r) else (false, l)
  | [] => (false, [])
  end.

(** [l ~ '^-?\d+(\.\d+)?$'] *)
Definition decimal_re (l : list ascii) : bool :=
  let (ip, rest) := span_digits (snd (split_sign l)) in
  match ip, rest with
  | [], _ => false
  | _ :: _, [] => true
  | _ :: _, c :: fp =>
      Ascii.eqb c "."%char &&
      match span_digits fp with
      | (_ :: _, []) => true
      | _ => false
      end
  end.

(** [l ~ '^\d+$'] and [l ~ '^\d{1,5}$'] *)
Definition digits_re (l : list ascii) : bool :=
  negb (List.length l =? 0)%nat && forallb is_digit l.

Definition digits_1_5_re (l : list ascii) : bool :=
  (1 <=? List.length l)%nat && (List.length l <=? 5)%nat && forallb is_digit l.

(* ------------------------------------------------------------------ *)
(** * numeric, integer, smallint *)

(** A PostgreSQL [numeric]: [unscaled / 10 ^ dscale].  The scale is what
    the text carried; comparison is by value. *)
Record numeric : Type := { unscaled : Z; dscale : nat }.

Definition pow10 (n : nat) : Z := 10 ^ Z.of_nat n.

Definition numeric_eqb (a b : numeric) : bool :=
  unscaled a * pow10 (dscale b) =? unscaled b * pow10 (dscale a).

(** [l::numeric], for a text that matched [decimal_re]. *)
Definition numeric_in (l : list ascii) : numeric :=
  let (neg, body) := split_sign l in
  let (ip, rest) := span_digits body in
  let fd := match rest with
            | _ :: fp => fst (span_digits fp)
            | [] => []
            end in
  let v := digits_value (ip ++ fd) in
  {| unscaled := if neg then - v else v; dscale := List.length fd |}.

(** [x >= 0] *)
Definition numeric_nonneg (x : numeric) : bool := 0 <=? unscaled x.

(** [round(x)]: to the nearest integer, ties away from zero. *)
Definition round (x : numeric) : Z :=
  let q := pow10 (dscale x) in
  let u := unscaled x in
  if 0 <=? u then (2 * u + q) / (2 * q) else - ((2 * (- u) + q) / (2 * q)).

(** [v::int] and [v::smallint] *)
Definition to_int (v : Z) : result Z :=
  if (-2147483648 <=? v) && (v <=? 2147483647) then ok v
  else raise NumericValueOutOfRange.

Definition to_smallint (v : Z) : result Z :=
  if (-32768 <=? v) && (v <=? 32767) then ok v
  else raise NumericValueOutOfRange.

(* ------------------------------------------------------------------ *)
(** * Small SQL expression helpers *)

Definition norm_zip_5 (s : option string) : option string :=
  match s with
  | None => None
  | Some s =>
      if String.eqb (btrim s) "" then None
      else if digits_1_5_re (digits_of s)
           then Some (text (lpad0 (digits_of s) 5))
           else None
  end.

Definition bool_or_null (s : option string) : option bool :=
  match s with
  | None => None
  | Some s =>
      if String.eqb (btrim s) "" then None
      else if existsb (String.eqb (lower s)) ["true"; "t"; "1"; "yes"; "y"; "oui"]
           then Some true
      else if existsb (String.eqb (lower s)) ["false"; "f"; "0"; "no"; "n"; "non"]
           then Some false
      else None
  end.

Definition year_1800_2100 (s : option string) : result (option Z) :=
  match s with
  | None => ok None
  | Some s =>
      if String.eqb (btrim s) "" then ok None
      else if digits_re (digits_of s) then
             y <- to_int (round (numeric_in (digits_of s))) ;;
             if (1800 <=? y) && (y <=? 2100)
             then v <- to_smallint (round (numeric_in (digits_of s))) ;; ok (Some v)
             else ok None
           else ok None
  end.

Definition num_nonneg (s : option string) : option numeric :=
  match s with
  | None => None
  | Some s =>
      if String.eqb (btrim s) "" then None
      else if decimal_re (num_chars_of s) && numeric_nonneg (numeric_in (num_chars_of s))
           then Some (numeric_in (num_chars_of s))
           else None
  end.

Definition smallint_nonneg (s : option string) : result (option Z) :=
  match s with
  | None => ok None
  | Some s =>
      if String.eqb (btrim s) "" then ok None
      else if decimal_re (num_chars_of s) && (0 <=? round (numeric_in (num_chars_of s)))
           then v <- to_smallint (round (numeric_in (num_chars_of s))) ;; ok (Some v)
           else ok None
  end.

Definition floor_bounded (lo hi : Z) (s : option string) : result (option Z) :=
  match s with
  | None => ok None
  | Some s =>
      if String.eqb (btrim s) "" then ok None
      else if decimal_re (num_chars_of s) then
             f <- to_int (round (numeric_in (num_chars_of s))) ;;
             if (lo <=? f) && (f <=? hi)
             then v <- to_smallint (round (numeric_in (num_chars_of s))) ;; ok (Some v)
             else ok None
           else ok None
  end.


(** [NULLIF(btrim(s), '')] *)
Definition nullif_btrim (s : option string) : option string :=
  match s with
  | None => None
  | Some s => if String.eqb (btrim s) "" then None else Some (btrim s)
  end.

(** [a = b] on text, true only when both sides are present. *)
Definition eq_text (a : string) (b : option string) : bool :=
  match b with
  | Some b => String.eqb a b
  | None => false
  end.

(* ------------------------------------------------------------------ *)
(** * Header helpers *)

Definition EXPECTED : list string :=
  [ "listing_id"; "transaction_type"; "item_type"; "item_subtype";
    "start_date"; "change_date";
    "price"; "area"; "site_area"; "floor"; "room_count"; "balcony_count";
    "terrace_count"; "terrace_area";
    "build_year"; "is_new_construction"; "has_passenger_lift"; "has_cellar";
    "is_furnished";
    "city"; "zipcode"; "description_fr" ].

(** The cleaned CSV: its first line and the data lines, a field being
    [None] where COPY reads NULL (an empty unquoted field). *)
Record csv_file : Type := {
  header : list string;
  lines : list (list (option string))
}.

Definition read_csv_header (f : csv_file) : list string := map strip (header f).

(** [l.index(c)] for a [c] that is in [l]. *)
Fixpoint index (c : string) (l : list string) : nat :=
  match l with
  | [] => 0
  | x :: r => if String.eqb x c then 0%nat else S (index c r)
  end.

Definition mem (c : string) (l : list string) : bool := existsb (String.eqb c) l.

(** Logical column name -> header as spelled in the file. *)
Definition assert_expected_headers (cols : list string) : result (list (string * string)) :=
  let lc := map lower cols in
  let missing := filter (fun c => negb (mem c lc)) EXPECTED in
  match missing with
  | [] => ok (map (fun c => (c, nth (index c lc) cols "")) EXPECTED)
  | _ :: _ => raise (RuntimeError missing)
  end.

(* ------------------------------------------------------------------ *)
(** * Staging *)

(** A row of [stg_clean_csv], read through the header map: [sc_price] is
    the value of column [sc.{h['price']}]. *)
Record staged : Type := {
  sc_listing_id : option string;
  sc_transaction_type : option string;
  sc_item_type : option string;
  sc_item_subtype : option string;
  sc_start_date : option string;
  sc_change_date : option string;
  sc_price : option string;
  sc_area : option string;
  sc_site_area : option string;
  sc_floor : option string;
  sc_room_count : option string;
  sc_balcony_count : option string;
  sc_terrace_count : option string;
  sc_terrace_area : option string;
  sc_build_year : option string;
  sc_is_new_construction : option string;
  sc_has_passenger_lift : option string;
  sc_has_cellar : option string;
  sc_is_furnished : option string;
  sc_city : option string;
  sc_zipcode : option string;
  sc_description_fr : option string
}.

Definition actual (h : list (string * string)) (c : string) : string :=
  match find (fun p => String.eqb (fst p) c) h with
  | Some p => snd p
  | None => c
  end.

(** The value of column [sc.{h[c]}] in one line; PostgreSQL folds the
    unquoted column names of the staging table to lower case. *)
Definition column (header_cols : list string) (h : list (string * string))
    (c : string) (line : list (option string)) : option string :=
  nth (index (lower (actual h c)) (map lower header_cols)) line None.

Definition staged_of (header_cols : list string) (h : list (string * string))
    (line : list (option string)) : staged :=
  let col c := column header_cols h c line in
  {| sc_listing_id := col "listing_id";
     sc_transaction_type := col "transaction_type";
     sc_item_type := col "item_type";
     sc_item_subtype := col "item_subtype";
     sc_start_date := col "start_date";
     sc_change_date := col "change_date";
     sc_price := col "price";
     sc_area := col "area";
     sc_site_area := col "site_area";
     sc_floor := col "floor";
     sc_room_count := col "room_count";
     sc_balcony_count := col "balcony_count";
     sc_terrace_count := col "terrace_count";
     sc_terrace_area := col "terrace_area";
     sc_build_year := col "build_year";
     sc_is_new_construction := col "is_new_construction";
     sc_has_passenger_lift := col "has_passenger_lift";
     sc_has_cellar := col "has_cellar";
     sc_is_furnished := col "is_furnished";
     sc_city := col "city";
     sc_zipcode := col "zipcode";
     sc_description_fr := col "description_fr" |}.

(** The staging step: CREATE TEMP TABLE stg_clean_csv with one TEXT
    column per header name, then COPY ... FROM STDIN WITH (FORMAT csv,
    HEADER true).  The header names go unquoted into both statements.
    The embedding takes them to be names that PostgreSQL accepts as that
    many distinct columns, as the names of [EXPECTED] are; a name that is
    a reserved word, holds a space, or equals another up to letter case
    makes the real CREATE TABLE raise, and such headers are outside what
    is modelled.  What is left to fail is COPY, on a line with the wrong
    number of fields. *)
Definition copy_csv_into_staging (f : csv_file) (header_cols : list string)
    (h : list (string * string)) : result (list staged) :=
  if forallb (fun l => (List.length l =? List.length header_cols)%nat) (lines f)
  then ok (map (staged_of header_cols h) (lines f))
  else raise BadCopyFileFormat.

(* ------------------------------------------------------------------ *)
(** * Tables *)

(** transaction_type, item_type, zipcode (code) and city (name). *)
Record dim_row : Type := { dim_id : Z; code : string }.

Record item_subtype_row : Type := {
  item_subtype_id : Z;
  st_item_type_id : Z;
  st_code : string
}.

Record location_row : Type := { location_id : Z; city_id : Z; zipcode_id : Z }.

(** The columns of listing that the upsert overwrites. *)
Record listing_attrs : Type := {
  transaction_type_id : Z;
  l_item_subtype_id : Z;
  l_location_id : Z;
  build_year : option Z;
  is_new_construction : option bool;
  has_passenger_lift : option bool;
  has_cellar : option bool;
  is_furnished : option bool
}.

Record listing_row : Type := {
  l_id : Z;
  external_listing_id : string;
  attrs : listing_attrs
}.

Record description_row : Type := { d_listing_id : Z; lang : string; body : string }.

(** The eight historized columns. *)
Record facts : Type := {
  price : option numeric;
  area : option numeric;
  site_area : option numeric;
  floor : option Z;
  room_count : option Z;
  balcony_count : option Z;
  terrace_count : option Z;
  terrace_area : option numeric
}.

(** stg_listing_incoming and stg_delta *)
Record incoming_row : Type := {
  inc_listing_id : Z;
  inc_valid_from : Z;
  inc_source_change_ts : option Z;
  inc_facts : facts
}.

Record version_row : Type := {
  listing_id : Z;
  valid_from : Z;
  valid_to : option Z;
  v_facts : facts;
  source_change_ts : option Z
}.

Record database : Type := {
  transaction_type : list dim_row;
  item_type : list dim_row;
  item_subtype : list item_subtype_row;
  city : list dim_row;
  zipcode : list dim_row;
  location : list location_row;
  listing : list listing_row;
  listing_description : list description_row;
  listing_version : list version_row
}.

Definition empty_database : database :=
  {| transaction_type := []; item_type := []; item_subtype := []; city := [];
     zipcode := []; location := []; listing := []; listing_description := [];
     listing_version := [] |}.

(** Modelled from the spec: the schema (DDL) is not part of the loader; a
    surrogate identity is "generated", here as one more than the largest
    identity in the table. *)
Definition next_id (ids : list Z) : Z := 1 + fold_right Z.max 0 ids.

(* ------------------------------------------------------------------ *)
(** * INSERT ... ON CONFLICT *)

Section OnConflictDoNothing.
Variables (R C : Type).
Variable conflict : C -> R -> bool.
Variable make : Z -> C -> R.
Variable pk : R -> Z.

Definition insert_row (tbl : list R) (c : C) : list R :=
  if existsb (conflict c) tbl then tbl
  else tbl ++ [make (next_id (map pk tbl)) c].

Definition insert_do_nothing (cands : list C) (tbl : list R) : list R :=
  fold_left insert_row cands tbl.
End OnConflictDoNothing.

Section OnConflictDoUpdate.
Variables (R C : Type).
Variable conflict : C -> R -> bool.
Variable same_key : C -> C -> bool.
Variable make : Z -> C -> R.
Variable set : C -> R -> R.
Variable pk : R -> Z.

Definition upsert_row (tbl : list R) (c : C) : list R :=
  if existsb (conflict c) tbl
  then map (fun r => if conflict c r then set c r else r) tbl
  else tbl ++ [make (next_id (map pk tbl)) c].

Fixpoint repeated_key (cands : list C) : bool :=
  match cands with
  | [] => false
  | c :: cs => existsb (same_key c) cs || repeated_key cs
  end.

(** Two proposed rows on one key: "ON CONFLICT DO UPDATE command cannot
    affect row a second time"; the statement fails as a whole. *)
Definition insert_do_update (cands : list C) (tbl : list R) : result (list R) :=
  if repeated_key cands then raise CardinalityViolation
  else ok (fold_left upsert_row cands tbl).
End OnConflictDoUpdate.

(** [FROM ... JOIN t ON on]: the rows of [t] that satisfy [on], each
    continued by [k]. *)
Definition join {A B} (t : list A) (on : A -> bool) (k : A -> list B) : list B :=
  flat_map k (filter on t).

Fixpoint somes {A} (l : list (option A)) : list A :=
  match l with
  | [] => []
  | Some a :: r => a :: somes r
  | None :: r => somes r
  end.

Definition option_string_dec (a b : option string) : {a = b} + {a <> b}.
Proof. decide equality; apply string_dec. Defined.

Definition pair_dec {A B} (da : forall a b : A, {a = b} + {a <> b})
    (db : forall a b : B, {a = b} + {a <> b}) (p q : A * B) : {p = q} + {p <> q}.
Proof. decide equality. Defined.

(** Plain [INSERT ... SELECT]: every candidate becomes a row. *)
Definition insert_all {R C} (make : Z -> C -> R) (pk : R -> Z)
    (cands : list C) (tbl : list R) : list R :=
  fold_left (fun t c => t ++ [make (next_id (map pk t)) c]) cands tbl.

(* ------------------------------------------------------------------ *)
(** * Dimensions *)

Definition dim_conflict (c : string) (r : dim_row) : bool := String.eqb (code r) c.

Definition make_dim (i : Z) (c : string) : dim_row := {| dim_id := i; code := c |}.

(** [INSERT INTO dim (code) ... ON CONFLICT (code) DO NOTHING] *)
Definition insert_codes : list string -> list dim_row -> list dim_row :=
  insert_do_nothing dim_conflict make_dim dim_id.

(** [SELECT DISTINCT btrim(col) ... WHERE col IS NOT NULL AND btrim(col) <> ''] *)
Definition distinct_codes (col : staged -> option string) (rows : list staged) : list string :=
  nodup string_dec (somes (map (fun sc => nullif_btrim (col sc)) rows)).

Definition subtype_conflict (c : Z * string) (r : item_subtype_row) : bool :=
  (st_item_type_id r =? fst c) && String.eqb (st_code r) (snd c).

Definition make_subtype (i : Z) (c : Z * string) : item_subtype_row :=
  {| item_subtype_id := i; st_item_type_id := fst c; st_code := snd c |}.

(** The [(typ, sub)] pairs of the batch joined to item_type. *)
Definition subtype_candidates (rows : list staged) (it : list dim_row) : list (Z * string) :=
  let s :=
    nodup (pair_dec option_string_dec string_dec)
      (flat_map (fun sc =>
                   match nullif_btrim (sc_item_subtype sc) with
                   | Some sub => [(option_map btrim (sc_item_type sc), sub)]
                   | None => []
                   end) rows) in
  flat_map (fun p => join it (fun r => eq_text (code r) (fst p))
                       (fun r => [(dim_id r, snd p)])) s.

Definition upsert_dimensions (rows : list staged) (db : database) : database :=
  let tt := insert_codes (distinct_codes sc_transaction_type rows) (transaction_type db) in
  let it := insert_codes (distinct_codes sc_item_type rows) (item_type db) in
  let st := insert_do_nothing subtype_conflict make_subtype item_subtype_id
              (subtype_candidates rows it) (item_subtype db) in
  {| transaction_type := tt; item_type := it; item_subtype := st;
     city := city db; zipcode := zipcode db; location := location db;
     listing := listing db; listing_description := listing_description db;
     listing_version := listing_version db |}.

(** City names of the batch that the city table does not hold yet. *)
Definition new_cities (rows : list staged) (c : list dim_row) : list string :=
  nodup string_dec
    (somes (map (fun sc =>
                   match nullif_btrim (sc_city sc) with
                   | Some n => if existsb (dim_conflict n) c then None else Some n
                   | None => None
                   end) rows)).

(** [SELECT DISTINCT zc FROM (SELECT norm_zip_5 AS zc ...) WHERE zc IS NOT NULL] *)
Definition zip_codes (rows : list staged) : list string :=
  nodup string_dec (somes (map (fun sc => norm_zip_5 (sc_zipcode sc)) rows)).

Definition upsert_zipcodes (rows : list staged) (z : list dim_row) : list dim_row :=
  insert_codes (zip_codes rows) z.

Definition location_conflict (c : Z * Z) (r : location_row) : bool :=
  (city_id r =? fst c) && (zipcode_id r =? snd c).

Definition make_location (i : Z) (c : Z * Z) : location_row :=
  {| location_id := i; city_id := fst c; zipcode_id := snd c |}.

Definition location_candidates (rows : list staged) (c z : list dim_row) : list (Z * Z) :=
  let s :=
    nodup (pair_dec option_string_dec option_string_dec)
      (map (fun sc => (option_map btrim (sc_city sc), norm_zip_5 (sc_zipcode sc))) rows) in
  flat_map (fun p =>
              join c (fun cr => eq_text (code cr) (fst p)) (fun cr =>
              join z (fun zr => eq_text (code zr) (snd p)) (fun zr =>
              [(dim_id cr, dim_id zr)]))) s.

Definition upsert_cities_zipcodes_locations (rows : list staged) (db : database) : database :=
  let c := insert_all make_dim dim_id (new_cities rows (city db)) (city db) in
  let z := upsert_zipcodes rows (zipcode db) in
  let loc := insert_do_nothing location_conflict make_location location_id
               (location_candidates rows c z) (location db) in
  {| transaction_type := transaction_type db; item_type := item_type db;
     item_subtype := item_subtype db;
     city := c; zipcode := z; location := loc;
     listing := listing db; listing_description := listing_description db;
     listing_version := listing_version db |}.

(* ------------------------------------------------------------------ *)
(** * Listing master *)

(** The six joins of [upsert_listings] for one staged row: the
    (transaction_type_id, item_subtype_id, location_id) it resolves to. *)
Definition resolve (db : database) (sc : staged) : list (Z * Z * Z) :=
  join (transaction_type db)
       (fun tt => eq_text (code tt) (option_map btrim (sc_transaction_type sc))) (fun tt =>
  join (item_type db)
       (fun it => eq_text (code it) (option_map btrim (sc_item_type sc))) (fun it =>
  join (item_subtype db)
       (fun st => eq_text (st_code st) (option_map btrim (sc_item_subtype sc))
                  && (st_item_type_id st =? dim_id it)) (fun st =>
  join (city db)
       (fun c => eq_text (code c) (option_map btrim (sc_city sc))) (fun c =>
  join (zipcode db)
       (fun z => eq_text (code z) (norm_zip_5 (sc_zipcode sc))) (fun z =>
  join (location db)
       (fun loc => (city_id loc =? dim_id c) && (zipcode_id loc =? dim_id z)) (fun loc =>
  [(dim_id tt, item_subtype_id st, location_id loc)])))))).

(** Modelled from the spec: the DDL of listing is not part of the loader;
    the business key is "never null", so external_listing_id refuses NULL. *)
Definition not_null (k : option string) : result string :=
  match k with
  | Some k => ok k
  | None => raise NotNullViolation
  end.

(** The row proposed for one resolved staged row. *)
Definition proposed_listing (p : staged * (Z * Z * Z)) : result (string * listing_attrs) :=
  let (sc, ids) := p in
  y <- year_1800_2100 (sc_build_year sc) ;;
  k <- not_null (nullif_btrim (sc_listing_id sc)) ;;
  ok (k, {| transaction_type_id := fst (fst ids);
            l_item_subtype_id := snd (fst ids);
            l_location_id := snd ids;
            build_year := y;
            is_new_construction := bool_or_null (sc_is_new_construction sc);
            has_passenger_lift := bool_or_null (sc_has_passenger_lift sc);
            has_cellar := bool_or_null (sc_has_cellar sc);
            is_furnished := bool_or_null (sc_is_furnished sc) |}).

Definition listing_conflict (c : string * listing_attrs) (r : listing_row) : bool :=
  String.eqb (external_listing_id r) (fst c).

Definition make_listing (i : Z) (c : string * listing_attrs) : listing_row :=
  {| l_id := i; external_listing_id := fst c; attrs := snd c |}.

Definition set_listing (c : string * listing_attrs) (r : listing_row) : listing_row :=
  {| l_id := l_id r; external_listing_id := external_listing_id r; attrs := snd c |}.

Definition same_fst {A} (a b : string * A) : bool := String.eqb (fst a) (fst b).

Definition upsert_listings (rows : list staged) (db : database) : result database :=
  cands <- mapM proposed_listing
             (flat_map (fun sc => map (pair sc) (resolve db sc)) rows) ;;
  l <- insert_do_update listing_conflict same_fst make_listing set_listing l_id
         cands (listing db) ;;
  ok {| transaction_type := transaction_type db; item_type := item_type db;
        item_subtype := item_subtype db;
        city := city db; zipcode := zipcode db; location := location db;
        listing := l; listing_description := listing_description db;
        listing_version := listing_version db |}.

(* ------------------------------------------------------------------ *)
(** * Descriptions *)

(** CTE [src]: (ext_id, body) of the rows with a non-blank description. *)
Definition description_src (rows : list staged) : list (option string * string) :=
  flat_map (fun sc =>
              match nullif_btrim (sc_description_fr sc) with
              | Some b => [(nullif_btrim (sc_listing_id sc), b)]
              | None => []
              end) rows.

(** [length(body)]: the number of characters of the text.  A text is held
    as the bytes of its UTF-8 encoding (the database encoding is taken to
    be UTF8, as the file is), where every byte but the continuation bytes
    10xxxxxx begins a character. *)
Definition is_continuation (c : ascii) : bool :=
  let n := nat_of_ascii c in (128 <=? n)%nat && (n <? 192)%nat.

Definition char_length (s : string) : nat :=
  List.length (filter (fun c => negb (is_continuation c)) (chars s)).

(** The sort behind [ORDER BY length(body) DESC].  The clause asks that
    no row comes before a longer one and leaves the order of rows of equal
    length (peers) to the sort that PostgreSQL runs on the partition; a
    [description_sort] stands for that sort. *)
Definition description_sort : Type :=
  list (option string * string) -> list (option string * string).

Definition same_partition (k : option string) (r : option string * string) : bool :=
  if option_string_dec (fst r) k then true else false.

(** CTE [pick]: the row numbered 1 in each [PARTITION BY ext_id]. *)
Definition description_pick_by (sort : description_sort)
    (src : list (option string * string)) : list (option string * string) :=
  flat_map (fun k => firstn 1 (sort (filter (same_partition k) src)))
           (nodup option_string_dec (map fst src)).

Definition description_conflict (c : Z * string) (r : description_row) : bool :=
  d_listing_id r =? fst c.

Definition make_description (_ : Z) (c : Z * string) : description_row :=
  {| d_listing_id := fst c; lang := "fr"; body := snd c |}.

Definition set_description (c : Z * string) (r : description_row) : description_row :=
  {| d_listing_id := d_listing_id r; lang := "fr"; body := snd c |}.

Definition same_listing (a b : Z * string) : bool := fst a =? fst b.

(** [pick JOIN listing l ON l.external_listing_id = p.ext_id] *)
Definition description_candidates_by (sort : description_sort)
    (rows : list staged) (l : list listing_row) : list (Z * string) :=
  flat_map (fun p => join l (fun r => eq_text (external_listing_id r) (fst p))
                       (fun r => [(l_id r, snd p)]))
           (description_pick_by sort (description_src rows)).

Definition upsert_descriptions_by (sort : description_sort)
    (rows : list staged) (db : database) : result database :=
  d <- insert_do_update description_conflict same_listing make_description
         set_description d_listing_id
         (description_candidates_by sort rows (listing db)) (listing_description db) ;;
  ok {| transaction_type := transaction_type db; item_type := item_type db;
        item_subtype := item_subtype db;
        city := city db; zipcode := zipcode db; location := location db;
        listing := listing db; listing_description := d;
        listing_version := listing_version db |}.

(** The sort that the pipeline below runs with: an insertion sort, which
    leaves peers in the order they are scanned in.  What is proved of the
    longest description holds for every sort that meets the clause. *)
Fixpoint insert_desc (r : option string * string) (l : list (option string * string))
  : list (option string * string) :=
  match l with
  | [] => [r]
  | x :: t =>
      if (char_length (snd x) <=? char_length (snd r))%nat
      then r :: l
      else x :: insert_desc r t
  end.

Definition order_by_length_desc : description_sort :=
  fold_right insert_desc [].

Definition description_pick (src : list (option string * string))
  : list (option string * string) :=
  description_pick_by order_by_length_desc src.

Definition description_candidates (rows : list staged) (l : list listing_row)
  : list (Z * string) :=
  description_candidates_by order_by_length_desc rows l.

Definition upsert_descriptions (rows : list staged) (db : database) : result database :=
  upsert_descriptions_by order_by_length_desc rows db.

(* ------------------------------------------------------------------ *)
(** * SCD-2 *)

(** PostgreSQL's timestamptz input function as one transaction finds it,
    giving an instant on the time line, or [None] when it rejects the
    text.  The loader does not fix it: how a text is read depends on the
    session (DateStyle, TimeZone) and, for the texts 'now', 'today',
    'tomorrow' and 'yesterday', on the clock of the transaction.  Each
    run therefore has a parser of its own; where several runs share one,
    what is said covers the runs that read their date texts with it. *)
Definition timestamptz_parser : Type := string -> option Z.

(** [NULLIF(s, '')::timestamptz] *)
Definition ts_or_null (timestamptz_in : timestamptz_parser) (s : option string)
  : result (option Z) :=
  match s with
  | None => ok None
  | Some s =>
      if String.eqb s "" then ok None
      else match timestamptz_in s with
           | Some t => ok (Some t)
           | None => raise (InvalidDatetimeFormat s)
           end
  end.

(** One row of the SELECT that fills stg_listing_incoming.  COALESCE
    evaluates [start_ts] only when [change_ts] is NULL; [now] is NOW(). *)
Definition incoming_of (timestamptz_in : timestamptz_parser) (now : Z)
    (p : staged * listing_row) : result incoming_row :=
  let (sc, l) := p in
  change <- ts_or_null timestamptz_in (sc_change_date sc) ;;
  vf <- match change with
        | Some t => ok t
        | None =>
            start <- ts_or_null timestamptz_in (sc_start_date sc) ;;
            ok (match start with Some t => t | None => now end)
        end ;;
  fl <- floor_bounded (-5) 300 (sc_floor sc) ;;
  rooms <- smallint_nonneg (sc_room_count sc) ;;
  balc <- smallint_nonneg (sc_balcony_count sc) ;;
  terr <- smallint_nonneg (sc_terrace_count sc) ;;
  ok {| inc_listing_id := l_id l;
        inc_valid_from := vf;
        inc_source_change_ts := change;
        inc_facts := {| price := num_nonneg (sc_price sc);
                        area := num_nonneg (sc_area sc);
                        site_area := num_nonneg (sc_site_area sc);
                        floor := fl;
                        room_count := rooms;
                        balcony_count := balc;
                        terrace_count := terr;
                        terrace_area := num_nonneg (sc_terrace_area sc) |} |}.

(** [stg_clean_csv sc JOIN listing l ON l.external_listing_id = NULLIF(btrim(sc.listing_id), '')] *)
Definition incoming_join (rows : list staged) (l : list listing_row) : list (staged * listing_row) :=
  flat_map (fun sc =>
              map (pair sc)
                  (filter (fun r => eq_text (external_listing_id r) (nullif_btrim (sc_listing_id sc))) l))
           rows.

Definition stg_listing_incoming (timestamptz_in : timestamptz_parser) (now : Z)
    (rows : list staged) (l : list listing_row) : result (list incoming_row) :=
  mapM (incoming_of timestamptz_in now) (incoming_join rows l).

(** [a IS DISTINCT FROM b] *)
Definition distinct_numeric (a b : option numeric) : bool :=
  match a, b with
  | None, None => false
  | Some x, Some y => negb (numeric_eqb x y)
  | _, _ => true
  end.

Definition distinct_int (a b : option Z) : bool :=
  match a, b with
  | None, None => false
  | Some x, Some y => negb (x =? y)
  | _, _ => true
  end.

Definition facts_distinct (cur inc : facts) : bool :=
  distinct_numeric (price cur) (price inc)
  || distinct_numeric (area cur) (area inc)
  || distinct_numeric (site_area cur) (site_area inc)
  || distinct_int (floor cur) (floor inc)
  || distinct_int (room_count cur) (room_count inc)
  || distinct_int (balcony_count cur) (balcony_count inc)
  || distinct_int (terrace_count cur) (terrace_count inc)
  || distinct_numeric (terrace_area cur) (terrace_area inc).

(** [valid_to IS NULL] *)
Definition is_open (t : version_row) : bool :=
  match valid_to t with
  | None => true
  | Some _ => false
  end.

(** The rows [cur] that the LEFT JOIN of stg_delta pairs with [inc]. *)
Definition current_of (versions : list version_row) (inc : incoming_row) : list version_row :=
  filter (fun cur => (listing_id cur =? inc_listing_id inc) && is_open cur) versions.

Definition stg_delta (incoming : list incoming_row) (versions : list version_row)
  : list incoming_row :=
  flat_map (fun inc =>
              match current_of versions inc with
              | [] => [inc]
              | cur :: curs =>
                  flat_map (fun c => if facts_distinct (v_facts c) (inc_facts inc)
                                     then [inc] else [])
                           (cur :: curs)
              end) incoming.

Definition closes (t : version_row) (d : incoming_row) : bool :=
  (listing_id t =? inc_listing_id d) && is_open t && (valid_from t <=? inc_valid_from d).

(** The UPDATE for one target row: left alone when no delta row joins
    it, closed when one does.  When several delta rows join one target
    row, PostgreSQL sets valid_to from one of them and does not say from
    which; the embedding takes the first.  The choice is open only when a
    listing has several delta rows, and bears on the valid_to that is
    written, not on which rows are closed. *)
Definition close_version (delta : list incoming_row) (t : version_row) : version_row :=
  match find (closes t) delta with
  | Some d =>
      {| listing_id := listing_id t; valid_from := valid_from t;
         valid_to := Some (inc_valid_from d);
         v_facts := v_facts t; source_change_ts := source_change_ts t |}
  | None => t
  end.

Definition close_open_versions (delta : list incoming_row) (versions : list version_row)
  : list version_row :=
  map (close_version delta) versions.

Definition has_open (versions : list version_row) (lid : Z) : bool :=
  existsb (fun t => (listing_id t =? lid) && is_open t) versions.

Definition new_version (d : incoming_row) : version_row :=
  {| listing_id := inc_listing_id d; valid_from := inc_valid_from d;
     valid_to := None;
     v_facts := inc_facts d; source_change_ts := inc_source_change_ts d |}.

(** The guarded INSERT; NOT EXISTS reads the table as the statement found
    it.  The loader puts no ON CONFLICT clause on listing_version: the
    guard is all that stands between a delta row and the table. *)
Definition insert_new_versions (delta : list incoming_row) (versions : list version_row)
  : list version_row :=
  versions ++ map new_version (filter (fun d => negb (has_open versions (inc_listing_id d))) delta).

(** [if delta > 0: UPDATE; INSERT] *)
Definition apply_scd2 (incoming : list incoming_row) (versions : list version_row)
  : list version_row :=
  match stg_delta incoming versions with
  | [] => versions
  | d :: ds => insert_new_versions (d :: ds) (close_open_versions (d :: ds) versions)
  end.

Definition build_incoming_and_apply_scd2 (timestamptz_in : timestamptz_parser) (now : Z)
    (rows : list staged) (db : database) : result database :=
  incoming <- stg_listing_incoming timestamptz_in now rows (listing db) ;;
  ok {| transaction_type := transaction_type db; item_type := item_type db;
        item_subtype := item_subtype db;
        city := city db; zipcode := zipcode db; location := location db;
        listing := listing db; listing_description := listing_description db;
        listing_version := apply_scd2 incoming (listing_version db) |}.

(* ------------------------------------------------------------------ *)
(** * Pipeline *)

Inductive step : Type :=
| Stage | Dimensions | Locations | Listings | Descriptions | Scd2
| RefreshSnapshot | Diagnostics.

(** Run one step of the unit of work and journal it; an error ends the unit. *)
Definition logged {A B} (s : step) (m : result A) (k : A -> list step * result B)
  : list step * result B :=
  match m with
  | inl e => ([s], inl e)
  | inr a => let (j, r) := k a in (s :: j, r)
  end.

(** The body of [with conn.begin():]. *)
Definition load_unit (timestamptz_in : timestamptz_parser) (now : Z) (f : csv_file)
    (header_cols : list string) (h : list (string * string)) (db : database)
  : list step * result database :=
  logged Stage (copy_csv_into_staging f header_cols h) (fun rows =>
  logged Dimensions (ok (upsert_dimensions rows db)) (fun db1 =>
  logged Locations (ok (upsert_cities_zipcodes_locations rows db1)) (fun db2 =>
  logged Listings (upsert_listings rows db2) (fun db3 =>
  logged Descriptions (upsert_descriptions rows db3) (fun db4 =>
  logged Scd2 (build_incoming_and_apply_scd2 timestamptz_in now rows db4) (fun db5 =>
  ([], ok db5))))))).

(** What a run leaves behind: the exception that ended its transaction
    (if any), the committed store, and the steps that ran.  The refresh
    of the materialized view and the diagnostics come after the commit
    and touch none of the tables; an exception of theirs leaves the store
    as committed, and is not part of this record. *)
Record run : Type := {
  raised : option error;
  store : database;
  journal : list step
}.

Definition run_pipeline (timestamptz_in : timestamptz_parser) (now : Z) (f : csv_file)
    (db : database) : run :=
  let header_cols := read_csv_header f in
  match assert_expected_headers header_cols with
  | inl e => {| raised := Some e; store := db; journal := [] |}
  | inr h =>
      match load_unit timestamptz_in now f header_cols h db with
      | (j, inl e) => {| raised := Some e; store := db; journal := j |}
      | (j, inr db') =>
          {| raised := None; store := db'; journal := j ++ [RefreshSnapshot; Diagnostics] |}
      end
  end.

(* ------------------------------------------------------------------ *)
(** * Properties of the history *)

Definition of_listing (lid : Z) (t : version_row) : bool := listing_id t =? lid.

Definition open_of (lid : Z) (t : version_row) : bool := (listing_id t =? lid) && is_open t.

Definition open_count (versions : list version_row) (lid : Z) : nat :=
  List.length (filter (open_of lid) versions).

(** Current-version uniqueness: no listing has two rows with valid_to NULL. *)
Definition one_open (versions : list version_row) : Prop :=
  forall lid, (open_count versions lid <= 1)%nat.

(** The batch brings at most one incoming fact for a listing. *)
Definition one_fact_per_listing (incoming : list incoming_row) : Prop :=
  NoDup (map inc_listing_id incoming).

(** [a] ends no later than [b] starts. *)
Definition before (a b : version_row) : Prop :=
  exists e, valid_to a = Some e /\ e <= valid_from b.

(** The instant [x] lies in the interval [valid_from, valid_to) of [t]. *)
Definition covers (t : version_row) (x : Z) : Prop :=
  valid_from t <= x /\ forall e, valid_to t = Some e -> x < e.

(** Two rows of one listing are in sequence on the time line. *)
Definition in_sequence (a b : version_row) : Prop :=
  listing_id a = listing_id b -> before a b \/ before b a.

(** The tables that a sequence of loads builds from the empty history,
    each load bringing at most one fact per listing. *)
Inductive history : list version_row -> Prop :=
| history_empty : history []
| history_load : forall versions incoming,
    history versions ->
    one_fact_per_listing incoming ->
    history (apply_scd2 incoming versions).

(** Null-aware inequality: NULL differs from every value and from no NULL. *)
Definition differs {A} (same : A -> A -> Prop) (a b : option A) : Prop :=
  match a, b with
  | None, None => False
  | Some x, Some y => ~ same x y
  | _, _ => True
  end.

(** Equality of numerics is equality of the values they denote. *)
Definition same_value (x y : numeric) : Prop :=
  unscaled x * pow10 (dscale y) = unscaled y * pow10 (dscale x).

Definition facts_differ (cur inc : facts) : Prop :=
  differs same_value (price cur) (price inc)
  \/ differs same_value (area cur) (area inc)
  \/ differs same_value (site_area cur) (site_area inc)
  \/ differs eq (floor cur) (floor inc)
  \/ differs eq (room_count cur) (room_count inc)
  \/ differs eq (balcony_count cur) (balcony_count inc)
  \/ differs eq (terrace_count cur) (terrace_count inc)
  \/ differs same_value (terrace_area cur) (terrace_area inc).

(** The delta test for one incoming row against the table, when the
    listing has at most one open version. *)
Definition is_delta (versions : list version_row) (inc : incoming_row) : bool :=
  match current_of versions inc with
  | [] => true
  | cur :: _ => facts_distinct (v_facts cur) (inc_facts inc)
  end.

(** Every closed interval has its end at or after its start. *)
Definition closed_after_start (versions : list version_row) : Prop :=
  forall t e, In t versions -> valid_to t = Some e -> valid_from t <= e.

(** Every closed version ends no later than the open version of its
    listing starts. *)
Definition closed_before_open (versions : list version_row) : Prop :=
  forall c e, In c versions -> valid_to c = Some e ->
    exists o, In o versions /\ listing_id o = listing_id c
              /\ valid_to o = None /\ e <= valid_from o.

(** The invariant that the engine keeps on listing_version. *)
Record chained (versions : list version_row) : Prop := {
  chained_one_open : one_open versions;
  chained_lengths : closed_after_start versions;
  chained_top : closed_before_open versions;
  chained_pairs : ForallOrdPairs in_sequence versions
}.

(** No two rows of one listing overlap, and the later one starts at or
    after the end of the earlier one.  [a] and [b] are any two rows of the
    table, [a] being the first in heap order. *)
Definition non_overlapping (versions : list version_row) : Prop :=
  forall l1 a l2 b l3,
    versions = l1 ++ a :: l2 ++ b :: l3 ->
    listing_id a = listing_id b ->
    (forall x, ~ (covers a x /\ covers b x))
    /\ (valid_from a < valid_from b -> before a b)
    /\ (valid_from b < valid_from a -> before b a)
    /\ (valid_from a = valid_from b -> before a b \/ before b a).

(** The UPDATE never closes a version before its own start. *)
Definition closes_forward (versions : list version_row) : Prop :=
  forall delta t e,
    In t versions -> valid_to t = None ->
    valid_to (close_version delta t) = Some e ->
    valid_from t <= e.

(** The zipcode rule of the loader: blank text is unknown; otherwise the
    digits of the text, when there are one to five of them, are filled
    with zeros on the left to five characters; any other text is unknown. *)
Definition zip_rule (s : string) (stored : option string) : Prop :=
  let d := digits_of s in
  (btrim s = "" -> stored = None)
  /\ (btrim s <> "" -> (1 <= List.length d <= 5)%nat ->
      stored = Some (text (repeat "0"%char (5 - List.length d) ++ d)))
  /\ (btrim s <> "" -> List.length d = 5%nat -> stored = Some (text d))
  /\ (btrim s <> "" -> List.length d = 4%nat -> stored = Some (text ("0"%char :: d)))
  /\ (List.length d = 0%nat \/ (5 < List.length d)%nat -> stored = None).

(** After an upsert the table holds a row for the proposed row [c], and
    the rows for [c] carry what [c] proposes. *)
Definition settled {R C} (conflict : C -> R -> bool) (set : C -> R -> R)
    (c : C) (tbl : list R) : Prop :=
  existsb (conflict c) tbl = true
  /\ forall r, In r tbl -> conflict c r = true -> set c r = r.

(** The trimmed, non-empty business keys of the batch, one per row that has one. *)
Definition business_keys (rows : list staged) : list string :=
  somes (map (fun sc => nullif_btrim (sc_listing_id sc)) rows).

(** The first row of an ordered partition is a longest one. *)
Definition head_longest (l : list (option string * string)) : Prop :=
  match l with
  | [] => True
  | x :: _ => forall y, In y l -> (char_length (snd y) <= char_length (snd x))%nat
  end.

(** What [ORDER BY length(body) DESC] asks of a sort: the rows of the
    partition, each as often as it is there, none before a longer one. *)
Definition orders_by_length_desc (sort : description_sort) : Prop :=
  forall l,
    Permutation (sort l) l
    /\ StronglySorted (fun x y => (char_length (snd y) <= char_length (snd x))%nat)
         (sort l).

(** [b] is the trimmed, non-empty description of a batch row whose
    trimmed business key is [k]. *)
Definition described (rows : list staged) (k b : string) : Prop :=
  exists sc, In sc rows
             /\ nullif_btrim (sc_listing_id sc) = Some k
             /\ nullif_btrim (sc_description_fr sc) = Some b.

(** The rows that a run stages from the file. *)
Definition staged_rows (f : csv_file) : list staged :=
  match assert_expected_headers (read_csv_header f) with
  | inr h => map (staged_of (read_csv_header f) h) (lines f)
  | inl _ => []
  end.

(** What the loader relies on in the store it finds: listing ids are
    unique and no listing has two open versions. *)
Definition store_ok (db : database) : Prop :=
  NoDup (map l_id (listing db)) /\ one_open (listing_version db).

(** Two transactions read the date texts of the rows alike: each
    change_date and start_date is taken for the same instant, or
    refused, by both. *)
Definition read_alike (tz1 tz2 : timestamptz_parser) (rows : list staged) : Prop :=
  forall sc s, In sc rows ->
    sc_change_date sc = Some s \/ sc_start_date sc = Some s ->
    tz2 s = tz1 s.

(** The fact that a staged row gives at clock [now2], against the fact it
    gave at clock [now1]: the same but for a valid_from taken from NOW(). *)
Definition same_fact_later (now1 now2 : Z) (f1 f2 : incoming_row) : Prop :=
  inc_listing_id f2 = inc_listing_id f1
  /\ inc_facts f2 = inc_facts f1
  /\ inc_source_change_ts f2 = inc_source_change_ts f1
  /\ (inc_valid_from f2 = inc_valid_from f1
      \/ (inc_valid_from f1 = now1 /\ inc_valid_from f2 = now2)).

(** The text [l] is a decimal literal: an optional minus sign, the
    integer digits [ip] (at least one) and, when [fp] is not empty, a
    point followed by the fraction digits [fp]. *)
Definition decimal_text (l : list ascii) (neg : bool) (ip fp : list ascii) : Prop :=
  ip <> []
  /\ forallb is_digit ip = true
  /\ forallb is_digit fp = true
  /\ l = (if neg then ["-"%char] else [])
         ++ ip ++ match fp with [] => [] | _ :: _ => "."%char :: fp end.


(** The timestamp and integer columns of a staged row cast without error
    (the other columns of the incoming fact cannot raise). *)
Definition casts (timestamptz_in : timestamptz_parser) (sc : staged) : Prop :=
  (exists c, ts_or_null timestamptz_in (sc_change_date sc) = inr c
             /\ (c = None -> exists s, ts_or_null timestamptz_in (sc_start_date sc) = inr s))
  /\ (exists v, floor_bounded (-5) 300 (sc_floor sc) = inr v)
  /\ (exists v, smallint_nonneg (sc_room_count sc) = inr v)
  /\ (exists v, smallint_nonneg (sc_balcony_count sc) = inr v)
  /\ (exists v, smallint_nonneg (sc_terrace_count sc) = inr v).

(** The stores that runs of the pipeline build from the empty store, each
    run on a file in which no two rows carry the same trimmed business
    key.  (A run that raises leaves the store it found.) *)
Inductive loaded (timestamptz_in : timestamptz_parser) : database -> Prop :=
| loaded_empty : loaded timestamptz_in empty_database
| loaded_run : forall db now f,
    loaded timestamptz_in db ->
    NoDup (business_keys (staged_rows f)) ->
    loaded timestamptz_in (store (run_pipeline timestamptz_in now f db)).

(* ------------------------------------------------------------------ *)
(** * Properties of the master data and of a run *)

(** The staged row names its transaction type, item type, item subtype
    and city, and its zipcode normalises: the five values that the
    listing upsert joins on. *)
Definition usable (sc : staged) : Prop :=
  (exists c, nullif_btrim (sc_transaction_type sc) = Some c)
  /\ (exists c, nullif_btrim (sc_item_type sc) = Some c)
  /\ (exists c, nullif_btrim (sc_item_subtype sc) = Some c)
  /\ (exists c, nullif_btrim (sc_city sc) = Some c)
  /\ (exists c, norm_zip_5 (sc_zipcode sc) = Some c).

(** The columns that ON CONFLICT names for item_subtype and location. *)
Definition subtype_key (r : item_subtype_row) : Z * string :=
  (st_item_type_id r, st_code r).

Definition location_key (r : location_row) : Z * Z := (city_id r, zipcode_id r).

(** The keys that the ON CONFLICT clauses and the joins of the loader go
    by are unique: codes and names in the dimensions, (item type, code)
    in item_subtype, (city, zipcode) in location, the business key in
    listing and the listing in listing_description. *)
Definition keys_unique (db : database) : Prop :=
  NoDup (map code (transaction_type db))
  /\ NoDup (map code (item_type db))
  /\ NoDup (map subtype_key (item_subtype db))
  /\ NoDup (map code (city db))
  /\ NoDup (map code (zipcode db))
  /\ NoDup (map location_key (location db))
  /\ NoDup (map external_listing_id (listing db))
  /\ NoDup (map d_listing_id (listing_description db)).

(** A staged row that the statements of the loader can take: it has a
    business key, and its build year, timestamps, floor and counts cast
    without error. *)
Definition loadable (timestamptz_in : timestamptz_parser) (sc : staged) : Prop :=
  (exists k, nullif_btrim (sc_listing_id sc) = Some k)
  /\ (exists y, year_1800_2100 (sc_build_year sc) = inr y)
  /\ casts timestamptz_in sc.

(** [t'] is the row [t] after the closing UPDATE: the same row, but for a
    valid_to that may have been set on a row that had none. *)
Definition same_but_closed (t t' : version_row) : Prop :=
  listing_id t' = listing_id t
  /\ valid_from t' = valid_from t
  /\ v_facts t' = v_facts t
  /\ source_change_ts t' = source_change_ts t
  /\ (forall e, valid_to t = Some e -> valid_to t' = Some e).

(** The version [t] closed at the instant [e]. *)
Definition closed_at (e : Z) (t : version_row) : version_row :=
  {| listing_id := listing_id t; valid_from := valid_from t; valid_to := Some e;
     v_facts := v_facts t; source_change_ts := source_change_ts t |}.

(** Every reference between tables finds its row: subtypes name an item
    type, locations a city and a zipcode, listings a transaction type, a
    subtype and a location, descriptions and versions a listing. *)
Definition references_hold (db : database) : Prop :=
  (forall st, In st (item_subtype db) ->
     In (st_item_type_id st) (map dim_id (item_type db)))
  /\ (forall loc, In loc (location db) ->
        In (city_id loc) (map dim_id (city db))
        /\ In (zipcode_id loc) (map dim_id (zipcode db)))
  /\ (forall l, In l (listing db) ->
        In (transaction_type_id (attrs l)) (map dim_id (transaction_type db))
        /\ In (l_item_subtype_id (attrs l)) (map item_subtype_id (item_subtype db))
        /\ In (l_location_id (attrs l)) (map location_id (location db)))
  /\ (forall d, In d (listing_description db) ->
        In (d_listing_id d) (map l_id (listing db)))
  /\ (forall v, In v (listing_version db) ->
        In (listing_id v) (map l_id (listing db))).

(* ------------------------------------------------------------------ *)
(** * Sample data *)

(** A parser for batches that carry no timestamp text. *)
Definition no_timestamps : timestamptz_parser := fun _ => None.

(** The number of days from 1970-01-01 to the given day of the
    proleptic Gregorian calendar. *)
Definition days_from_civil (y m d : Z) : Z :=
  let y' := if m <=? 2 then y - 1 else y in
  let era := y' / 400 in
  let yoe := y' - era * 400 in
  let mp := if 2 <? m then m - 3 else m + 9 in
  let doy := (153 * mp + 2) / 5 + d - 1 in
  let doe := yoe * 365 + yoe / 4 - yoe / 100 + doy in
  era * 146097 + doe - 719468.

(** A parser for batches whose timestamps are ISO dates: [YYYY-MM-DD] is
    read as midnight UTC of that day, the time line being counted in
    days since 1970-01-01; any other text is rejected. *)
Definition iso_date_in : timestamptz_parser := fun s =>
  match chars s with
  | [y1; y2; y3; y4; h1; m1; m2; h2; d1; d2] =>
      let m := digits_value [m1; m2] in
      let d := digits_value [d1; d2] in
      if forallb is_digit [y1; y2; y3; y4; m1; m2; d1; d2]
         && Ascii.eqb h1 "-" && Ascii.eqb h2 "-"
         && (1 <=? m) && (m <=? 12) && (1 <=? d) && (d <=? 31)
      then Some (days_from_civil (digits_value [y1; y2; y3; y4]) m d)
      else None
  | _ => None
  end.

(** The clock reading at midnight UTC of an ISO date. *)
Definition day (s : string) : Z :=
  match iso_date_in s with Some t => t | None => 0 end.

(** A CSV line in the order of [EXPECTED]: a sale of a villa in Paris,
    with the given change date, key, zipcode, price, area and
    description. *)
Definition sample_line_at (chg k zip p a descr : option string) : list (option string) :=
  [ k; Some "SELL"; Some "HOUSE"; Some "VILLA"; None; chg;
    p; a; None; None; None; None; None; None;
    None; None; None; None; None;
    Some "Paris"; zip; descr ].

(** The same line without dates. *)
Definition sample_line : option string -> option string -> option string ->
    option string -> option string -> list (option string) :=
  sample_line_at None.

(** Business key A-100 on two lines, changed on 1 January and on
    1 February 2024; the second line has a zipcode that resolves to no
    location. *)
Definition duplicate_key_batch : csv_file :=
  {| header := EXPECTED;
     lines := [ sample_line_at (Some "2024-01-01") (Some "A-100") (Some "75001")
                  (Some "200000") (Some "50") None;
                sample_line_at (Some "2024-02-01") (Some "A-100") (Some "ABCDE")
                  (Some "210000") (Some "50") None ] |}.

Definition priced (p : Z) : facts :=
  {| price := Some {| unscaled := p; dscale := 0 |};
     area := None; site_area := None; floor := None; room_count := None;
     balcony_count := None; terrace_count := None; terrace_area := None |}.

Definition fact_at (lid vf p : Z) : incoming_row :=
  {| inc_listing_id := lid; inc_valid_from := vf; inc_source_change_ts := Some vf;
     inc_facts := priced p |}.

(** The first load of [duplicate_key_batch] into the empty store, on
    1 March 2024. *)
Definition duplicate_key_load : run :=
  run_pipeline iso_date_in (day "2024-03-01") duplicate_key_batch empty_database.

(** Listing 1 with an open version since 5, priced 100. *)
Definition sample_versions : list version_row := [new_version (fact_at 1 5 100)].

(** A staged row as a line is read under the header [EXPECTED]. *)
Definition sample_row_at (chg k zip p a descr : option string) : staged :=
  staged_of EXPECTED (map (fun c => (c, c)) EXPECTED) (sample_line_at chg k zip p a descr).

Definition sample_row : option string -> option string -> option string ->
    option string -> option string -> staged :=
  sample_row_at None.

(** A file whose header lacks the price column. *)
Definition no_price_file : csv_file :=
  {| header := filter (fun c => negb (String.eqb c "price")) EXPECTED;
     lines := [] |}.

(** The staged rows of [duplicate_key_batch]. *)
Definition duplicate_key_rows : list staged :=
  [ sample_row_at (Some "2024-01-01") (Some "A-100") (Some "75001")
      (Some "200000") (Some "50") None;
    sample_row_at (Some "2024-02-01") (Some "A-100") (Some "ABCDE")
      (Some "210000") (Some "50") None ].

(** Business key A-100 on two lines, with descriptions of 4 and 9 characters. *)
Definition two_descriptions : list staged :=
  [ sample_row (Some "A-100") (Some "75001") (Some "200000") (Some "50") (Some " flat ");
    sample_row (Some "A-100") (Some "75001") (Some "200000") (Some "50") (Some "nice flat") ].

(** Three times the letter e with acute accent, two bytes each in UTF-8. *)
Definition three_accents : string :=
  text (map ascii_of_nat [195; 169; 195; 169; 195; 169]%nat).

(** Business key A-100 on two lines, with descriptions of 3 and 4 characters. *)
Definition accented_descriptions : list staged :=
  [ sample_row (Some "A-100") (Some "75001") (Some "200000") (Some "50") (Some three_accents);
    sample_row (Some "A-100") (Some "75001") (Some "200000") (Some "50") (Some "abcd") ].

(** One line, business key A-100. *)
Definition single_key_batch : csv_file :=
  {| header := EXPECTED;
     lines := [ sample_line (Some "A-100") (Some "75001") (Some "200000") (Some "50") None ] |}.

(** The second load of [duplicate_key_batch], a day later. *)
Definition duplicate_key_reload : run :=
  run_pipeline iso_date_in (day "2024-03-02") duplicate_key_batch (store duplicate_key_load).

(** Business key A-100, priced 200000, changed on 2 January 2024. *)
Definition dated_batch : csv_file :=
  {| header := EXPECTED;
     lines := [ sample_line_at (Some "2024-01-02") (Some "A-100") (Some "75001")
                  (Some "200000") (Some "50") None ] |}.

(** Business key A-100, priced 210000, without dates. *)
Definition undated_batch : csv_file :=
  {| header := EXPECTED;
     lines := [ sample_line (Some "A-100") (Some "75001") (Some "210000") (Some "50") None ] |}.

(** [dated_batch] loaded into the empty store on 1 January 2024: its
    version opens the day after. *)
Definition early_load : run :=
  run_pipeline iso_date_in (day "2024-01-01") dated_batch empty_database.

(** [undated_batch] loaded the same day, and again on 3 January. *)
Definition undated_load : run :=
  run_pipeline iso_date_in (day "2024-01-01") undated_batch (store early_load).

Definition undated_reload : run :=
  run_pipeline iso_date_in (day "2024-01-03") undated_batch (store undated_load).




(** Business key A-100 on two lines that both resolve. *)
Definition repeated_key_batch : csv_file :=
  {| header := EXPECTED;
     lines := [ sample_line (Some "A-100") (Some "75001") (Some "200000") (Some "50") None;
                sample_line (Some "A-100") (Some "75001") (Some "210000") (Some "50") None ] |}.

(** A line for business key B-200 whose zipcode has no digit. *)
Definition no_zipcode_rows : list staged :=
  [ sample_row (Some "B-200") (Some "ABCDE") (Some "150000") (Some "40") None ].

(** A header in another order and another letter case, with a column the
    loader does not use. *)
Definition shuffled_header : list string :=
  "Agency" :: "PRICE" :: header no_price_file.

(** Business key A-100 with a description, and its load into the empty
    store. *)
Definition described_batch : csv_file :=
  {| header := EXPECTED;
     lines := [ sample_line (Some "A-100") (Some "75001") (Some "200000") (Some "50")
                  (Some "nice flat") ] |}.

Definition described_load : run :=
  run_pipeline no_timestamps 10 described_batch empty_database.

(** The incoming fact of the second line of [duplicate_key_batch]. *)
Definition fact_of_second_line : incoming_row :=
  {| inc_listing_id := 1; inc_valid_from := day "2024-02-01";
     inc_source_change_ts := Some (day "2024-02-01");
     inc_facts := {| price := Some {| unscaled := 210000; dscale := 0 |};
                     area := Some {| unscaled := 50; dscale := 0 |};
                     site_area := None; floor := None; room_count := None;
                     balcony_count := None; terrace_count := None;
                     terrace_area := None |} |}.

(* ================================================================== *)
(** * Theorems *)

Unset Implicit Arguments.

(** ** Lists *)

Lemma filter_map_fixed {A} (p : A -> bool) (f : A -> A) (l : list A) :
  (forall x, In x l -> p (f x) = p x) ->
  (forall x, In x l -> p x = true -> f x = x) ->
  filter p (map f l) = filter p l.
Proof.
  induction l as [|a l IH]; intros Hp Hf; simpl; [reflexivity|].
  rewrite (Hp a (or_introl eq_refl)).
  destruct (p a) eqn:E.
  - rewrite (Hf a (or_introl eq_refl) E). f_equal.
    apply IH; intros; auto using in_cons.
  - apply IH; intros; auto using in_cons.
Qed.

Lemma filter_none {A} (p : A -> bool) (l : list A) :
  (forall x, In x l -> p x = false) -> filter p l = [].
Proof.
  induction l as [|a l IH]; intros H; simpl; [reflexivity|].
  rewrite (H a (or_introl eq_refl)). apply IH. intros; auto using in_cons.
Qed.

Lemma length_filter_map_le {A} (p : A -> bool) (f : A -> A) (l : list A) :
  (forall x, In x l -> p (f x) = true -> p x = true) ->
  (List.length (filter p (map f l)) <= List.length (filter p l))%nat.
Proof.
  induction l as [|a l IH]; intros H; simpl; [lia|].
  assert (IH' := IH (fun x Hx => H x (or_intror Hx))).
  destruct (p (f a)) eqn:E.
  - rewrite (H a (or_introl eq_refl) E). simpl. lia.
  - destruct (p a); simpl; lia.
Qed.

Lemma short_list_unique {A} (l : list A) (a b : A) :
  (List.length l <= 1)%nat -> In a l -> In b l -> a = b.
Proof.
  destruct l as [|x [|y l]]; simpl; intros Hl Ha Hb.
  - contradiction.
  - destruct Ha as [<-|[]], Hb as [<-|[]]. reflexivity.
  - lia.
Qed.

Lemma NoDup_map_filter {Row Key} (key : Row -> Key) (keep : Row -> bool) (rows : list Row) :
  NoDup (map key rows) -> NoDup (map key (filter keep rows)).
Proof.
  induction rows as [|a l IH]; simpl; intros H; [constructor|].
  inversion H as [|? ? Hn Hd]; subst.
  destruct (keep a); simpl; auto.
  constructor; auto.
  intros Hin. apply Hn. apply in_map_iff in Hin as (x & Hx & Hi).
  apply filter_In in Hi as [Hi _]. apply in_map_iff; eauto.
Qed.

Lemma NoDup_map_inj {A B} (f : A -> B) (l : list A) (a b : A) :
  NoDup (map f l) -> In a l -> In b l -> f a = f b -> a = b.
Proof.
  induction l as [|x l IH]; simpl; intros H Ha Hb E; [contradiction|].
  inversion H as [|? ? Hn Hd]; subst.
  destruct Ha as [->|Ha], Hb as [->|Hb]; auto.
  - exfalso. apply Hn. rewrite E. now apply in_map.
  - exfalso. apply Hn. rewrite <- E. now apply in_map.
Qed.

Lemma find_all_false {A} (p : A -> bool) (l : list A) :
  (forall x, In x l -> p x = false) -> find p l = None.
Proof.
  induction l as [|a l IH]; intros H; simpl; [reflexivity|].
  rewrite (H a (or_introl eq_refl)). apply IH. intros; auto using in_cons.
Qed.

Lemma flat_map_head {A B} (f : A -> list B) (a : A) (l : list A) :
  flat_map f (a :: l) = f a ++ flat_map f l.
Proof. reflexivity. Qed.

(** ** The delta and the two statements that apply it *)

Lemma stg_delta_incl incoming versions d :
  In d (stg_delta incoming versions) -> In d incoming.
Proof.
  unfold stg_delta. intros H. apply in_flat_map in H as (i & Hi & Hd).
  destruct (current_of versions i) as [|cur curs].
  - destruct Hd as [<-|[]]. exact Hi.
  - apply in_flat_map in Hd as (c & _ & Hc).
    destruct (facts_distinct _ _); [destruct Hc as [<-|[]]; exact Hi | contradiction].
Qed.

Lemma stg_delta_filter incoming versions :
  one_open versions ->
  stg_delta incoming versions = filter (is_delta versions) incoming.
Proof.
  intros H1. unfold stg_delta.
  induction incoming as [|i l IH]; [reflexivity|].
  rewrite flat_map_head, IH. simpl filter. unfold is_delta at 2.
  assert (Hlen : (List.length (current_of versions i) <= 1)%nat) by apply H1.
  destruct (current_of versions i) as [|cur [|c2 curs]]; simpl in *.
  - reflexivity.
  - destruct (facts_distinct _ _); reflexivity.
  - lia.
Qed.

Lemma stg_delta_one_fact incoming versions :
  one_open versions ->
  one_fact_per_listing incoming ->
  one_fact_per_listing (stg_delta incoming versions).
Proof.
  intros H1 Hn. rewrite stg_delta_filter by assumption.
  now apply NoDup_map_filter.
Qed.

Lemma close_version_listing delta t :
  listing_id (close_version delta t) = listing_id t.
Proof. unfold close_version. destruct (find _ _); reflexivity. Qed.

Lemma close_version_from delta t :
  valid_from (close_version delta t) = valid_from t.
Proof. unfold close_version. destruct (find _ _); reflexivity. Qed.

Lemma close_version_closed delta t :
  is_open t = false -> close_version delta t = t.
Proof.
  intros H. unfold close_version.
  rewrite find_all_false; [reflexivity|].
  intros d _. unfold closes. rewrite H.
  now rewrite andb_false_r.
Qed.

Lemma close_version_cases delta t :
  close_version delta t = t
  \/ exists d, In d delta /\ closes t d = true
               /\ valid_to (close_version delta t) = Some (inc_valid_from d).
Proof.
  unfold close_version. destruct (find (closes t) delta) as [d|] eqn:E.
  - right. apply find_some in E as [Hin Hc]. exists d. auto.
  - now left.
Qed.

Lemma close_version_still_open delta t :
  is_open (close_version delta t) = true -> close_version delta t = t.
Proof.
  intros H. destruct (close_version_cases delta t) as [E|(d & _ & _ & E)]; [exact E|].
  unfold is_open in H. rewrite E in H. discriminate.
Qed.

Lemma close_open_count delta versions lid :
  (open_count (close_open_versions delta versions) lid <= open_count versions lid)%nat.
Proof.
  unfold open_count, close_open_versions. apply length_filter_map_le.
  intros t _ H. unfold open_of in H. apply andb_prop in H as [Hl Ho].
  assert (E := close_version_still_open _ _ Ho).
  rewrite E in Hl, Ho.
  unfold open_of. now rewrite Hl, Ho.
Qed.

Lemma has_open_count versions lid :
  has_open versions lid = false <-> open_count versions lid = 0%nat.
Proof.
  unfold has_open, open_count. fold (open_of lid).
  induction versions as [|t l IH]; simpl; [tauto|].
  destruct (open_of lid t); simpl; [split; intros; discriminate | exact IH].
Qed.

Lemma new_versions_count delta versions lid :
  one_fact_per_listing delta ->
  (List.length (filter (open_of lid)
     (map new_version (filter (fun d => negb (has_open versions (inc_listing_id d))) delta)))
   <= if has_open versions lid then 0 else 1)%nat.
Proof.
  unfold one_fact_per_listing.
  induction delta as [|d l IH]; intros Hn; simpl; [destruct (has_open _ _); lia|].
  inversion Hn as [|? ? Hnot Hd]; subst. specialize (IH Hd).
  destruct (has_open versions (inc_listing_id d)) eqn:Ho; simpl; [exact IH|].
  unfold open_of at 1. simpl.
  destruct (inc_listing_id d =? lid) eqn:E; simpl; [|exact IH].
  apply Z.eqb_eq in E. subst lid. rewrite Ho in *.
  rewrite filter_none; [simpl; lia|].
  intros x Hx. apply in_map_iff in Hx as (d' & <- & Hd').
  apply filter_In in Hd' as [Hd' _].
  unfold open_of. simpl.
  destruct (inc_listing_id d' =? inc_listing_id d) eqn:E'; [|reflexivity].
  apply Z.eqb_eq in E'. exfalso. apply Hnot. rewrite <- E'. now apply in_map.
Qed.

Lemma insert_one_open delta versions :
  one_open versions ->
  one_fact_per_listing delta ->
  one_open (insert_new_versions delta versions).
Proof.
  intros H1 Hn lid. unfold open_count, insert_new_versions.
  rewrite filter_app, length_app.
  assert (Hc := new_versions_count delta versions lid Hn).
  destruct (has_open versions lid) eqn:Ho.
  - specialize (H1 lid). unfold open_count in H1. lia.
  - apply has_open_count in Ho. unfold open_count in Ho. lia.
Qed.

Lemma close_one_open delta versions :
  one_open versions -> one_open (close_open_versions delta versions).
Proof.
  intros H1 lid. specialize (H1 lid).
  assert (H := close_open_count delta versions lid). lia.
Qed.

Lemma apply_one_open incoming versions :
  one_open versions ->
  one_fact_per_listing incoming ->
  one_open (apply_scd2 incoming versions).
Proof.
  intros H1 Hn. unfold apply_scd2.
  assert (Hd := stg_delta_one_fact incoming versions H1 Hn).
  destruct (stg_delta incoming versions) as [|d ds]; [exact H1|].
  apply insert_one_open; [now apply close_one_open | exact Hd].
Qed.

Lemma apply_frame incoming versions lid :
  (forall d, In d (stg_delta incoming versions) -> inc_listing_id d = lid ->
     has_open versions lid = true
     /\ forall t, In t versions -> listing_id t = lid -> is_open t = true ->
          inc_valid_from d < valid_from t) ->
  filter (of_listing lid) (apply_scd2 incoming versions)
  = filter (of_listing lid) versions.
Proof.
  intros H. unfold apply_scd2.
  remember (stg_delta incoming versions) as delta eqn:Ed.
  destruct delta as [|d0 ds]; [reflexivity|].
  set (delta := d0 :: ds) in *.
  assert (Hfix : forall t, In t versions -> listing_id t = lid -> close_version delta t = t).
  { intros t Ht Hl.
    destruct (close_version_cases delta t) as [E|(d & Hd & Hc & _)]; [exact E|].
    unfold closes in Hc.
    apply andb_prop in Hc as [Hc Hle]. apply andb_prop in Hc as [Hid Ho].
    apply Z.eqb_eq in Hid. apply Z.leb_le in Hle.
    destruct (H d Hd) as [_ Hlt]; [congruence|].
    specialize (Hlt t Ht Hl Ho). lia. }
  unfold insert_new_versions. rewrite filter_app.
  rewrite (filter_none (of_listing lid) (map new_version _)).
  - rewrite app_nil_r. unfold close_open_versions. apply filter_map_fixed.
    + intros t _. unfold of_listing. now rewrite close_version_listing.
    + intros t Ht Hl. apply Hfix; [exact Ht|]. now apply Z.eqb_eq.
  - intros n Hn. apply in_map_iff in Hn as (d & <- & Hd).
    apply filter_In in Hd as [Hd Hno].
    unfold of_listing. simpl.
    destruct (inc_listing_id d =? lid) eqn:E; [|reflexivity].
    apply Z.eqb_eq in E. destruct (H d Hd E) as [Ho _].
    exfalso. unfold has_open in Ho. apply existsb_exists in Ho as (t & Ht & Hto).
    apply andb_prop in Hto as [Hl Hop]. apply Z.eqb_eq in Hl.
    apply negb_true_iff in Hno.
    assert (Hex : has_open (close_open_versions delta versions) (inc_listing_id d) = true).
    { unfold has_open. apply existsb_exists. exists t. split.
      - unfold close_open_versions. rewrite <- (Hfix t Ht Hl). now apply in_map.
      - rewrite E, Hop. now rewrite (proj2 (Z.eqb_eq _ _) Hl). }
    congruence.
Qed.

Lemma distinct_numeric_differs a b :
  distinct_numeric a b = true <-> differs same_value a b.
Proof.
  destruct a as [x|], b as [y|]; simpl; try (split; [trivial | reflexivity]).
  - unfold numeric_eqb, same_value. rewrite negb_true_iff, Z.eqb_neq. tauto.
  - split; [discriminate | contradiction].
Qed.

Lemma distinct_int_differs a b :
  distinct_int a b = true <-> differs eq a b.
Proof.
  destruct a as [x|], b as [y|]; simpl; try (split; [trivial | reflexivity]).
  - rewrite negb_true_iff, Z.eqb_neq. tauto.
  - split; [discriminate | contradiction].
Qed.

Lemma facts_distinct_differ cur inc :
  facts_distinct cur inc = true <-> facts_differ cur inc.
Proof.
  unfold facts_distinct, facts_differ.
  rewrite !orb_true_iff, !distinct_numeric_differs, !distinct_int_differs.
  tauto.
Qed.

Lemma open_unique versions a b :
  one_open versions ->
  In a versions -> In b versions ->
  listing_id a = listing_id b -> is_open a = true -> is_open b = true ->
  a = b.
Proof.
  intros H1 Ha Hb Hl Hoa Hob.
  apply (short_list_unique (filter (open_of (listing_id a)) versions)).
  - apply H1.
  - apply filter_In. split; [exact Ha|]. unfold open_of. now rewrite Z.eqb_refl, Hoa.
  - apply filter_In. split; [exact Hb|]. unfold open_of.
    rewrite Hob. now rewrite (proj2 (Z.eqb_eq _ _) (eq_sym Hl)).
Qed.

Lemma is_open_none t : is_open t = true <-> valid_to t = None.
Proof. unfold is_open. destruct (valid_to t); split; congruence. Qed.

Lemma is_delta_spec versions f :
  one_open versions ->
  is_delta versions f = true <->
  has_open versions (inc_listing_id f) = false
  \/ exists cur, In cur versions /\ listing_id cur = inc_listing_id f
                 /\ valid_to cur = None /\ facts_differ (v_facts cur) (inc_facts f).
Proof.
  intros H1. unfold is_delta.
  destruct (current_of versions f) as [|cur curs] eqn:E.
  - split; [intros _|reflexivity]. left.
    apply has_open_count. unfold open_count.
    change (open_of (inc_listing_id f)) with
      (fun cur => (listing_id cur =? inc_listing_id f) && is_open cur).
    unfold current_of in E. now rewrite E.
  - assert (Hc : In cur (current_of versions f)) by (rewrite E; now left).
    unfold current_of in Hc. apply filter_In in Hc as [Hin Hc].
    apply andb_prop in Hc as [Hl Ho]. apply Z.eqb_eq in Hl.
    rewrite facts_distinct_differ. split.
    + intros Hd. right. exists cur. repeat split; auto. now apply is_open_none.
    + intros [Hno|(c & Hcin & Hcl & Hco & Hcd)].
      * exfalso. unfold has_open in Hno.
        assert (Hex : existsb (fun t => (listing_id t =? inc_listing_id f) && is_open t) versions = true).
        { apply existsb_exists. exists cur. split; [exact Hin|].
          rewrite Ho. now rewrite (proj2 (Z.eqb_eq _ _) Hl). }
        congruence.
      * assert (c = cur); [|now subst].
        apply (open_unique versions c cur H1 Hcin Hin); [congruence | now apply is_open_none | exact Ho].
Qed.

(** ** Ordered pairs of a table *)

Lemma FOP_map {A} (R : A -> A -> Prop) (f : A -> A) (l : list A) :
  (forall a b, R a b -> R (f a) (f b)) ->
  ForallOrdPairs R l -> ForallOrdPairs R (map f l).
Proof.
  intros Hf H. induction H as [|a l Ha Hl IH]; simpl; constructor; auto.
  rewrite Forall_forall in *. intros y Hy.
  apply in_map_iff in Hy as (x & <- & Hx). auto.
Qed.

Lemma FOP_app {A} (R : A -> A -> Prop) (l1 l2 : list A) :
  ForallOrdPairs R l1 -> ForallOrdPairs R l2 ->
  (forall a b, In a l1 -> In b l2 -> R a b) ->
  ForallOrdPairs R (l1 ++ l2).
Proof.
  intros H1 H2 Hx. induction H1 as [|a l Ha Hl IH]; simpl; [exact H2|].
  constructor.
  - apply Forall_app. split; [exact Ha|].
    apply Forall_forall. intros b Hb. apply Hx; [now left | exact Hb].
  - apply IH. intros x y Hxl Hy. apply Hx; [now right | exact Hy].
Qed.

Lemma FOP_split {A} (R : A -> A -> Prop) (l1 l2 l3 : list A) (a b : A) :
  ForallOrdPairs R (l1 ++ a :: l2 ++ b :: l3) -> R a b.
Proof.
  induction l1 as [|x l1 IH]; simpl; intros H; inversion H as [|? ? Ha Hl]; subst.
  - rewrite Forall_forall in Ha. apply Ha. apply in_or_app. right. now left.
  - now apply IH.
Qed.

Lemma closes_closed delta o d :
  In d delta -> closes o d = true -> is_open (close_version delta o) = false.
Proof.
  intros Hin Hc. unfold close_version.
  destruct (find (closes o) delta) eqn:E; [reflexivity|].
  rewrite (find_none _ _ E d Hin) in Hc. discriminate.
Qed.

(** The delta row that closed a version opens the next one. *)
Lemma reopened delta versions o d :
  one_open versions ->
  In o versions -> In d delta -> closes o d = true ->
  In (new_version d)
     (map new_version
        (filter (fun d => negb (has_open (close_open_versions delta versions)
                                  (inc_listing_id d))) delta)).
Proof.
  intros H1 Ho Hin Hc. apply in_map. apply filter_In. split; [exact Hin|].
  apply negb_true_iff. unfold has_open.
  destruct (existsb _ (close_open_versions delta versions)) eqn:Ex; [|reflexivity]. exfalso.
  apply existsb_exists in Ex as (x & Hx & Hxo).
  apply andb_prop in Hxo as [Hxl Hxop]. apply Z.eqb_eq in Hxl.
  apply in_map_iff in Hx as (x0 & <- & Hx0).
  assert (Ex0 := close_version_still_open delta x0 Hxop).
  rewrite Ex0 in Hxl, Hxop.
  pose proof (closes_closed delta o d Hin Hc) as Hcl.
  unfold closes in Hc. apply andb_prop in Hc as [Hc _].
  apply andb_prop in Hc as [Hid Hoo]. apply Z.eqb_eq in Hid.
  assert (x0 = o).
  { apply (open_unique versions x0 o H1); auto. congruence. }
  subst x0. rewrite Ex0 in Hcl. congruence.
Qed.

(** ** The engine keeps the chain of versions *)

Section ApplyKeepsChain.

Variable delta : list incoming_row.
Variable versions : list version_row.
Hypothesis Hv : chained versions.
Hypothesis Hd : one_fact_per_listing delta.

Let closed : list version_row := close_open_versions delta versions.
Let fresh : list version_row :=
  map new_version (filter (fun d => negb (has_open closed (inc_listing_id d))) delta).

Lemma before_close a b :
  before a b -> before (close_version delta a) (close_version delta b).
Proof.
  intros (e & Ha & Hle). exists e.
  rewrite close_version_closed, close_version_from; [auto|].
  unfold is_open. now rewrite Ha.
Qed.

Lemma in_sequence_close a b :
  in_sequence a b -> in_sequence (close_version delta a) (close_version delta b).
Proof.
  unfold in_sequence. rewrite !close_version_listing.
  intros H E. destruct (H E); [left | right]; now apply before_close.
Qed.

Lemma fresh_in_sequence (l : list incoming_row) :
  NoDup (map inc_listing_id l) -> ForallOrdPairs in_sequence (map new_version l).
Proof.
  induction l as [|d l IH]; simpl; intros H; [constructor|].
  inversion H as [|? ? Hn Hl]; subst. constructor; [|auto].
  apply Forall_forall. intros n Hin E.
  apply in_map_iff in Hin as (d' & <- & Hd').
  exfalso. apply Hn. simpl in E. rewrite E. now apply in_map.
Qed.

(** A listing left without an open version by the UPDATE had its open
    version closed by the (one) delta row of that listing. *)
Lemma closed_by_delta t d :
  In t versions -> is_open t = true ->
  In d delta -> inc_listing_id d = listing_id t ->
  has_open closed (inc_listing_id d) = false ->
  valid_from t <= inc_valid_from d
  /\ valid_to (close_version delta t) = Some (inc_valid_from d).
Proof.
  intros Ht Ho Hin Hl Hno.
  destruct (close_version_cases delta t) as [E|(d' & Hd' & Hc & E)].
  - exfalso. assert (Hex : has_open closed (inc_listing_id d) = true); [|congruence].
    unfold has_open. apply existsb_exists. exists t. split.
    + unfold closed, close_open_versions. rewrite <- E. now apply in_map.
    + rewrite Ho, Hl. now rewrite Z.eqb_refl.
  - unfold closes in Hc.
    apply andb_prop in Hc as [Hc Hle]. apply andb_prop in Hc as [Hid _].
    apply Z.eqb_eq in Hid. apply Z.leb_le in Hle.
    assert (d' = d) as ->.
    { apply (NoDup_map_inj inc_listing_id delta); auto. congruence. }
    auto.
Qed.

Lemma fresh_after_closed a n :
  In a closed -> In n fresh -> listing_id a = listing_id n -> before a n.
Proof.
  intros Ha Hn E.
  apply in_map_iff in Hn as (d & <- & Hin). apply filter_In in Hin as [Hin Hno].
  apply negb_true_iff in Hno. simpl in E |- *.
  apply in_map_iff in Ha as (t & <- & Ht).
  rewrite close_version_listing in E.
  unfold before. simpl.
  destruct (is_open t) eqn:Ho.
  - destruct (closed_by_delta t d Ht Ho Hin (eq_sym E) Hno) as [_ Hc].
    exists (inc_valid_from d). split; [exact Hc | lia].
  - rewrite (close_version_closed delta t Ho).
    unfold is_open in Ho. destruct (valid_to t) as [e|] eqn:Ev; [|discriminate].
    destruct ((chained_top Hv : closed_before_open versions) t e Ht Ev) as (o & Hoin & Hol & Hoo & Hle).
    apply is_open_none in Hoo.
    destruct (closed_by_delta o d Hoin Hoo Hin) as [Hle' _]; [congruence | exact Hno |].
    exists e. split; [reflexivity | lia].
Qed.

Lemma insert_after_close_keeps_chain : chained (closed ++ fresh).
Proof.
  split.
  - apply (insert_one_open delta closed); [|exact Hd].
    apply close_one_open. apply Hv.
  - intros t e Ht Ev. apply in_app_or in Ht as [Ht|Ht].
    + apply in_map_iff in Ht as (t0 & <- & Ht0).
      rewrite close_version_from.
      destruct (close_version_cases delta t0) as [E|(d & _ & Hc & E)].
      * rewrite E in Ev. exact ((chained_lengths Hv : closed_after_start versions) t0 e Ht0 Ev).
      * rewrite E in Ev. injection Ev as <-.
        unfold closes in Hc. apply andb_prop in Hc as [_ Hle]. now apply Z.leb_le.
    + apply in_map_iff in Ht as (d & <- & _). discriminate.
  - intros c e Hc Ev. apply in_app_or in Hc as [Hc|Hc].
    2:{ apply in_map_iff in Hc as (d & <- & _). discriminate. }
    apply in_map_iff in Hc as (t0 & <- & Ht0).
    rewrite close_version_listing.
    destruct (close_version_cases delta t0) as [E|(d & Hdin & Hcl & E)].
    + rewrite E in Ev.
      destruct ((chained_top Hv : closed_before_open versions) t0 e Ht0 Ev)
        as (o & Hoin & Hol & Hoo & Hle).
      destruct (close_version_cases delta o) as [Eo|(d & Hdin & Hcl & _)].
      * exists o. repeat split; auto.
        apply in_or_app. left. unfold closed, close_open_versions.
        rewrite <- Eo. now apply in_map.
      * exists (new_version d).
        split; [apply in_or_app; right; now apply (reopened delta versions o d (chained_one_open Hv))|].
        unfold closes in Hcl. apply andb_prop in Hcl as [Hcl Hle'].
        apply andb_prop in Hcl as [Hid _].
        apply Z.eqb_eq in Hid. apply Z.leb_le in Hle'.
        simpl. repeat split; [congruence | lia].
    + rewrite E in Ev. injection Ev as <-.
      exists (new_version d).
      split; [apply in_or_app; right; now apply (reopened delta versions t0 d (chained_one_open Hv))|].
      unfold closes in Hcl. apply andb_prop in Hcl as [Hcl _].
      apply andb_prop in Hcl as [Hid _]. apply Z.eqb_eq in Hid.
      simpl. repeat split; [congruence | lia].
  - apply FOP_app.
    + apply FOP_map; [exact in_sequence_close | apply Hv].
    + apply fresh_in_sequence. now apply NoDup_map_filter.
    + intros a n Ha Hn E. left. now apply fresh_after_closed.
Qed.

End ApplyKeepsChain.

Lemma chained_nil : chained [].
Proof.
  split.
  - intros lid. unfold open_count. simpl. lia.
  - intros t e [].
  - intros c e [].
  - constructor.
Qed.

Lemma apply_chained incoming versions :
  chained versions ->
  one_fact_per_listing incoming ->
  chained (apply_scd2 incoming versions).
Proof.
  intros Hv Hn. unfold apply_scd2.
  assert (Hd := stg_delta_one_fact incoming versions (chained_one_open Hv) Hn).
  destruct (stg_delta incoming versions) as [|d ds]; [exact Hv|].
  exact (insert_after_close_keeps_chain (d :: ds) versions Hv Hd).
Qed.

Lemma history_chained versions : history versions -> chained versions.
Proof.
  induction 1 as [|versions incoming _ IH Hn]; [exact chained_nil|].
  now apply apply_chained.
Qed.

Lemma before_not_both a b x : before a b -> ~ (covers a x /\ covers b x).
Proof.
  intros (e & Ha & Hle) [[_ Hax] [Hbx _]]. specialize (Hax e Ha). lia.
Qed.

Lemma chained_non_overlapping versions : chained versions -> non_overlapping versions.
Proof.
  intros Hv l1 a l2 b l3 -> El.
  pose proof (chained_pairs Hv) as Hp.
  apply FOP_split in Hp. specialize (Hp El).
  pose proof (chained_lengths Hv : closed_after_start _) as Hlen.
  assert (Ha : In a (l1 ++ a :: l2 ++ b :: l3)) by (apply in_or_app; right; now left).
  assert (Hb : In b (l1 ++ a :: l2 ++ b :: l3)).
  { apply in_or_app. right. right. apply in_or_app. right. now left. }
  repeat split.
  - intros x [Hax Hbx]. destruct Hp as [Hp|Hp].
    + now apply (before_not_both a b x Hp).
    + now apply (before_not_both b a x Hp).
  - intros Hlt. destruct Hp as [Hp|(e & Hb' & Hle)]; [exact Hp|].
    specialize (Hlen b e Hb Hb'). lia.
  - intros Hlt. destruct Hp as [(e & Ha' & Hle)|Hp]; [|exact Hp].
    specialize (Hlen a e Ha Ha'). lia.
  - intros _. exact Hp.
Qed.

Lemma close_version_forward : forall versions, closes_forward versions.
Proof.
  intros versions delta t e _ Hopen E.
  unfold close_version in E. destruct (find (closes t) delta) as [d|] eqn:F.
  - apply find_some in F as [_ Hc]. simpl in E. injection E as <-.
    unfold closes in Hc. apply andb_prop in Hc as [_ Hle]. now apply Z.leb_le.
  - congruence.
Qed.

Lemma sample_versions_one_open : one_open sample_versions.
Proof.
  intros lid. unfold open_count, sample_versions. simpl.
  destruct (open_of lid _); simpl; lia.
Qed.

Lemma one_fact_singleton d : one_fact_per_listing [d].
Proof. repeat constructor. simpl. tauto. Qed.

(* ------------------------------------------------------------------ *)
(** ** Delta detection *)

(** C5.  With at most one open version per listing, an incoming fact is
    in stg_delta exactly when its listing has no open version or the open
    version differs from it on one of the eight historized columns under
    null-aware inequality; a fact that differs on none is not a delta, and
    when that holds for every fact of a listing the load leaves the rows
    of that listing as they were. *)
Theorem delta_decision (incoming : list incoming_row) (versions : list version_row)
    (f : incoming_row) :
  one_open versions ->
  (In f (stg_delta incoming versions) <->
     In f incoming
     /\ (has_open versions (inc_listing_id f) = false
         \/ exists cur, In cur versions /\ listing_id cur = inc_listing_id f
                        /\ valid_to cur = None
                        /\ facts_differ (v_facts cur) (inc_facts f)))
  /\ (forall cur, In cur versions -> listing_id cur = inc_listing_id f ->
        valid_to cur = None ->
        ~ facts_differ (v_facts cur) (inc_facts f) ->
        ~ In f (stg_delta incoming versions))
  /\ (forall cur, In cur versions -> valid_to cur = None ->
        (forall g, In g incoming -> inc_listing_id g = listing_id cur ->
                   ~ facts_differ (v_facts cur) (inc_facts g)) ->
        filter (of_listing (listing_id cur)) (apply_scd2 incoming versions)
        = filter (of_listing (listing_id cur)) versions).
Proof.
  intros H1.
  assert (Hiff : forall g, In g (stg_delta incoming versions) <->
     In g incoming
     /\ (has_open versions (inc_listing_id g) = false
         \/ exists cur, In cur versions /\ listing_id cur = inc_listing_id g
                        /\ valid_to cur = None
                        /\ facts_differ (v_facts cur) (inc_facts g))).
  { intros g. rewrite (stg_delta_filter incoming versions H1), filter_In.
    now rewrite (is_delta_spec versions g H1). }
  assert (Hnot : forall g cur, In cur versions -> listing_id cur = inc_listing_id g ->
        valid_to cur = None ->
        ~ facts_differ (v_facts cur) (inc_facts g) ->
        ~ In g (stg_delta incoming versions)).
  { intros g cur Hin Hl Ho Hsame Hd. apply Hiff in Hd as [_ [Hno|(c & Hc & Hcl & Hco & Hcd)]].
    - unfold has_open in Hno.
      assert (Hex : existsb (fun t => (listing_id t =? inc_listing_id g) && is_open t) versions = true);
        [|congruence].
      apply existsb_exists. exists cur. split; [exact Hin|].
      rewrite (proj2 (is_open_none cur) Ho). now rewrite (proj2 (Z.eqb_eq _ _) Hl).
    - assert (c = cur); [|subst; contradiction].
      apply (open_unique versions c cur H1); auto; try congruence; now apply is_open_none. }
  split; [apply Hiff|]. split; [apply Hnot|].
  intros cur Hin Ho Hsame. apply apply_frame.
  intros d Hd El. exfalso.
  apply (Hnot d cur Hin (eq_sym El) Ho); [|exact Hd].
  apply Hsame; [|exact El]. now apply (stg_delta_incl incoming versions).
Qed.

Lemma delta_decision_witness :
  one_open sample_versions
  /\ (In (fact_at 1 10 200) (stg_delta [fact_at 1 10 200] sample_versions)
      <-> In (fact_at 1 10 200) [fact_at 1 10 200]
          /\ (has_open sample_versions 1 = false
              \/ exists cur, In cur sample_versions /\ listing_id cur = 1
                             /\ valid_to cur = None
                             /\ facts_differ (v_facts cur) (priced 200))).
Proof.
  split; [exact sample_versions_one_open|].
  exact (proj1 (delta_decision [fact_at 1 10 200] sample_versions (fact_at 1 10 200)
                  sample_versions_one_open)).
Defined.

(* ------------------------------------------------------------------ *)
(** ** Out-of-order facts *)

(** C10.  When the open version of a listing starts after the valid_from
    of every incoming fact of that listing, the load leaves the rows of
    the listing as they were: the open version stays open and no version
    is inserted, whether or not the fact is a delta. *)
Theorem out_of_order_fact_discarded (incoming : list incoming_row)
    (versions : list version_row) (o : version_row) :
  one_open versions ->
  In o versions -> valid_to o = None ->
  (forall f, In f incoming -> inc_listing_id f = listing_id o ->
             inc_valid_from f < valid_from o) ->
  filter (of_listing (listing_id o)) (apply_scd2 incoming versions)
  = filter (of_listing (listing_id o)) versions.
Proof.
  intros H1 Hin Ho Hlate. apply apply_frame.
  intros d Hd El. split.
  - unfold has_open. apply existsb_exists. exists o. split; [exact Hin|].
    rewrite Z.eqb_refl. now rewrite (proj2 (is_open_none o) Ho).
  - intros t Ht Hl Hto.
    assert (t = o) as ->.
    { apply (open_unique versions t o H1); auto. now apply is_open_none. }
    apply Hlate; [|exact El]. now apply (stg_delta_incl incoming versions).
Qed.

Lemma out_of_order_fact_discarded_witness :
  one_open sample_versions
  /\ In (new_version (fact_at 1 5 100)) sample_versions
  /\ In (fact_at 1 3 200) (stg_delta [fact_at 1 3 200] sample_versions)
  /\ filter (of_listing 1) (apply_scd2 [fact_at 1 3 200] sample_versions)
     = filter (of_listing 1) sample_versions.
Proof.
  split; [exact sample_versions_one_open|].
  split; [now left|].
  split; [now left|].
  apply (out_of_order_fact_discarded [fact_at 1 3 200] sample_versions
           (new_version (fact_at 1 5 100)) sample_versions_one_open).
  - now left.
  - reflexivity.
  - intros f [<-|[]] _. simpl. lia.
Defined.

(* ------------------------------------------------------------------ *)
(** ** ON CONFLICT DO NOTHING *)

Section DoNothingFacts.

Variables (R C : Type).
Variable conflict : C -> R -> bool.
Variable make : Z -> C -> R.
Variable pk : R -> Z.
Hypothesis conflict_make : forall i c, conflict c (make i c) = true.

Lemma insert_row_extends tbl c : exists more, insert_row conflict make pk tbl c = tbl ++ more.
Proof.
  unfold insert_row. destruct (existsb _ _).
  - exists []. now rewrite app_nil_r.
  - eauto.
Qed.

Lemma insert_do_nothing_extends cands : forall tbl,
  exists more, insert_do_nothing conflict make pk cands tbl = tbl ++ more.
Proof.
  unfold insert_do_nothing.
  induction cands as [|c cs IH]; intros tbl; simpl.
  - exists []. now rewrite app_nil_r.
  - destruct (insert_row_extends tbl c) as (m1 & ->).
    destruct (IH (tbl ++ m1)) as (m2 & ->).
    exists (m1 ++ m2). now rewrite app_assoc.
Qed.

Lemma insert_row_conflicts tbl c :
  existsb (conflict c) (insert_row conflict make pk tbl c) = true.
Proof.
  unfold insert_row. destruct (existsb (conflict c) tbl) eqn:E; [exact E|].
  rewrite existsb_app. simpl. rewrite conflict_make. now rewrite orb_true_r.
Qed.

(** After the statement every candidate has a conflicting row. *)
Lemma insert_do_nothing_covers cands : forall tbl c,
  In c cands ->
  existsb (conflict c) (insert_do_nothing conflict make pk cands tbl) = true.
Proof.
  unfold insert_do_nothing.
  induction cands as [|c0 cs IH]; intros tbl c Hin; simpl; [contradiction|].
  destruct Hin as [->|Hin]; [|now apply IH].
  destruct (insert_do_nothing_extends cs (insert_row conflict make pk tbl c)) as (more & E).
  unfold insert_do_nothing in E. rewrite E, existsb_app.
  now rewrite insert_row_conflicts.
Qed.

(** A statement all of whose candidates conflict inserts nothing. *)
Lemma insert_do_nothing_fixed cands tbl :
  (forall c, In c cands -> existsb (conflict c) tbl = true) ->
  insert_do_nothing conflict make pk cands tbl = tbl.
Proof.
  unfold insert_do_nothing.
  induction cands as [|c cs IH]; intros H; simpl; [reflexivity|].
  unfold insert_row at 2. rewrite (H c (or_introl eq_refl)).
  apply IH. intros; apply H; now right.
Qed.

Lemma insert_do_nothing_twice cands tbl :
  insert_do_nothing conflict make pk cands (insert_do_nothing conflict make pk cands tbl)
  = insert_do_nothing conflict make pk cands tbl.
Proof.
  apply insert_do_nothing_fixed. intros c Hc. now apply insert_do_nothing_covers.
Qed.

End DoNothingFacts.

Lemma dim_conflict_code c tbl :
  existsb (dim_conflict c) tbl = true <-> In c (map code tbl).
Proof.
  rewrite existsb_exists, in_map_iff. unfold dim_conflict.
  split; intros (r & H1 & H2).
  - exists r. split; [now apply String.eqb_eq | exact H1].
  - exists r. split; [exact H2 | now apply String.eqb_eq].
Qed.

Lemma insert_codes_codes cands : forall tbl c,
  In c (map code (insert_codes cands tbl)) <-> In c (map code tbl) \/ In c cands.
Proof.
  unfold insert_codes, insert_do_nothing.
  induction cands as [|c0 cs IH]; intros tbl c; simpl; [tauto|].
  rewrite IH. unfold insert_row.
  destruct (existsb (dim_conflict c0) tbl) eqn:E.
  - apply dim_conflict_code in E. intuition (subst; auto).
  - rewrite map_app, in_app_iff. simpl. intuition (subst; auto).
Qed.

Lemma in_somes {A} (l : list (option A)) (a : A) : In a (somes l) <-> In (Some a) l.
Proof.
  induction l as [|[x|] l IH]; simpl; [tauto| |].
  - rewrite IH. split; intros [H|H]; auto; left; congruence.
  - rewrite IH. split; [auto | intros [H|H]; [discriminate | exact H]].
Qed.

Lemma zip_codes_spec rows c :
  In c (zip_codes rows) <-> exists sc, In sc rows /\ norm_zip_5 (sc_zipcode sc) = Some c.
Proof.
  unfold zip_codes. rewrite nodup_In, in_somes, in_map_iff.
  split; intros (sc & H1 & H2); exists sc; auto.
Qed.

Lemma text_chars (l : list ascii) : chars (text l) = l.
Proof. apply list_ascii_of_string_of_list_ascii. Qed.

Lemma filter_length_forallb {A} (p : A -> bool) (l : list A) :
  forallb p (filter p l) = true.
Proof.
  induction l as [|a l IH]; simpl; [reflexivity|].
  destruct (p a) eqn:E; simpl; [now rewrite E|exact IH].
Qed.

Lemma norm_zip_5_rule (s : string) : zip_rule s (norm_zip_5 (Some s)).
Proof.
  unfold zip_rule, norm_zip_5, digits_1_5_re, lpad0.
  set (d := digits_of s).
  assert (Hd : forallb is_digit d = true) by apply filter_length_forallb.
  rewrite Hd, andb_true_r.
  destruct (String.eqb (btrim s) "") eqn:E.
  - apply String.eqb_eq in E. repeat split; auto; intros; contradiction.
  - apply String.eqb_neq in E.
    assert (Hpad : (1 <= List.length d <= 5)%nat ->
                   (if (5 <=? List.length d)%nat then firstn 5 d
                    else repeat "0"%char (5 - List.length d) ++ d)
                   = repeat "0"%char (5 - List.length d) ++ d).
    { intros Hr. destruct (5 <=? List.length d)%nat eqn:E5; [|reflexivity].
      apply Nat.leb_le in E5. assert (El : List.length d = 5%nat) by lia.
      assert (firstn 5 d = d) as -> by (rewrite <- El; apply firstn_all).
      rewrite El. reflexivity. }
    repeat split; intros.
    + contradiction.
    + destruct (1 <=? List.length d)%nat eqn:E1, (List.length d <=? 5)%nat eqn:E2;
        try (apply Nat.leb_gt in E1; lia); try (apply Nat.leb_gt in E2; lia).
      cbn [andb]. now rewrite Hpad.
    + replace (1 <=? List.length d)%nat with true by (symmetry; apply Nat.leb_le; lia).
      replace (List.length d <=? 5)%nat with true by (symmetry; apply Nat.leb_le; lia).
      cbn [andb]. rewrite Hpad by lia.
      replace (5 - List.length d)%nat with 0%nat by lia. reflexivity.
    + replace (1 <=? List.length d)%nat with true by (symmetry; apply Nat.leb_le; lia).
      replace (List.length d <=? 5)%nat with true by (symmetry; apply Nat.leb_le; lia).
      cbn [andb]. rewrite Hpad by lia.
      replace (5 - List.length d)%nat with 1%nat by lia. reflexivity.
    + destruct H as [H|H].
      * replace (1 <=? List.length d)%nat with false by (symmetry; apply Nat.leb_gt; lia).
        reflexivity.
      * replace (List.length d <=? 5)%nat with false by (symmetry; apply Nat.leb_gt; lia).
        now rewrite andb_false_r.
Qed.

(* ------------------------------------------------------------------ *)
(** ** Zipcode normalisation *)

(** C6, as amended.  The zipcode table after the upsert holds the codes
    it held plus the normalised zipcodes of the batch, and nothing else.
    The normalised zipcode of a text is unknown when the text is blank;
    otherwise it is the digits of the text filled with zeros on the left
    to five characters when there are one to five digits (five digits are
    kept, four get one leading zero), and unknown for any other text. *)
Theorem zip_dimension_codes (rows : list staged) (z : list dim_row) :
  (forall c, In c (map code (upsert_zipcodes rows z)) <->
             In c (map code z)
             \/ exists sc, In sc rows /\ norm_zip_5 (sc_zipcode sc) = Some c)
  /\ (forall s, zip_rule s (norm_zip_5 (Some s)))
  /\ norm_zip_5 None = None
  /\ norm_zip_5 (Some "7501") = Some "07501"
  /\ norm_zip_5 (Some "ABCDE") = None.
Proof.
  split; [|split; [exact norm_zip_5_rule | repeat split]].
  intros c. unfold upsert_zipcodes. rewrite insert_codes_codes.
  now rewrite zip_codes_spec.
Qed.

(** C6 as stated fails: a text with two digits is not unknown; its digits
    are zero-filled and a zipcode row is created. *)
Lemma two_digit_zip_is_stored :
  norm_zip_5 (Some "75") = Some "00075"
  /\ map code (upsert_zipcodes [sample_row (Some "A-100") (Some "75") None None None] [])
     = ["00075"].
Proof. split; reflexivity. Qed.

(* ------------------------------------------------------------------ *)
(** ** Required headers *)

Lemma mem_In c l : mem c l = true <-> In c l.
Proof.
  unfold mem. rewrite existsb_exists. split.
  - intros (x & Hx & E). apply String.eqb_eq in E. now subst.
  - intros H. exists c. split; [exact H | apply String.eqb_refl].
Qed.

(** C7.  When a required column is not among the lower-cased headers of
    the file, the run raises the header error naming it, the store is the
    store it was given, and no step of the unit of work has run. *)
Theorem missing_header_fails_before_any_write (timestamptz_in : timestamptz_parser)
    (now : Z) (f : csv_file) (db : database) (c : string) :
  In c EXPECTED ->
  ~ In c (map lower (read_csv_header f)) ->
  exists missing,
    In c missing
    /\ run_pipeline timestamptz_in now f db
       = {| raised := Some (RuntimeError missing); store := db; journal := [] |}.
Proof.
  intros Hc Hn. unfold run_pipeline, assert_expected_headers.
  set (lc := map lower (read_csv_header f)) in *.
  assert (Hin : In c (filter (fun c => negb (mem c lc)) EXPECTED)).
  { apply filter_In. split; [exact Hc|].
    apply negb_true_iff. destruct (mem c lc) eqn:E; [|reflexivity].
    apply mem_In in E. contradiction. }
  destruct (filter (fun c => negb (mem c lc)) EXPECTED) as [|m ms] eqn:E; [contradiction|].
  exists (m :: ms). split; [exact Hin | reflexivity].
Qed.

Lemma missing_header_fails_before_any_write_witness :
  In "price" EXPECTED
  /\ ~ In "price" (map lower (read_csv_header no_price_file))
  /\ exists missing,
       In "price" missing
       /\ run_pipeline no_timestamps 10 no_price_file empty_database
          = {| raised := Some (RuntimeError missing); store := empty_database; journal := [] |}.
Proof.
  assert (H1 : In "price" EXPECTED) by (simpl; tauto).
  assert (H2 : ~ In "price" (map lower (read_csv_header no_price_file))).
  { vm_compute. intros H. repeat (destruct H as [H|H]; [discriminate|]). exact H. }
  split; [exact H1|]. split; [exact H2|].
  exact (missing_header_fails_before_any_write no_timestamps 10 no_price_file
           empty_database "price" H1 H2).
Defined.

(* ------------------------------------------------------------------ *)
(** ** ON CONFLICT DO UPDATE *)

Lemma next_id_above ids i : In i ids -> i < next_id ids.
Proof.
  unfold next_id. induction ids as [|x l IH]; [contradiction|].
  intros [->|H]; cbn [fold_right]; [lia|]. specialize (IH H). lia.
Qed.

Lemma next_id_fresh ids : ~ In (next_id ids) ids.
Proof. intros H. apply next_id_above in H. lia. Qed.

Section DoUpdateFacts.

Variables (R C : Type).
Variable conflict : C -> R -> bool.
Variable same_key : C -> C -> bool.
Variable make : Z -> C -> R.
Variable set : C -> R -> R.
Variable pk : R -> Z.

Hypothesis conflict_make : forall i c, conflict c (make i c) = true.
Hypothesis conflict_set : forall c c' r, conflict c (set c' r) = conflict c r.
Hypothesis one_key : forall c c' r,
  conflict c r = true -> conflict c' r = true -> same_key c c' = true.
Hypothesis set_make : forall i c, set c (make i c) = make i c.
Hypothesis set_set : forall c r, set c (set c r) = set c r.

Local Abbreviation upsert := (upsert_row conflict make set pk).
Local Abbreviation settled := (settled conflict set).

Lemma upsert_row_settles tbl c : settled c (upsert tbl c).
Proof.
  unfold upsert_row. destruct (existsb (conflict c) tbl) eqn:E; split.
  - apply existsb_exists in E as (r & Hr & Hc). apply existsb_exists.
    exists (set c r). split.
    + apply in_map_iff. exists r. now rewrite Hc.
    + now rewrite conflict_set.
  - intros r Hr Hc. apply in_map_iff in Hr as (r0 & <- & _).
    destruct (conflict c r0) eqn:E0; [apply set_set|].
    congruence.
  - rewrite existsb_app. simpl. rewrite conflict_make. now rewrite orb_true_r.
  - intros r Hr Hc. apply in_app_or in Hr as [Hr|[<-|[]]].
    + exfalso. assert (existsb (conflict c) tbl = true); [|congruence].
      apply existsb_exists. eauto.
    + apply set_make.
Qed.

Lemma upsert_row_keeps tbl c c' :
  same_key c c' = false -> settled c tbl -> settled c (upsert tbl c').
Proof.
  intros Hk [Hex Hall].
  assert (Hoff : forall r, conflict c r = true -> conflict c' r = false).
  { intros r Hc. destruct (conflict c' r) eqn:E; [|reflexivity].
    rewrite (one_key c c' r Hc E) in Hk. discriminate. }
  unfold upsert_row. destruct (existsb (conflict c') tbl) eqn:E; split.
  - apply existsb_exists in Hex as (r & Hr & Hc). apply existsb_exists.
    exists r. split; [|exact Hc].
    apply in_map_iff. exists r. now rewrite (Hoff r Hc).
  - intros r Hr Hc. apply in_map_iff in Hr as (r0 & <- & Hr0).
    destruct (conflict c' r0) eqn:E0.
    + rewrite conflict_set in Hc. rewrite (Hoff r0 Hc) in E0. discriminate.
    + now apply Hall.
  - rewrite existsb_app, Hex. reflexivity.
  - intros r Hr Hc. apply in_app_or in Hr as [Hr|[<-|[]]]; [now apply Hall|].
    pose proof (Hoff _ Hc) as Hf. rewrite conflict_make in Hf. discriminate.
Qed.

Lemma settled_fixed tbl c : settled c tbl -> upsert tbl c = tbl.
Proof.
  intros [Hex Hall]. unfold upsert_row. rewrite Hex.
  rewrite <- (map_id tbl) at 2. apply map_ext_in.
  intros r Hr. destruct (conflict c r) eqn:E; [now apply Hall | reflexivity].
Qed.

Lemma repeated_key_head c cs :
  repeated_key same_key (c :: cs) = false ->
  (forall c', In c' cs -> same_key c c' = false)
  /\ repeated_key same_key cs = false.
Proof.
  simpl. intros H. apply orb_false_elim in H as [H1 H2]. split; [|exact H2].
  intros c' Hc'. destruct (same_key c c') eqn:E; [|reflexivity].
  assert (existsb (same_key c) cs = true); [|congruence].
  apply existsb_exists. eauto.
Qed.

Lemma upsert_all_settled cands : forall tbl,
  repeated_key same_key cands = false ->
  forall c, In c cands -> settled c (fold_left upsert cands tbl).
Proof.
  induction cands as [|c0 cs IH]; intros tbl Hrep c Hin; [contradiction|].
  apply repeated_key_head in Hrep as [Hoff Hrep]. simpl.
  destruct Hin as [->|Hin]; [|now apply IH].
  clear IH Hrep. revert tbl.
  assert (Hgen : forall tbl, settled c tbl -> settled c (fold_left upsert cs tbl)).
  { induction cs as [|c1 cs IH]; intros tbl Hs; simpl; [exact Hs|].
    apply IH.
    - intros c' Hc'. apply Hoff. now right.
    - apply upsert_row_keeps; [|exact Hs]. apply Hoff. now left. }
  intros tbl. apply Hgen, upsert_row_settles.
Qed.

Lemma upsert_settled_fixed cands : forall tbl,
  (forall c, In c cands -> settled c tbl) ->
  fold_left upsert cands tbl = tbl.
Proof.
  induction cands as [|c0 cs IH]; intros tbl H; simpl; [reflexivity|].
  rewrite settled_fixed by (apply H; now left).
  apply IH. intros c Hc. apply H. now right.
Qed.

(** Running the same upsert again changes nothing. *)
Lemma insert_do_update_twice cands tbl tbl' :
  insert_do_update conflict same_key make set pk cands tbl = inr tbl' ->
  insert_do_update conflict same_key make set pk cands tbl' = inr tbl'.
Proof.
  unfold insert_do_update. destruct (repeated_key same_key cands) eqn:E; [discriminate|].
  intros H. injection H as <-. unfold ok. f_equal.
  apply upsert_settled_fixed. intros c Hc. now apply upsert_all_settled.
Qed.

Hypothesis pk_make : forall i c, pk (make i c) = i.
Hypothesis pk_set : forall c r, pk (set c r) = pk r.

Lemma upsert_row_pks tbl c :
  NoDup (map pk tbl) -> NoDup (map pk (upsert tbl c)).
Proof.
  intros H. unfold upsert_row. destruct (existsb (conflict c) tbl).
  - rewrite map_map.
    rewrite (map_ext _ pk); [exact H|].
    intros r. destruct (conflict c r); [apply pk_set | reflexivity].
  - rewrite map_app. simpl. rewrite pk_make.
    apply NoDup_app; [exact H | repeat constructor; simpl; tauto |].
    intros i Hi [<-|[]]. now apply next_id_fresh in Hi.
Qed.

Lemma upsert_all_pks cands : forall tbl,
  NoDup (map pk tbl) -> NoDup (map pk (fold_left upsert cands tbl)).
Proof.
  induction cands as [|c cs IH]; intros tbl H; simpl; [exact H|].
  apply IH. now apply upsert_row_pks.
Qed.

End DoUpdateFacts.

(* ------------------------------------------------------------------ *)
(** ** Joins on the business key *)

Lemma mapM_map {A B K} (f : A -> result B) (ka : A -> K) (kb : B -> K) :
  (forall a b, f a = inr b -> kb b = ka a) ->
  forall l l', mapM f l = inr l' -> map kb l' = map ka l.
Proof.
  intros Hf. induction l as [|a l IH]; simpl; intros l' H.
  - injection H as <-. reflexivity.
  - unfold bind in H. destruct (f a) as [e|b] eqn:Ea; [discriminate|].
    destruct (mapM f l) as [e|bs]; [discriminate|].
    injection H as <-. simpl. now rewrite (Hf a b Ea), (IH bs eq_refl).
Qed.

Lemma mapM_In {A B} (f : A -> result B) :
  forall l l' a, mapM f l = inr l' -> In a l -> exists b, f a = inr b /\ In b l'.
Proof.
  induction l as [|x l IH]; simpl; intros l' a H Hin; [contradiction|].
  unfold bind in H. destruct (f x) as [e|b] eqn:Ex; [discriminate|].
  destruct (mapM f l) as [e|bs]; [discriminate|].
  injection H as <-. destruct Hin as [->|Hin].
  - exists b. split; [exact Ex | now left].
  - destruct (IH bs a eq_refl Hin) as (b' & Hb & Hin'). exists b'. split; [exact Hb | now right].
Qed.

Lemma eq_text_some a b : eq_text a b = true <-> b = Some a.
Proof.
  destruct b as [b|]; simpl; [|split; discriminate].
  rewrite String.eqb_eq. split; congruence.
Qed.

Lemma NoDup_somes_tail {A} (x : option A) (l : list (option A)) :
  NoDup (somes (x :: l)) -> NoDup (somes l).
Proof. destruct x; simpl; [now inversion 1 | trivial]. Qed.

(** Probes with pairwise different keys reach pairwise different listings. *)
Lemma join_ids_NoDup {X} (key : X -> option string) (xs : list X) (l : list listing_row) :
  NoDup (map l_id l) ->
  NoDup (somes (map key xs)) ->
  NoDup (flat_map (fun x => map l_id
                     (filter (fun r => eq_text (external_listing_id r) (key x)) l)) xs).
Proof.
  intros Hl. induction xs as [|x xs IH]; simpl; intros Hk; [constructor|].
  apply NoDup_app.
  - now apply NoDup_map_filter.
  - apply IH. now apply NoDup_somes_tail in Hk.
  - intros i Hi Hi'.
    apply in_map_iff in Hi as (r & <- & Hr). apply filter_In in Hr as [Hr Hm].
    apply in_flat_map in Hi' as (x' & Hx' & Hi').
    apply in_map_iff in Hi' as (r' & E & Hr'). apply filter_In in Hr' as [Hr' Hm'].
    assert (r' = r) as -> by (now apply (NoDup_map_inj l_id l)).
    apply eq_text_some in Hm, Hm'.
    rewrite Hm in Hk. simpl in Hk. inversion Hk as [|? ? Hn _]; subst.
    apply Hn. apply in_somes. rewrite <- Hm'. now apply in_map.
Qed.

Lemma incoming_join_ids rows l :
  map (fun p => l_id (snd p)) (incoming_join rows l)
  = flat_map (fun sc => map l_id
                (filter (fun r => eq_text (external_listing_id r)
                                    (nullif_btrim (sc_listing_id sc))) l)) rows.
Proof.
  unfold incoming_join. induction rows as [|sc rows IH]; simpl; [reflexivity|].
  rewrite map_app, IH, map_map. reflexivity.
Qed.

Ltac bind_inv H :=
  repeat match type of H with
         | bind ?m _ = inr _ =>
             let E := fresh "E" in
             destruct m eqn:E; [discriminate H | cbn [bind] in H]
         end.

Lemma incoming_of_fields timestamptz_in now sc r f :
  incoming_of timestamptz_in now (sc, r) = inr f ->
  inc_listing_id f = l_id r
  /\ price (inc_facts f) = num_nonneg (sc_price sc)
  /\ area (inc_facts f) = num_nonneg (sc_area sc)
  /\ site_area (inc_facts f) = num_nonneg (sc_site_area sc)
  /\ terrace_area (inc_facts f) = num_nonneg (sc_terrace_area sc).
Proof.
  unfold incoming_of. intros H. bind_inv H.
  injection H as <-. simpl. auto.
Qed.

Lemma stg_listing_incoming_ids timestamptz_in now rows l incoming :
  stg_listing_incoming timestamptz_in now rows l = inr incoming ->
  map inc_listing_id incoming = map (fun p => l_id (snd p)) (incoming_join rows l).
Proof.
  apply mapM_map. intros [sc r] f H.
  now apply incoming_of_fields in H.
Qed.

Lemma stg_listing_incoming_one_fact timestamptz_in now rows l incoming :
  NoDup (map l_id l) ->
  NoDup (business_keys rows) ->
  stg_listing_incoming timestamptz_in now rows l = inr incoming ->
  one_fact_per_listing incoming.
Proof.
  intros Hl Hk H. unfold one_fact_per_listing.
  rewrite (stg_listing_incoming_ids _ _ _ _ _ H), incoming_join_ids.
  now apply (join_ids_NoDup (fun sc => nullif_btrim (sc_listing_id sc))).
Qed.

(* ------------------------------------------------------------------ *)
(** ** One incoming fact per listing *)




(* ------------------------------------------------------------------ *)
(** ** Descriptions *)

Lemma same_partition_true k r : same_partition k r = true <-> fst r = k.
Proof.
  unfold same_partition. destruct (option_string_dec (fst r) k); split; congruence.
Qed.

Section DescriptionSort.

Variable sort : description_sort.
Hypothesis sort_ok : orders_by_length_desc sort.

Lemma sort_In l y : In y (sort l) <-> In y l.
Proof.
  destruct (sort_ok l) as [Hp _]. split; apply Permutation_in;
    [exact Hp | now apply Permutation_sym].
Qed.

Lemma sort_head l : head_longest (sort l).
Proof.
  destruct (sort_ok l) as [_ Hs]. destruct (sort l) as [|x t]; [exact I|].
  inversion Hs as [|? ? _ Hall]; subst. intros y [<-|Hy]; [lia|].
  rewrite Forall_forall in Hall. now apply Hall.
Qed.

(** Row number 1 of a partition: a row of it, none of which is longer. *)
Lemma first_of_partition l :
  l <> [] ->
  exists x, firstn 1 (sort l) = [x]
            /\ In x l
            /\ forall y, In y l -> (char_length (snd y) <= char_length (snd x))%nat.
Proof.
  intros Hne.
  pose proof (sort_head l) as Hh.
  pose proof (sort_In l) as Hin.
  destruct (sort l) as [|x t].
  - destruct l as [|a l]; [contradiction|].
    destruct (proj2 (Hin a) (or_introl eq_refl)).
  - exists x. split; [reflexivity|]. split; [apply Hin; now left|].
    intros y Hy. apply Hh. now apply Hin.
Qed.

Lemma pick_of_partition src k x :
  In x (firstn 1 (sort (filter (same_partition k) src))) ->
  fst x = k /\ In x src
  /\ forall b, In (k, b) src -> (char_length b <= char_length (snd x))%nat.
Proof.
  intros Hx.
  destruct (filter (same_partition k) src) as [|a l] eqn:E.
  { pose proof (sort_In []) as Hnil.
    destruct (sort []) as [|y t]; [destruct Hx|].
    destruct (proj1 (Hnil y) (or_introl eq_refl)). }
  destruct (first_of_partition (a :: l)) as (x' & E1 & Hin & Hmax); [discriminate|].
  rewrite E1 in Hx. destruct Hx as [<-|[]].
  rewrite <- E in Hin, Hmax. apply filter_In in Hin as [Hin Hk].
  apply same_partition_true in Hk. repeat split; auto.
  intros b Hb. apply (Hmax (k, b)). apply filter_In. split; [exact Hb|].
  now apply same_partition_true.
Qed.

(** Per business key the pick holds exactly one row, a longest one. *)
Lemma description_pick_by_spec src k b0 :
  In (k, b0) src ->
  exists b, In (k, b) (description_pick_by sort src)
            /\ In (k, b) src
            /\ (forall b', In (k, b') src -> (char_length b' <= char_length b)%nat)
            /\ (forall b', In (k, b') (description_pick_by sort src) -> b' = b).
Proof.
  intros H0. unfold description_pick_by.
  assert (Hne : filter (same_partition k) src <> []).
  { intros E. assert (Hin : In (k, b0) (filter (same_partition k) src)); [|now rewrite E in Hin].
    apply filter_In. split; [exact H0 | now apply same_partition_true]. }
  destruct (first_of_partition _ Hne) as (x & E1 & Hin & _).
  assert (Hx : In x (firstn 1 (sort (filter (same_partition k) src))))
    by (rewrite E1; now left).
  destruct (pick_of_partition src k x Hx) as (Hk & Hsrc & Hmax).
  destruct x as [k' b]. simpl in Hk, Hmax. subst k'.
  exists b. repeat split; auto.
  - apply in_flat_map. exists k. split; [|exact Hx].
    apply nodup_In. apply in_map_iff. exists (k, b0). auto.
  - intros b' Hb'. apply in_flat_map in Hb' as (k' & _ & Hb').
    pose proof (pick_of_partition src k' _ Hb') as (Hk' & _ & _).
    simpl in Hk'. subst k'. rewrite E1 in Hb'. destruct Hb' as [E|[]]. congruence.
Qed.

Lemma description_pick_by_incl src x : In x (description_pick_by sort src) -> In x src.
Proof.
  unfold description_pick_by. intros H. apply in_flat_map in H as (k & _ & Hx).
  now apply pick_of_partition in Hx.
Qed.

Lemma description_pick_by_keys src : NoDup (map fst (description_pick_by sort src)).
Proof.
  unfold description_pick_by.
  pose proof (NoDup_nodup option_string_dec (map fst src)) as Hn.
  induction (nodup option_string_dec (map fst src)) as [|k ks IH]; simpl; [constructor|].
  inversion Hn as [|? ? Hk Hks]; subst. rewrite map_app.
  apply NoDup_app.
  - destruct (sort (filter (same_partition k) src)) as [|x t]; simpl;
      repeat constructor; simpl; tauto.
  - now apply IH.
  - intros k' H1 H2.
    apply in_map_iff in H1 as (x & <- & Hx).
    apply pick_of_partition in Hx as (Hx & _).
    apply in_map_iff in H2 as (y & E & Hy).
    apply in_flat_map in Hy as (k'' & Hk'' & Hy).
    apply pick_of_partition in Hy as (Hy & _).
    apply Hk. congruence.
Qed.

Lemma description_candidates_by_In rows l i b :
  In (i, b) (description_candidates_by sort rows l) <->
  exists k r, In (Some k, b) (description_pick_by sort (description_src rows))
              /\ In r l /\ external_listing_id r = k /\ l_id r = i.
Proof.
  unfold description_candidates_by, join. rewrite in_flat_map. split.
  - intros ([k b'] & Hp & Hin). apply in_flat_map in Hin as (r & Hr & Hin).
    apply filter_In in Hr as [Hr Hm]. destruct Hin as [E|[]]. injection E as <- <-.
    simpl in Hm. apply eq_text_some in Hm. subst k.
    exists (external_listing_id r), r. auto.
  - intros (k & r & Hp & Hr & Hk & Hi). exists (Some k, b). split; [exact Hp|].
    apply in_flat_map. exists r. split.
    + apply filter_In. split; [exact Hr|]. simpl. rewrite Hk. apply String.eqb_refl.
    + simpl. left. congruence.
Qed.

Lemma description_candidates_by_ids rows l :
  NoDup (map l_id l) -> NoDup (map fst (description_candidates_by sort rows l)).
Proof.
  intros Hl. unfold description_candidates_by, join.
  assert (E : map fst
            (flat_map (fun p => flat_map (fun r => [(l_id r, snd p)])
                        (filter (fun r => eq_text (external_listing_id r) (fst p)) l))
               (description_pick_by sort (description_src rows)))
          = flat_map (fun p => map l_id
                        (filter (fun r => eq_text (external_listing_id r) (fst p)) l))
              (description_pick_by sort (description_src rows))).
  { induction (description_pick_by sort (description_src rows)) as [|p ps IH]; simpl;
      [reflexivity|].
    rewrite map_app, IH. f_equal.
    induction (filter _ l) as [|r rs IHr]; simpl; [reflexivity|]. now rewrite IHr. }
  rewrite E. apply join_ids_NoDup; [exact Hl|].
  clear E. pose proof (description_pick_by_keys (description_src rows)) as Hk.
  induction (description_pick_by sort (description_src rows)) as [|p ps IH]; simpl;
    [constructor|].
  simpl in Hk. inversion Hk as [|? ? Hn Hks]; subst.
  destruct (fst p) as [k|] eqn:Ep; simpl; [|now apply IH].
  constructor; [|now apply IH].
  intros Hin. apply Hn. now apply in_somes in Hin.
Qed.

End DescriptionSort.

(** The insertion sort meets the clause. *)
Lemma insert_desc_perm r l : Permutation (insert_desc r l) (r :: l).
Proof.
  induction l as [|x t IH]; simpl; [apply Permutation_refl|].
  destruct (char_length (snd x) <=? char_length (snd r))%nat; [apply Permutation_refl|].
  apply Permutation_trans with (x :: r :: t); [now constructor | constructor].
Qed.

Lemma insert_desc_sorted r l :
  StronglySorted (fun x y => (char_length (snd y) <= char_length (snd x))%nat) l ->
  StronglySorted (fun x y => (char_length (snd y) <= char_length (snd x))%nat)
    (insert_desc r l).
Proof.
  induction 1 as [|x t Hs IH Hall]; simpl.
  - repeat constructor.
  - destruct (char_length (snd x) <=? char_length (snd r))%nat eqn:E.
    + apply Nat.leb_le in E. constructor; [now constructor|].
      constructor; [exact E|].
      rewrite Forall_forall in *. intros y Hy. specialize (Hall y Hy). lia.
    + apply Nat.leb_gt in E. constructor; [exact IH|].
      rewrite Forall_forall in *. intros y Hy.
      apply (Permutation_in _ (insert_desc_perm r t)) in Hy.
      destruct Hy as [<-|Hy]; [lia | now apply Hall].
Qed.

Lemma order_by_length_desc_ok : orders_by_length_desc order_by_length_desc.
Proof.
  intros l. unfold order_by_length_desc.
  induction l as [|x t [IHp IHs]]; simpl.
  - split; constructor.
  - split.
    + apply Permutation_trans with (x :: fold_right insert_desc [] t);
        [apply insert_desc_perm | now constructor].
    + now apply insert_desc_sorted.
Qed.

Lemma description_pick_spec src k b0 :
  In (k, b0) src ->
  exists b, In (k, b) (description_pick src)
            /\ In (k, b) src
            /\ (forall b', In (k, b') src -> (char_length b' <= char_length b)%nat)
            /\ (forall b', In (k, b') (description_pick src) -> b' = b).
Proof. exact (description_pick_by_spec _ order_by_length_desc_ok src k b0). Qed.

Lemma description_candidates_In rows l i b :
  In (i, b) (description_candidates rows l) <->
  exists k r, In (Some k, b) (description_pick (description_src rows))
              /\ In r l /\ external_listing_id r = k /\ l_id r = i.
Proof. exact (description_candidates_by_In order_by_length_desc rows l i b). Qed.

Lemma description_candidates_ids rows l :
  NoDup (map l_id l) -> NoDup (map fst (description_candidates rows l)).
Proof. exact (description_candidates_by_ids _ order_by_length_desc_ok rows l). Qed.

Lemma repeated_key_NoDup {A} (cands : list (Z * A)) :
  NoDup (map fst cands) -> repeated_key (fun a b => fst a =? fst b) cands = false.
Proof.
  induction cands as [|c cs IH]; simpl; intros H; [reflexivity|].
  inversion H as [|? ? Hn Hd]; subst. rewrite (IH Hd), orb_false_r.
  destruct (existsb _ cs) eqn:E; [|reflexivity].
  apply existsb_exists in E as (c' & Hc' & E). apply Z.eqb_eq in E.
  exfalso. apply Hn. rewrite E. now apply in_map.
Qed.

Lemma description_one_key (c c' : Z * string) (r : description_row) :
  description_conflict c r = true -> description_conflict c' r = true ->
  same_listing c c' = true.
Proof.
  unfold description_conflict, same_listing. rewrite !Z.eqb_eq. congruence.
Qed.

Lemma description_src_In rows k b :
  In (Some k, b) (description_src rows) <-> described rows k b.
Proof.
  unfold description_src, described. rewrite in_flat_map.
  split; intros (sc & Hsc & H); exists sc.
  - destruct (nullif_btrim (sc_description_fr sc)) as [d|]; [|contradiction].
    destruct H as [E|[]]. injection E as E1 E2. subst. auto.
  - destruct H as (Hk & Hd). rewrite Hd, Hk. split; [exact Hsc | now left].
Qed.

Lemma upsert_descriptions_settled cands tbl :
  NoDup (map fst cands) ->
  exists tbl',
    insert_do_update description_conflict same_listing make_description
      set_description d_listing_id cands tbl = inr tbl'
    /\ forall c, In c cands -> settled description_conflict set_description c tbl'.
Proof.
  intros Hn. unfold insert_do_update.
  pose proof (repeated_key_NoDup cands Hn) as Hrep.
  change (fun a b : Z * string => fst a =? fst b) with same_listing in Hrep.
  rewrite Hrep. eexists. split; [reflexivity|].
  intros c Hc.
  apply (upsert_all_settled description_row (Z * string) description_conflict same_listing
           make_description set_description d_listing_id); auto.
  - intros i c0. unfold description_conflict. simpl. apply Z.eqb_refl.
  - exact description_one_key.
Qed.

(* ------------------------------------------------------------------ *)
(** ** The longest description *)



(** The scenario of the spec on the sample rows: of the bodies "flat" and
    "nice flat" the longer one is stored. *)
Example longer_description_wins :
  option_map listing_description
    (match upsert_descriptions two_descriptions (store duplicate_key_load) with
     | inr db' => Some db'
     | inl _ => None
     end)
  = Some [ {| d_listing_id := 1; lang := "fr"; body := "nice flat" |} ].
Proof. reflexivity. Qed.

(** Length is counted in characters: of three accented letters (six
    bytes) and "abcd" (four bytes) the four letters are stored. *)
Example characters_are_counted :
  char_length three_accents = 3%nat
  /\ String.length three_accents = 6%nat
  /\ option_map listing_description
       (match upsert_descriptions accented_descriptions (store duplicate_key_load) with
        | inr db' => Some db'
        | inl _ => None
        end)
     = Some [ {| d_listing_id := 1; lang := "fr"; body := "abcd" |} ].
Proof. repeat split. Qed.

(* ------------------------------------------------------------------ *)
(** ** What a load leaves for one incoming fact *)

Lemma differs_irrefl_value (a : option numeric) : ~ differs same_value a a.
Proof. destruct a; simpl; [intros H; apply H; reflexivity | tauto]. Qed.

Lemma differs_irrefl_eq (a : option Z) : ~ differs eq a a.
Proof. destruct a; simpl; [intros H; apply H; reflexivity | tauto]. Qed.

Lemma facts_differ_irrefl x : ~ facts_differ x x.
Proof.
  unfold facts_differ.
  pose proof (differs_irrefl_value (price x)). pose proof (differs_irrefl_value (area x)).
  pose proof (differs_irrefl_value (site_area x)).
  pose proof (differs_irrefl_value (terrace_area x)).
  pose proof (differs_irrefl_eq (floor x)). pose proof (differs_irrefl_eq (room_count x)).
  pose proof (differs_irrefl_eq (balcony_count x)).
  pose proof (differs_irrefl_eq (terrace_count x)).
  tauto.
Qed.

(** After a load, the listing of an incoming fact has an open version
    that agrees with the fact, or its open version started after the fact
    and its rows are as they were. *)
Lemma fact_recorded_or_late incoming versions f :
  one_open versions ->
  one_fact_per_listing incoming ->
  In f incoming ->
  (exists v, In v (apply_scd2 incoming versions)
             /\ listing_id v = inc_listing_id f /\ valid_to v = None
             /\ ~ facts_differ (v_facts v) (inc_facts f))
  \/ (exists o, In o versions /\ listing_id o = inc_listing_id f /\ valid_to o = None
                /\ inc_valid_from f < valid_from o
                /\ filter (of_listing (inc_listing_id f)) (apply_scd2 incoming versions)
                   = filter (of_listing (inc_listing_id f)) versions).
Proof.
  intros H1 Hn Hin.
  assert (Hnew : listing_id (new_version f) = inc_listing_id f
                 /\ valid_to (new_version f) = None
                 /\ ~ facts_differ (v_facts (new_version f)) (inc_facts f)).
  { repeat split. apply facts_differ_irrefl. }
  assert (Honly : forall d, In d (stg_delta incoming versions) ->
                            inc_listing_id d = inc_listing_id f -> d = f).
  { intros d Hd El. apply (NoDup_map_inj inc_listing_id incoming); auto.
    now apply (stg_delta_incl incoming versions). }
  destruct (is_delta versions f) eqn:Ed.
  - assert (Hd : In f (stg_delta incoming versions)).
    { rewrite (stg_delta_filter incoming versions H1). apply filter_In. auto. }
    destruct (has_open versions (inc_listing_id f)) eqn:Ho.
    + pose proof Ho as Ho'.
      unfold has_open in Ho. apply existsb_exists in Ho as (o & Ho & Hoo).
      apply andb_prop in Hoo as [Hol Hoo]. apply Z.eqb_eq in Hol.
      destruct (valid_from o <=? inc_valid_from f) eqn:Ele.
      * left. exists (new_version f). split; [|exact Hnew].
        unfold apply_scd2.
        destruct (stg_delta incoming versions) as [|d0 ds] eqn:Edelta; [contradiction|].
        unfold insert_new_versions. apply in_or_app. right.
        apply (reopened (d0 :: ds) versions o f H1 Ho Hd).
        unfold closes. rewrite Hoo, Ele. now rewrite (proj2 (Z.eqb_eq _ _) Hol).
      * right. exists o. apply Z.leb_gt in Ele.
        repeat split; auto; [now apply is_open_none|].
        apply apply_frame. intros d Hd' El. rewrite (Honly d Hd' El).
        split; [exact Ho'|]. intros t Ht Hl Hto.
        assert (t = o) as -> by (apply (open_unique versions t o H1); auto; congruence).
        exact Ele.
    + left. exists (new_version f). split; [|exact Hnew].
      unfold apply_scd2.
      destruct (stg_delta incoming versions) as [|d0 ds] eqn:Edelta; [contradiction|].
      unfold insert_new_versions. apply in_or_app. right.
      apply in_map. apply filter_In. split; [exact Hd|].
      apply negb_true_iff. apply has_open_count.
      apply has_open_count in Ho.
      pose proof (close_open_count (d0 :: ds) versions (inc_listing_id f)). lia.
  - left.
    destruct (has_open versions (inc_listing_id f)) eqn:Ho.
    2:{ exfalso. assert (is_delta versions f = true); [|congruence].
        apply (is_delta_spec versions f H1). now left. }
    unfold has_open in Ho. apply existsb_exists in Ho as (o & Ho & Hoo).
    apply andb_prop in Hoo as [Hol Hoo]. apply Z.eqb_eq in Hol.
    exists o. split; [|split; [exact Hol|split; [now apply is_open_none|]]].
    + assert (Hfr : filter (of_listing (inc_listing_id f)) (apply_scd2 incoming versions)
                    = filter (of_listing (inc_listing_id f)) versions).
      { apply apply_frame. intros d Hd El. exfalso.
        rewrite (Honly d Hd El) in Hd.
        rewrite (stg_delta_filter incoming versions H1) in Hd.
        apply filter_In in Hd as [_ Hd]. congruence. }
      assert (Hof : In o (filter (of_listing (inc_listing_id f)) versions)).
      { apply filter_In. split; [exact Ho|]. unfold of_listing. now apply Z.eqb_eq. }
      rewrite <- Hfr in Hof. now apply filter_In in Hof.
    + intros Hdiff. assert (is_delta versions f = true); [|congruence].
      apply (is_delta_spec versions f H1). right. exists o.
      repeat split; auto. now apply is_open_none.
Qed.

(* ------------------------------------------------------------------ *)
(** ** A malformed field *)

Lemma incoming_join_In rows l sc r :
  In sc rows -> In r l ->
  nullif_btrim (sc_listing_id sc) = Some (external_listing_id r) ->
  In (sc, r) (incoming_join rows l).
Proof.
  intros Hsc Hr Hk. unfold incoming_join. apply in_flat_map. exists sc.
  split; [exact Hsc|]. apply in_map. apply filter_In. split; [exact Hr|].
  rewrite Hk. simpl. apply String.eqb_refl.
Qed.



Lemma span_digits_app ds rest :
  forallb is_digit ds = true ->
  match rest with [] => True | c :: _ => is_digit c = false end ->
  span_digits (ds ++ rest) = (ds, rest).
Proof.
  induction ds as [|d ds IH]; simpl; intros Hd Hr.
  - destruct rest as [|c r]; [reflexivity|]. simpl. now rewrite Hr.
  - apply andb_prop in Hd as [Hd Hds]. now rewrite Hd, (IH Hds Hr).
Qed.

Lemma span_digits_spec l ds rest :
  span_digits l = (ds, rest) ->
  l = ds ++ rest /\ forallb is_digit ds = true
  /\ match rest with [] => True | c :: _ => is_digit c = false end.
Proof.
  revert ds rest. induction l as [|c l IH]; simpl; intros ds rest H.
  - injection H as <- <-. auto.
  - destruct (is_digit c) eqn:Ec.
    + destruct (span_digits l) as [d t]. injection H as <- <-.
      destruct (IH d t eq_refl) as (-> & Hd & Ht). simpl. rewrite Ec. auto.
    + injection H as <- <-. simpl. auto.
Qed.

Lemma decimal_text_split l neg ip fp :
  decimal_text l neg ip fp ->
  split_sign l
  = (neg, ip ++ match fp with [] => [] | _ :: _ => "."%char :: fp end).
Proof.
  intros (Hne & Hip & _ & ->). destruct neg; [reflexivity|].
  destruct ip as [|d ip]; [contradiction|]. simpl in *.
  apply andb_prop in Hip as [Hd _].
  destruct (Ascii.eqb d "-") eqn:E; [|reflexivity].
  apply Ascii.eqb_eq in E. subst d. discriminate.
Qed.

Lemma decimal_text_span l neg ip fp :
  decimal_text l neg ip fp ->
  span_digits (ip ++ match fp with [] => [] | _ :: _ => "."%char :: fp end)
  = (ip, match fp with [] => [] | _ :: _ => "."%char :: fp end).
Proof.
  intros (_ & Hip & _ & _). apply span_digits_app; [exact Hip|].
  destruct fp; [exact I | reflexivity].
Qed.

(** The pattern accepts the decimal literals and nothing else. *)
Lemma decimal_re_spec l :
  decimal_re l = true <-> exists neg ip fp, decimal_text l neg ip fp.
Proof.
  unfold decimal_re. split.
  - intros H.
    assert (Hl : l = (if fst (split_sign l) then ["-"%char] else []) ++ snd (split_sign l)).
    { destruct l as [|c r]; [reflexivity|]. simpl.
      destruct (Ascii.eqb c "-") eqn:E; [|reflexivity].
      apply Ascii.eqb_eq in E. now subst. }
    destruct (split_sign l) as [neg body]. simpl in *.
    destruct (span_digits body) as [ip rest] eqn:Es.
    apply span_digits_spec in Es as (-> & Hip & Hrest).
    destruct ip as [|d ip]; [discriminate|].
    destruct rest as [|c fp0].
    + exists neg, (d :: ip), []. repeat split; auto. discriminate.
    + apply andb_prop in H as [Hc H]. apply Ascii.eqb_eq in Hc. subst c.
      destruct (span_digits fp0) as [fd tl] eqn:Ef.
      apply span_digits_spec in Ef as (-> & Hfd & _).
      destruct fd as [|x fd]; [discriminate|]. destruct tl; [|discriminate].
      rewrite app_nil_r in *.
      exists neg, (d :: ip), (x :: fd). repeat split; auto. discriminate.
  - intros (neg & ip & fp & H).
    rewrite (decimal_text_split _ _ _ _ H). cbn [snd].
    rewrite (decimal_text_span _ _ _ _ H).
    destruct H as (Hne & _ & Hfp & _).
    destruct ip as [|d ip]; [contradiction|].
    destruct fp as [|x fp]; [reflexivity|]. cbn -[span_digits].
    replace (x :: fp) with ((x :: fp) ++ []) by apply app_nil_r.
    rewrite span_digits_app; auto.
Qed.

Lemma digits_value_acc l : forall acc,
  0 <= acc -> 0 <= fold_left (fun a c => 10 * a + digit_value c) l acc
  \/ forallb is_digit l = false.
Proof.
  induction l as [|c l IH]; cbn [fold_left forallb]; intros acc Hacc; [now left|].
  destruct (is_digit c) eqn:Ec; [|now right]. cbn [andb]. apply IH.
  unfold is_digit in Ec. cbv zeta in Ec.
  apply andb_prop in Ec as [E1 _]. apply Nat.leb_le in E1.
  unfold digit_value. lia.
Qed.

Lemma digits_value_nonneg l : forallb is_digit l = true -> 0 <= digits_value l.
Proof.
  intros H. destruct (digits_value_acc l 0 (Z.le_refl 0)) as [Hv|Hf]; [exact Hv|congruence].
Qed.

(** The value that the cast reads off a decimal literal. *)
Lemma numeric_in_spec l neg ip fp :
  decimal_text l neg ip fp ->
  numeric_in l
  = {| unscaled := if neg then - digits_value (ip ++ fp) else digits_value (ip ++ fp);
       dscale := List.length fp |}.
Proof.
  intros H. unfold numeric_in.
  rewrite (decimal_text_split _ _ _ _ H), (decimal_text_span _ _ _ _ H).
  destruct H as (_ & _ & Hfp & _).
  destruct fp as [|x fp]; [reflexivity|].
  assert (Es : span_digits (x :: fp) = (x :: fp, [])).
  { rewrite <- (app_nil_r (x :: fp)) at 1. now apply span_digits_app. }
  rewrite Es. reflexivity.
Qed.



Lemma num_nonneg_decimal s ip fp :
  btrim s <> "" ->
  decimal_text (num_chars_of s) false ip fp ->
  num_nonneg (Some s)
  = Some {| unscaled := digits_value (ip ++ fp); dscale := List.length fp |}.
Proof.
  intros Hb H. simpl. apply String.eqb_neq in Hb. rewrite Hb.
  replace (decimal_re (num_chars_of s)) with true
    by (symmetry; apply decimal_re_spec; eauto).
  rewrite (numeric_in_spec _ _ _ _ H). unfold numeric_nonneg. simpl.
  destruct H as (_ & Hip & Hfp & _).
  replace (0 <=? digits_value (ip ++ fp)) with true; [reflexivity|].
  symmetry. apply Z.leb_le. apply digits_value_nonneg.
  rewrite forallb_app. now rewrite Hip, Hfp.
Qed.

Lemma incoming_of_total timestamptz_in now sc r :
  casts timestamptz_in sc -> exists f, incoming_of timestamptz_in now (sc, r) = inr f.
Proof.
  intros ((c & Ec & Hs) & (fl & Ef) & (v1 & E1) & (v2 & E2) & (v3 & E3)).
  unfold incoming_of. rewrite Ec, Ef, E1, E2, E3. cbn [bind].
  destruct c as [t|]; cbn [bind ok]; [eauto|].
  destruct (Hs eq_refl) as (s & ->). cbn [bind ok]. eauto.
Qed.

Lemma mapM_total {A B} (f : A -> result B) (l : list A) :
  (forall a, In a l -> exists b, f a = inr b) -> exists l', mapM f l = inr l'.
Proof.
  induction l as [|a l IH]; simpl; intros H; [eauto|].
  destruct (H a (or_introl eq_refl)) as (b & ->).
  destruct IH as (l' & ->); [intros; apply H; now right|].
  cbn [bind]. eauto.
Qed.

Lemma stg_listing_incoming_total timestamptz_in now rows l :
  (forall sc, In sc rows -> casts timestamptz_in sc) ->
  exists incoming, stg_listing_incoming timestamptz_in now rows l = inr incoming.
Proof.
  intros H. apply mapM_total. intros [sc r] Hin.
  apply incoming_of_total. apply H.
  unfold incoming_join in Hin. apply in_flat_map in Hin as (sc' & Hsc' & Hin).
  apply in_map_iff in Hin as (r' & E & _). now injection E as -> _.
Qed.






(* ------------------------------------------------------------------ *)
(** ** Loading the same batch again: dimensions *)

Lemma dim_conflict_make i c : dim_conflict c (make_dim i c) = true.
Proof. unfold dim_conflict. simpl. apply String.eqb_refl. Qed.

Lemma subtype_conflict_make i c : subtype_conflict c (make_subtype i c) = true.
Proof. unfold subtype_conflict. simpl. now rewrite Z.eqb_refl, String.eqb_refl. Qed.

Lemma location_conflict_make i c : location_conflict c (make_location i c) = true.
Proof. unfold location_conflict. simpl. now rewrite !Z.eqb_refl. Qed.

Lemma insert_codes_twice cands tbl :
  insert_codes cands (insert_codes cands tbl) = insert_codes cands tbl.
Proof. apply insert_do_nothing_twice. exact dim_conflict_make. Qed.

Lemma upsert_dimensions_again rows db0 db :
  transaction_type db = transaction_type (upsert_dimensions rows db0) ->
  item_type db = item_type (upsert_dimensions rows db0) ->
  item_subtype db = item_subtype (upsert_dimensions rows db0) ->
  upsert_dimensions rows db = db.
Proof.
  destruct db as [tt it st c z loc l d v].
  unfold upsert_dimensions.
  cbn [city zipcode location transaction_type item_type item_subtype
       listing listing_description listing_version].
  intros -> -> ->.
  rewrite !insert_codes_twice.
  rewrite insert_do_nothing_twice by exact subtype_conflict_make.
  reflexivity.
Qed.

Lemma insert_all_codes cands : forall tbl c,
  In c (map code (insert_all make_dim dim_id cands tbl)) <-> In c (map code tbl) \/ In c cands.
Proof.
  unfold insert_all.
  induction cands as [|c0 cs IH]; intros tbl c; simpl; [tauto|].
  rewrite IH, map_app, in_app_iff. simpl. intuition (subst; auto).
Qed.

Lemma somes_all_none {A} (l : list (option A)) :
  (forall x, In x l -> x = None) -> somes l = [].
Proof.
  induction l as [|[a|] l IH]; simpl; intros H; auto.
  - discriminate (H (Some a) (or_introl eq_refl)).
Qed.

(** Once the cities of the batch are in the table, none of them is new. *)
Lemma new_cities_again rows c :
  new_cities rows (insert_all make_dim dim_id (new_cities rows c) c) = [].
Proof.
  set (c1 := insert_all make_dim dim_id (new_cities rows c) c).
  unfold new_cities at 1. rewrite somes_all_none; [reflexivity|].
  intros x Hx. apply in_map_iff in Hx as (sc & <- & Hsc).
  destruct (nullif_btrim (sc_city sc)) as [n|] eqn:En; [|reflexivity].
  replace (existsb (dim_conflict n) c1) with true; [reflexivity|].
  symmetry. apply dim_conflict_code. unfold c1. apply insert_all_codes.
  destruct (existsb (dim_conflict n) c) eqn:E.
  - left. now apply dim_conflict_code.
  - right. unfold new_cities. apply nodup_In, in_somes, in_map_iff.
    exists sc. rewrite En, E. auto.
Qed.

Lemma insert_all_nil {R C} (make : Z -> C -> R) (pk : R -> Z) (tbl : list R) :
  insert_all make pk [] tbl = tbl.
Proof. reflexivity. Qed.

Lemma upsert_locations_again rows db0 db :
  city db = city (upsert_cities_zipcodes_locations rows db0) ->
  zipcode db = zipcode (upsert_cities_zipcodes_locations rows db0) ->
  location db = location (upsert_cities_zipcodes_locations rows db0) ->
  upsert_cities_zipcodes_locations rows db = db.
Proof.
  destruct db as [tt it st c z loc l d v].
  unfold upsert_cities_zipcodes_locations.
  cbn [city zipcode location transaction_type item_type item_subtype
       listing listing_description listing_version].
  intros -> -> ->.
  rewrite !new_cities_again, !insert_all_nil.
  unfold upsert_zipcodes. rewrite insert_codes_twice.
  rewrite insert_do_nothing_twice by exact location_conflict_make.
  reflexivity.
Qed.

(* ------------------------------------------------------------------ *)
(** ** Loading the same batch again: listings and descriptions *)

Lemma listing_one_key (c c' : string * listing_attrs) (r : listing_row) :
  listing_conflict c r = true -> listing_conflict c' r = true -> same_fst c c' = true.
Proof.
  unfold listing_conflict, same_fst. rewrite !String.eqb_eq. congruence.
Qed.

Lemma listing_conflict_make i (c : string * listing_attrs) :
  listing_conflict c (make_listing i c) = true.
Proof. unfold listing_conflict. simpl. apply String.eqb_refl. Qed.

Lemma upsert_listings_again rows db2 db3 db :
  upsert_listings rows db2 = inr db3 ->
  transaction_type db = transaction_type db2 ->
  item_type db = item_type db2 ->
  item_subtype db = item_subtype db2 ->
  city db = city db2 ->
  zipcode db = zipcode db2 ->
  location db = location db2 ->
  listing db = listing db3 ->
  upsert_listings rows db = inr db.
Proof.
  destruct db as [tt it st c z loc l d v].
  cbn [city zipcode location transaction_type item_type item_subtype
       listing listing_description listing_version].
  intros H -> -> -> -> -> -> ->.
  unfold upsert_listings, resolve in *.
  cbn [city zipcode location transaction_type item_type item_subtype
       listing listing_description listing_version].
  destruct (mapM proposed_listing _) as [e|cands]; [discriminate|].
  cbn [bind] in *.
  destruct (insert_do_update _ _ _ _ _ cands (listing db2)) as [e|l3] eqn:E; [discriminate|].
  injection H as <-. cbn [listing].
  rewrite (insert_do_update_twice _ _ listing_conflict same_fst make_listing set_listing l_id
             listing_conflict_make (fun _ _ _ => eq_refl) listing_one_key
             (fun _ _ => eq_refl) (fun _ _ => eq_refl) cands (listing db2) l3 E).
  reflexivity.
Qed.

Lemma upsert_listings_tables rows db db' :
  upsert_listings rows db = inr db' ->
  transaction_type db' = transaction_type db
  /\ item_type db' = item_type db
  /\ item_subtype db' = item_subtype db
  /\ city db' = city db
  /\ zipcode db' = zipcode db
  /\ location db' = location db
  /\ listing_description db' = listing_description db
  /\ listing_version db' = listing_version db
  /\ (NoDup (map l_id (listing db)) -> NoDup (map l_id (listing db'))).
Proof.
  unfold upsert_listings. intros H.
  destruct (mapM proposed_listing _) as [e|cands]; [discriminate|].
  cbn [bind] in H. unfold insert_do_update in H.
  destruct (repeated_key same_fst cands); [discriminate|].
  cbn [bind ok] in H. injection H as <-. repeat split.
  cbn [listing]. intros Hn.
  apply (upsert_all_pks _ _ listing_conflict make_listing set_listing l_id
           (fun _ _ => eq_refl) (fun _ _ => eq_refl)); exact Hn.
Qed.

Lemma upsert_descriptions_again rows db3 db4 db :
  upsert_descriptions rows db3 = inr db4 ->
  listing db = listing db3 ->
  listing_description db = listing_description db4 ->
  upsert_descriptions rows db = inr db.
Proof.
  destruct db as [tt it st c z loc l d v].
  cbn [city zipcode location transaction_type item_type item_subtype
       listing listing_description listing_version].
  intros H -> ->.
  unfold upsert_descriptions, upsert_descriptions_by in *.
  cbn [city zipcode location transaction_type item_type item_subtype
       listing listing_description listing_version].
  destruct (insert_do_update _ _ _ _ _ _ (listing_description db3)) as [e|d4] eqn:E;
    [discriminate|].
  cbn [bind] in H. injection H as <-. cbn [listing_description].
  rewrite (insert_do_update_twice _ _ description_conflict same_listing make_description
             set_description d_listing_id
             (fun i c => Z.eqb_refl (fst c)) (fun _ _ _ => eq_refl) description_one_key
             (fun _ _ => eq_refl) (fun _ _ => eq_refl) _ (listing_description db3) d4 E).
  reflexivity.
Qed.

Lemma upsert_descriptions_tables rows db db' :
  upsert_descriptions rows db = inr db' ->
  transaction_type db' = transaction_type db
  /\ item_type db' = item_type db
  /\ item_subtype db' = item_subtype db
  /\ city db' = city db
  /\ zipcode db' = zipcode db
  /\ location db' = location db
  /\ listing db' = listing db
  /\ listing_version db' = listing_version db.
Proof.
  unfold upsert_descriptions, upsert_descriptions_by. intros H.
  destruct (insert_do_update _ _ _ _ _ _ _) as [e|d4]; [discriminate|].
  cbn [bind] in H. injection H as <-. repeat split.
Qed.

(* ------------------------------------------------------------------ *)
(** ** Loading the same batch again: versions *)

Lemma Forall2_from_right {A B} (R : A -> B -> Prop) (l1 : list A) (l2 : list B) (b : B) :
  Forall2 R l1 l2 -> In b l2 -> exists a, In a l1 /\ R a b.
Proof.
  induction 1 as [|x y l1 l2 Hxy _ IH]; simpl; [contradiction|].
  intros [<-|Hb]; [exists x; auto|].
  destruct (IH Hb) as (a & Ha & Hab). exists a. auto.
Qed.

Lemma mapM_Forall2_in {A B} (f g : A -> result B) (R : B -> B -> Prop) (l : list A) :
  (forall a b, In a l -> f a = inr b -> exists b', g a = inr b' /\ R b b') ->
  forall l1, mapM f l = inr l1 ->
  exists l2, mapM g l = inr l2 /\ Forall2 R l1 l2.
Proof.
  induction l as [|a l IH]; simpl; intros Hfg l1 H.
  - injection H as <-. exists []. split; [reflexivity | constructor].
  - unfold bind in H. destruct (f a) as [e|b] eqn:Ea; [discriminate|].
    destruct (mapM f l) as [e|bs]; [discriminate|]. injection H as <-.
    destruct (Hfg a b (or_introl eq_refl) Ea) as (b' & -> & Hb).
    destruct (IH (fun a0 b0 Hin => Hfg a0 b0 (or_intror Hin)) bs eq_refl) as (l2 & -> & Hl).
    exists (b' :: l2). split; [reflexivity | now constructor].
Qed.

Lemma ts_or_null_alike (tz1 tz2 : timestamptz_parser) (s : option string) :
  (forall t, s = Some t -> tz2 t = tz1 t) ->
  ts_or_null tz2 s = ts_or_null tz1 s.
Proof.
  intros H. destruct s as [t|]; [|reflexivity]. simpl.
  now rewrite (H t eq_refl).
Qed.

Lemma incoming_of_later tz1 tz2 now1 now2 sc r f1 :
  (forall s, sc_change_date sc = Some s \/ sc_start_date sc = Some s -> tz2 s = tz1 s) ->
  incoming_of tz1 now1 (sc, r) = inr f1 ->
  exists f2, incoming_of tz2 now2 (sc, r) = inr f2 /\ same_fact_later now1 now2 f1 f2.
Proof.
  intros Hs. unfold incoming_of.
  rewrite (ts_or_null_alike tz1 tz2 (sc_change_date sc)) by (intros t Et; apply Hs; now left).
  rewrite (ts_or_null_alike tz1 tz2 (sc_start_date sc)) by (intros t Et; apply Hs; now right).
  intros H.
  destruct (ts_or_null tz1 (sc_change_date sc)) as [e|[c|]]; [discriminate| |];
    cbn [bind ok] in *.
  - bind_inv H. injection H as <-.
    eexists. split; [reflexivity|]. unfold same_fact_later. simpl. repeat split; auto.
  - destruct (ts_or_null tz1 (sc_start_date sc)) as [e|[s|]]; [discriminate| |];
      cbn [bind ok] in *; bind_inv H; injection H as <-;
      (eexists; split; [reflexivity|]); unfold same_fact_later; simpl; repeat split; auto.
Qed.

Lemma incoming_join_row rows l sc r : In (sc, r) (incoming_join rows l) -> In sc rows.
Proof.
  unfold incoming_join. intros Hin. apply in_flat_map in Hin as (sc' & Hsc' & Hin).
  apply in_map_iff in Hin as (r' & E & _). now injection E as -> _.
Qed.

(** A load whose delta rows are all out of order is the identity. *)
Lemma apply_nothing incoming versions :
  (forall d, In d (stg_delta incoming versions) ->
     has_open versions (inc_listing_id d) = true
     /\ forall t, In t versions -> listing_id t = inc_listing_id d -> is_open t = true ->
          inc_valid_from d < valid_from t) ->
  apply_scd2 incoming versions = versions.
Proof.
  intros H. unfold apply_scd2.
  destruct (stg_delta incoming versions) as [|d0 ds] eqn:Ed; [reflexivity|].
  set (delta := d0 :: ds) in *.
  assert (Hfix : close_open_versions delta versions = versions).
  { unfold close_open_versions. rewrite <- (map_id versions) at 2.
    apply map_ext_in. intros t Ht.
    destruct (close_version_cases delta t) as [E|(d & Hd & Hc & _)]; [exact E|].
    unfold closes in Hc.
    apply andb_prop in Hc as [Hc Hle]. apply andb_prop in Hc as [Hid Ho].
    apply Z.eqb_eq in Hid. apply Z.leb_le in Hle.
    destruct (H d Hd) as [_ Hlt]. specialize (Hlt t Ht Hid Ho). lia. }
  unfold insert_new_versions. rewrite Hfix.
  rewrite (filter_none _ delta); [apply app_nil_r|].
  intros d Hd. destruct (H d Hd) as [Ho _]. now rewrite Ho.
Qed.

Lemma apply_scd2_again now1 now2 incoming1 incoming2 versions :
  one_open versions ->
  one_fact_per_listing incoming1 ->
  Forall2 (same_fact_later now1 now2) incoming1 incoming2 ->
  (forall o, In o versions -> valid_to o = None -> valid_from o <= now1) ->
  apply_scd2 incoming2 (apply_scd2 incoming1 versions) = apply_scd2 incoming1 versions.
Proof.
  intros H1 Hn Hrel Hclock.
  pose proof (apply_one_open incoming1 versions H1 Hn) as H1'.
  apply apply_nothing. intros d2 Hd2.
  pose proof (stg_delta_incl _ _ _ Hd2) as Hin2.
  destruct (Forall2_from_right _ _ _ d2 Hrel Hin2) as (d1 & Hin1 & Hid & Hfacts & _ & Hvf).
  rewrite (stg_delta_filter _ _ H1') in Hd2. apply filter_In in Hd2 as [_ Hd2].
  apply (is_delta_spec _ d2 H1') in Hd2. rewrite Hid, Hfacts in *.
  destruct (fact_recorded_or_late incoming1 versions d1 H1 Hn Hin1)
    as [(v & Hv & Hl & Ho & Hsame)|(o & Ho & Hl & Hoo & Hlt & Hfr)].
  - exfalso. destruct Hd2 as [Hno|(cur & Hc & Hcl & Hco & Hdiff)].
    + unfold has_open in Hno.
      assert (Hex : existsb (fun t => (listing_id t =? inc_listing_id d1) && is_open t)
                      (apply_scd2 incoming1 versions) = true); [|congruence].
      apply existsb_exists. exists v. split; [exact Hv|].
      rewrite (proj2 (is_open_none v) Ho). now rewrite (proj2 (Z.eqb_eq _ _) Hl).
    + assert (cur = v); [|subst; contradiction].
      apply (open_unique _ cur v H1'); auto; try congruence; now apply is_open_none.
  - assert (Hof : forall t, In t (apply_scd2 incoming1 versions) ->
                    listing_id t = inc_listing_id d1 -> In t versions).
    { intros t Ht Htl.
      assert (In t (filter (of_listing (inc_listing_id d1)) (apply_scd2 incoming1 versions))).
      { apply filter_In. split; [exact Ht|]. unfold of_listing. now apply Z.eqb_eq. }
      rewrite Hfr in H. now apply filter_In in H. }
    split.
    + unfold has_open. apply existsb_exists. exists o. split.
      * assert (In o (filter (of_listing (inc_listing_id d1)) versions)).
        { apply filter_In. split; [exact Ho|]. unfold of_listing. now apply Z.eqb_eq. }
        rewrite <- Hfr in H. now apply filter_In in H.
      * rewrite (proj2 (is_open_none o) Hoo). now rewrite (proj2 (Z.eqb_eq _ _) Hl).
    + intros t Ht Htl Hto.
      assert (t = o) as ->.
      { apply (open_unique versions t o H1); auto; try congruence.
        now apply is_open_none. }
      destruct Hvf as [->|[E1 ->]]; [exact Hlt|].
      specialize (Hclock o Ho Hoo). lia.
Qed.

Lemma scd2_step_again tz1 tz2 now1 now2 rows db4 db5 db :
  build_incoming_and_apply_scd2 tz1 now1 rows db4 = inr db5 ->
  store_ok db4 ->
  NoDup (business_keys rows) ->
  (forall o, In o (listing_version db4) -> valid_to o = None -> valid_from o <= now1) ->
  read_alike tz1 tz2 rows ->
  listing db = listing db4 ->
  listing_version db = listing_version db5 ->
  build_incoming_and_apply_scd2 tz2 now2 rows db = inr db.
Proof.
  destruct db as [tt it st c z loc l d v].
  cbn [city zipcode location transaction_type item_type item_subtype
       listing listing_description listing_version].
  intros H [Hl H1] Hk Hclock Halike -> ->.
  unfold build_incoming_and_apply_scd2 in *.
  cbn [city zipcode location transaction_type item_type item_subtype
       listing listing_description listing_version].
  destruct (stg_listing_incoming tz1 now1 rows (listing db4))
    as [e|incoming1] eqn:E1; [discriminate|].
  cbn [bind ok] in H. injection H as <-. cbn [listing_version].
  unfold stg_listing_incoming in E1.
  destruct (mapM_Forall2_in (incoming_of tz1 now1) (incoming_of tz2 now2)
              (same_fact_later now1 now2) (incoming_join rows (listing db4)))
    with (l1 := incoming1) as (incoming2 & E2 & Hrel); [|exact E1|].
  { intros [sc r] f1 Hin Ef. apply (incoming_of_later tz1 tz2 now1 now2 sc r f1); [|exact Ef].
    intros s Hs. apply (Halike sc s); [|exact Hs].
    now apply (incoming_join_row rows (listing db4) sc r). }
  unfold stg_listing_incoming. rewrite E2. cbn [bind ok].
  rewrite (apply_scd2_again now1 now2 incoming1 incoming2 (listing_version db4)); auto.
  now apply (stg_listing_incoming_one_fact tz1 now1 rows (listing db4)).
Qed.

Lemma scd2_step_tables timestamptz_in now rows db db' :
  build_incoming_and_apply_scd2 timestamptz_in now rows db = inr db' ->
  transaction_type db' = transaction_type db
  /\ item_type db' = item_type db
  /\ item_subtype db' = item_subtype db
  /\ city db' = city db
  /\ zipcode db' = zipcode db
  /\ location db' = location db
  /\ listing db' = listing db
  /\ listing_description db' = listing_description db
  /\ (store_ok db -> NoDup (business_keys rows) -> store_ok db').
Proof.
  unfold build_incoming_and_apply_scd2. intros H.
  destruct (stg_listing_incoming _ _ _ _) as [e|incoming] eqn:E; [discriminate|].
  cbn [bind ok] in H. injection H as <-. repeat split; cbn [listing listing_version].
  - apply H.
  - destruct H as [Hl H1]. apply apply_one_open; [exact H1|].
    now apply (stg_listing_incoming_one_fact timestamptz_in now rows (listing db)).
Qed.

(* ------------------------------------------------------------------ *)
(** ** Loading the same batch again: the unit of work *)

Lemma load_unit_inv timestamptz_in now f hc h db j db5 :
  load_unit timestamptz_in now f hc h db = (j, inr db5) ->
  exists rows db3 db4,
    copy_csv_into_staging f hc h = inr rows
    /\ upsert_listings rows
         (upsert_cities_zipcodes_locations rows (upsert_dimensions rows db)) = inr db3
    /\ upsert_descriptions rows db3 = inr db4
    /\ build_incoming_and_apply_scd2 timestamptz_in now rows db4 = inr db5.
Proof.
  unfold load_unit, logged, ok. intros H.
  destruct (copy_csv_into_staging f hc h) as [e|rows]; [inversion H|].
  destruct (upsert_listings rows _) as [e|db3] eqn:E3; [inversion H|].
  destruct (upsert_descriptions rows db3) as [e|db4] eqn:E4; [inversion H|].
  destruct (build_incoming_and_apply_scd2 timestamptz_in now rows db4) as [e|db5'] eqn:E5;
    inversion H; subst.
  exists rows, db3, db4. auto.
Qed.

Lemma load_unit_again timestamptz_in now f hc h db rows :
  copy_csv_into_staging f hc h = inr rows ->
  upsert_dimensions rows db = db ->
  upsert_cities_zipcodes_locations rows db = db ->
  upsert_listings rows db = inr db ->
  upsert_descriptions rows db = inr db ->
  build_incoming_and_apply_scd2 timestamptz_in now rows db = inr db ->
  snd (load_unit timestamptz_in now f hc h db) = inr db.
Proof.
  intros E0 E1 E2 E3 E4 E5. unfold load_unit, logged, ok.
  rewrite E0, E1, E2, E3, E4, E5. reflexivity.
Qed.

Lemma copy_staged_rows f h rows :
  assert_expected_headers (read_csv_header f) = inr h ->
  copy_csv_into_staging f (read_csv_header f) h = inr rows ->
  rows = staged_rows f.
Proof.
  unfold staged_rows, copy_csv_into_staging. intros -> H.
  destruct (forallb _ _); [|discriminate]. now injection H as <-.
Qed.

(** A unit of work that ran to its end has left the store so that running
    it again on the same file, at any reading of the clock, only re-states
    what is there. *)
Lemma load_unit_twice tz1 tz2 now1 now2 f h db j db5 :
  store_ok db ->
  NoDup (business_keys (staged_rows f)) ->
  (forall o, In o (listing_version db) -> valid_to o = None -> valid_from o <= now1) ->
  read_alike tz1 tz2 (staged_rows f) ->
  assert_expected_headers (read_csv_header f) = inr h ->
  load_unit tz1 now1 f (read_csv_header f) h db = (j, inr db5) ->
  snd (load_unit tz2 now2 f (read_csv_header f) h db5) = inr db5.
Proof.
  intros [Hl H1] Hk Hclock Halike Eh H.
  destruct (load_unit_inv _ _ _ _ _ _ _ _ H) as (rows & db3 & db4 & E0 & E3 & E4 & E5).
  rewrite <- (copy_staged_rows f h rows Eh E0) in Hk, Halike.
  remember (upsert_dimensions rows db) as db1 eqn:D1.
  remember (upsert_cities_zipcodes_locations rows db1) as db2 eqn:D2.
  assert (T1 : listing db1 = listing db /\ listing_version db1 = listing_version db)
    by (subst db1; split; reflexivity).
  assert (T2 : transaction_type db2 = transaction_type db1
               /\ item_type db2 = item_type db1
               /\ item_subtype db2 = item_subtype db1
               /\ listing db2 = listing db1
               /\ listing_version db2 = listing_version db1)
    by (subst db2; repeat split; reflexivity).
  destruct T1 as (T1g & T1h). destruct T2 as (T2a & T2b & T2c & T2g & T2h).
  destruct (upsert_listings_tables _ _ _ E3)
    as (T3a & T3b & T3c & T3d & T3e & T3f & T3g & T3h & T3n).
  destruct (upsert_descriptions_tables _ _ _ E4)
    as (T4a & T4b & T4c & T4d & T4e & T4f & T4g & T4h).
  assert (Hok4 : store_ok db4).
  { split.
    - rewrite T4g. apply T3n. rewrite T2g, T1g. exact Hl.
    - rewrite T4h, T3h, T2h, T1h. exact H1. }
  destruct (scd2_step_tables _ _ _ _ _ E5)
    as (T5a & T5b & T5c & T5d & T5e & T5f & T5g & T5h & T5n).
  apply (load_unit_again _ _ _ _ _ _ rows E0).
  - apply (upsert_dimensions_again rows db); rewrite <- D1; congruence.
  - apply (upsert_locations_again rows db1); rewrite <- D2; congruence.
  - apply (upsert_listings_again rows db2 db3); congruence.
  - apply (upsert_descriptions_again rows db3 db4); congruence.
  - apply (scd2_step_again tz1 tz2 now1 now2 rows db4 db5); auto.
    intros o Ho. apply Hclock. rewrite T4h, T3h, T2h, T1h in Ho. exact Ho.
Qed.

(** A unit of work that ran to its end keeps what the loader relies on. *)
Lemma load_unit_store_ok timestamptz_in now f h db j db5 :
  store_ok db ->
  NoDup (business_keys (staged_rows f)) ->
  assert_expected_headers (read_csv_header f) = inr h ->
  load_unit timestamptz_in now f (read_csv_header f) h db = (j, inr db5) ->
  store_ok db5.
Proof.
  intros [Hl H1] Hk Eh H.
  destruct (load_unit_inv _ _ _ _ _ _ _ _ H) as (rows & db3 & db4 & E0 & E3 & E4 & E5).
  rewrite <- (copy_staged_rows f h rows Eh E0) in Hk.
  destruct (upsert_listings_tables _ _ _ E3) as (_ & _ & _ & _ & _ & _ & _ & T3h & T3n).
  destruct (upsert_descriptions_tables _ _ _ E4) as (_ & _ & _ & _ & _ & _ & T4g & T4h).
  destruct (scd2_step_tables _ _ _ _ _ E5) as (_ & _ & _ & _ & _ & _ & _ & _ & T5n).
  apply T5n; [|exact Hk]. split.
  - rewrite T4g. apply T3n. exact Hl.
  - rewrite T4h, T3h. exact H1.
Qed.

Lemma completed_load_store_ok timestamptz_in now f db :
  store_ok db ->
  NoDup (business_keys (staged_rows f)) ->
  raised (run_pipeline timestamptz_in now f db) = None ->
  store_ok (store (run_pipeline timestamptz_in now f db)).
Proof.
  intros Hok Hk. unfold run_pipeline.
  destruct (assert_expected_headers (read_csv_header f)) as [e|h] eqn:Eh; [discriminate|].
  destruct (load_unit timestamptz_in now f (read_csv_header f) h db) as [j [e|db5]] eqn:E;
    [discriminate|].
  intros _. cbn [store]. exact (load_unit_store_ok _ _ _ _ _ _ _ Hok Hk Eh E).
Qed.

Lemma store_ok_empty : store_ok empty_database.
Proof.
  split; [constructor|]. intros lid. unfold open_count. simpl. lia.
Qed.

Lemma single_key_batch_keys : NoDup (business_keys (staged_rows single_key_batch)).
Proof. vm_compute. repeat constructor. simpl. tauto. Qed.

(* ------------------------------------------------------------------ *)
(** ** Idempotence *)

(** C2, as amended.  Take a load that completes on a store with unique
    listing ids and at most one open version per listing, from a batch in
    which no two rows carry the same trimmed business key, no open
    version of the store starting after the clock reading of that load.
    Load the same batch again, at any clock reading, in a transaction
    that reads the date texts of the batch as the first did (which a text
    relative to the clock, such as 'now', 'today' or 'yesterday', need not
    be).  Then the header check passes again, the transaction of the
    second run raises nothing and hands back the store it was given, and
    the second run leaves the store as the first load left it: no
    version is inserted, none is closed, and dimensions, locations,
    listings and descriptions are unchanged. *)
Theorem second_load_changes_nothing (tz1 tz2 : timestamptz_parser)
    (now1 now2 : Z) (f : csv_file) (db : database) :
  store_ok db ->
  NoDup (business_keys (staged_rows f)) ->
  (forall o, In o (listing_version db) -> valid_to o = None -> valid_from o <= now1) ->
  read_alike tz1 tz2 (staged_rows f) ->
  raised (run_pipeline tz1 now1 f db) = None ->
  exists h,
    assert_expected_headers (read_csv_header f) = inr h
    /\ snd (load_unit tz2 now2 f (read_csv_header f) h
              (store (run_pipeline tz1 now1 f db)))
       = inr (store (run_pipeline tz1 now1 f db))
    /\ store (run_pipeline tz2 now2 f (store (run_pipeline tz1 now1 f db)))
       = store (run_pipeline tz1 now1 f db).
Proof.
  intros Hok Hk Hclock Halike. unfold run_pipeline.
  destruct (assert_expected_headers (read_csv_header f)) as [e|h] eqn:Eh; [discriminate|].
  destruct (load_unit tz1 now1 f (read_csv_header f) h db) as [j [e|db5]] eqn:E;
    [discriminate|].
  intros _. cbn [store].
  pose proof (load_unit_twice tz1 tz2 now1 now2 _ _ _ _ _ Hok Hk Hclock Halike Eh E) as E2.
  exists h. split; [reflexivity|]. split; [exact E2|].
  destruct (load_unit tz2 now2 f (read_csv_header f) h db5) as [j2 r2].
  simpl in E2. subst r2. reflexivity.
Qed.

Lemma dated_batch_keys : NoDup (business_keys (staged_rows dated_batch)).
Proof. vm_compute. repeat constructor. simpl. tauto. Qed.

Lemma dated_batch_read_alike :
  read_alike iso_date_in iso_date_in (staged_rows dated_batch).
Proof. intros sc s _ _. reflexivity. Qed.

Lemma second_load_changes_nothing_witness :
  raised early_load = None
  /\ map (fun v => (valid_from v, valid_to v)) (listing_version (store early_load))
     = [(day "2024-01-02", None)]
  /\ exists h,
       assert_expected_headers (read_csv_header dated_batch) = inr h
       /\ snd (load_unit iso_date_in (day "2024-01-05") dated_batch
                 (read_csv_header dated_batch) h (store early_load))
          = inr (store early_load)
       /\ store (run_pipeline iso_date_in (day "2024-01-05") dated_batch (store early_load))
          = store early_load.
Proof.
  split; [reflexivity|]. split; [reflexivity|].
  apply (second_load_changes_nothing iso_date_in iso_date_in
           (day "2024-01-01") (day "2024-01-05") dated_batch empty_database).
  - exact store_ok_empty.
  - exact dated_batch_keys.
  - intros o [].
  - exact dated_batch_read_alike.
  - reflexivity.
Defined.

Lemma undated_batch_keys : NoDup (business_keys (staged_rows undated_batch)).
Proof. vm_compute. repeat constructor. simpl. tauto. Qed.

(** C2 as stated fails.  The store holds one open version of listing
    A-100 that starts on 2 January.  A batch with a new price and no
    dates is loaded on 1 January: its fact, dated by NOW(), is out of
    order and nothing is written.  The identical batch loaded again on
    3 January closes the open version and inserts a new one. *)
Lemma late_fact_recorded_on_reload :
  store_ok (store early_load)
  /\ NoDup (business_keys (staged_rows undated_batch))
  /\ map (fun v => (valid_from v, valid_to v)) (listing_version (store early_load))
     = [(day "2024-01-02", None)]
  /\ raised undated_load = None
  /\ listing_version (store undated_load) = listing_version (store early_load)
  /\ raised undated_reload = None
  /\ map (fun v => (valid_from v, valid_to v)) (listing_version (store undated_reload))
     = [(day "2024-01-02", Some (day "2024-01-03")); (day "2024-01-03", None)].
Proof.
  split.
  { apply completed_load_store_ok;
      [exact store_ok_empty | exact dated_batch_keys | reflexivity]. }
  split; [exact undated_batch_keys|].
  repeat split.
Qed.

(** Why the batch must not repeat a business key: the second load of
    [duplicate_key_batch] closes the two open versions that the first
    load left and inserts two more.  Each of the two old versions is
    joined by a delta row, so both are closed whichever delta row the
    UPDATE takes for the first of them. *)
Lemma duplicate_key_second_load_rewrites_history :
  raised duplicate_key_load = None
  /\ raised duplicate_key_reload = None
  /\ map (fun v => (valid_from v, is_open v)) (listing_version (store duplicate_key_load))
     = [(day "2024-01-01", true); (day "2024-02-01", true)]
  /\ map (fun v => (valid_from v, is_open v)) (listing_version (store duplicate_key_reload))
     = [(day "2024-01-01", false); (day "2024-02-01", false);
        (day "2024-01-01", true); (day "2024-02-01", true)].
Proof. repeat split. Qed.

(* ------------------------------------------------------------------ *)
(** ** Current-version uniqueness *)

(** C1, as amended.  If no listing has two open versions and the batch
    brings at most one incoming fact per listing, then no listing has two
    open versions after the closing UPDATE, after the guarded INSERT that
    follows it, and after the same batch is applied once more.  So a load
    that completes on a store with unique listing ids and at most one open
    version per listing, from a batch in which no two rows carry the same
    trimmed business key, leaves at most one open version per listing. *)
Theorem at_most_one_open_version :
  (forall incoming versions,
     one_open versions ->
     one_fact_per_listing incoming ->
     one_open (close_open_versions (stg_delta incoming versions) versions)
     /\ one_open (apply_scd2 incoming versions)
     /\ one_open (apply_scd2 incoming (apply_scd2 incoming versions)))
  /\ (forall timestamptz_in now f db,
        store_ok db ->
        NoDup (business_keys (staged_rows f)) ->
        raised (run_pipeline timestamptz_in now f db) = None ->
        one_open (listing_version (store (run_pipeline timestamptz_in now f db)))).
Proof.
  split.
  - intros incoming versions H1 Hn. split; [|split].
    + now apply close_one_open.
    + now apply apply_one_open.
    + apply apply_one_open; [|exact Hn]. now apply apply_one_open.
  - intros timestamptz_in now f db Hok Hk Hr.
    apply (completed_load_store_ok timestamptz_in now f db Hok Hk Hr).
Qed.

Lemma at_most_one_open_version_witness :
  one_open sample_versions
  /\ one_fact_per_listing [fact_at 1 10 200]
  /\ one_open (apply_scd2 [fact_at 1 10 200] sample_versions)
  /\ one_open (listing_version
                 (store (run_pipeline no_timestamps 10 single_key_batch empty_database))).
Proof.
  split; [exact sample_versions_one_open|].
  split; [exact (one_fact_singleton _)|].
  split.
  - exact (proj1 (proj2 (proj1 at_most_one_open_version [fact_at 1 10 200] sample_versions
                           sample_versions_one_open (one_fact_singleton _)))).
  - exact (proj2 at_most_one_open_version no_timestamps 10 single_key_batch empty_database
             store_ok_empty single_key_batch_keys eq_refl).
Defined.

(** C1 as stated fails: business key A-100 comes twice in the batch, the
    second line resolving to no location; the load completes and leaves
    listing 1 with two open versions. *)
Lemma duplicate_key_two_open_versions :
  raised duplicate_key_load = None
  /\ one_open (listing_version empty_database)
  /\ map (fun v => (listing_id v, valid_from v, valid_to v))
       (listing_version (store duplicate_key_load))
     = [(1, day "2024-01-01", None); (1, day "2024-02-01", None)]
  /\ ~ one_open (listing_version (store duplicate_key_load)).
Proof.
  split; [reflexivity|]. split; [|split; [reflexivity|]].
  - intros lid. unfold open_count. simpl. lia.
  - intros H. specialize (H 1). vm_compute in H. lia.
Qed.

(* ------------------------------------------------------------------ *)
(** ** Temporal non-overlap *)

Lemma load_unit_versions timestamptz_in now f h db j db5 :
  NoDup (map l_id (listing db)) ->
  NoDup (business_keys (staged_rows f)) ->
  assert_expected_headers (read_csv_header f) = inr h ->
  load_unit timestamptz_in now f (read_csv_header f) h db = (j, inr db5) ->
  NoDup (map l_id (listing db5))
  /\ exists incoming,
       one_fact_per_listing incoming
       /\ listing_version db5 = apply_scd2 incoming (listing_version db).
Proof.
  intros Hl Hk Eh H.
  destruct (load_unit_inv _ _ _ _ _ _ _ _ H) as (rows & db3 & db4 & E0 & E3 & E4 & E5).
  rewrite <- (copy_staged_rows f h rows Eh E0) in Hk.
  destruct (upsert_listings_tables _ _ _ E3) as (_ & _ & _ & _ & _ & _ & _ & T3h & T3n).
  destruct (upsert_descriptions_tables _ _ _ E4) as (_ & _ & _ & _ & _ & _ & T4g & T4h).
  assert (Hl4 : NoDup (map l_id (listing db4))) by (rewrite T4g; apply T3n; exact Hl).
  unfold build_incoming_and_apply_scd2 in E5.
  destruct (stg_listing_incoming timestamptz_in now rows (listing db4))
    as [e|incoming] eqn:Ei; [discriminate|].
  cbn [bind ok] in E5. injection E5 as <-. cbn [listing listing_version]. split; [exact Hl4|].
  exists incoming. split.
  - now apply (stg_listing_incoming_one_fact timestamptz_in now rows (listing db4)).
  - now rewrite T4h, T3h.
Qed.

Lemma loaded_history timestamptz_in db :
  loaded timestamptz_in db ->
  history (listing_version db) /\ NoDup (map l_id (listing db)).
Proof.
  induction 1 as [|db now f _ [IHh IHl] Hk].
  - split; constructor.
  - unfold run_pipeline.
    destruct (assert_expected_headers (read_csv_header f)) as [e|h] eqn:Eh; [now split|].
    destruct (load_unit timestamptz_in now f (read_csv_header f) h db) as [j [e|db5]] eqn:E;
      [now split|].
    cbn [store].
    destruct (load_unit_versions _ _ _ _ _ _ _ IHl Hk Eh E) as (Hl5 & incoming & Hn & ->).
    split; [now apply history_load | exact Hl5].
Qed.

(** C3, as amended.  In every table built from the empty history by loads
    that bring at most one incoming fact per listing (so in the store
    after any sequence of pipeline runs on files in which no two rows
    carry the same trimmed business key), two rows of one listing never
    cover a common instant and the row with the later valid_from starts
    at or after the valid_to of the other; and, for any table and any
    delta, the UPDATE never sets a valid_to below the valid_from of the
    row it closes. *)
Theorem versions_never_overlap :
  (forall versions, history versions -> non_overlapping versions)
  /\ (forall timestamptz_in db,
        loaded timestamptz_in db -> non_overlapping (listing_version db))
  /\ (forall versions, closes_forward versions).
Proof.
  split; [|split].
  - intros versions H. apply chained_non_overlapping. now apply history_chained.
  - intros timestamptz_in db H. apply chained_non_overlapping, history_chained.
    now apply (loaded_history timestamptz_in).
  - apply close_version_forward.
Qed.

Lemma versions_never_overlap_witness :
  history (apply_scd2 [fact_at 1 10 200] (apply_scd2 [fact_at 1 5 100] []))
  /\ non_overlapping (apply_scd2 [fact_at 1 10 200] (apply_scd2 [fact_at 1 5 100] []))
  /\ map valid_to (apply_scd2 [fact_at 1 10 200] (apply_scd2 [fact_at 1 5 100] []))
     = [Some 10; None].
Proof.
  assert (H : history (apply_scd2 [fact_at 1 10 200] (apply_scd2 [fact_at 1 5 100] []))).
  { apply history_load; [apply history_load; [apply history_empty|]|];
      apply one_fact_singleton. }
  split; [exact H|]. split; [|reflexivity].
  exact (proj1 versions_never_overlap _ H).
Defined.

(** C3 as stated fails on the load of [duplicate_key_batch]: listing 1
    gets an open version from 1 January and another from 1 February, and
    both cover every instant from 1 February on. *)
Lemma duplicate_key_versions_overlap :
  raised duplicate_key_load = None
  /\ map (fun v => (listing_id v, valid_from v, valid_to v))
       (listing_version (store duplicate_key_load))
     = [(1, day "2024-01-01", None); (1, day "2024-02-01", None)]
  /\ ~ non_overlapping (listing_version (store duplicate_key_load)).
Proof.
  split; [reflexivity|]. split; [reflexivity|]. intros H.
  remember (listing_version (store duplicate_key_load)) as versions eqn:E.
  vm_compute in E. subst versions.
  destruct (H [] _ [] _ [] eq_refl eq_refl) as [Hno _].
  apply (Hno (day "2024-02-01")). unfold covers. simpl.
  repeat split; try discriminate; vm_compute; discriminate.
Qed.

(* ================================================================== *)
(** * Further properties of the loader *)

(** ** Text helpers *)

Lemma chars_text (s : string) : text (chars s) = s.
Proof. apply string_of_list_ascii_of_string. Qed.

Lemma text_empty (l : list ascii) : text l = "" <-> l = [].
Proof.
  split; [|now intros ->].
  destruct l; [reflexivity|discriminate].
Qed.

Lemma ltrim_by_map (p : ascii -> bool) (f : ascii -> ascii) (l : list ascii) :
  (forall c, p (f c) = p c) ->
  ltrim_by p (map f l) = map f (ltrim_by p l).
Proof.
  intros Hp. induction l as [|c r IH]; [reflexivity|].
  cbn [map ltrim_by]. rewrite Hp. destruct (p c); [exact IH|reflexivity].
Qed.

Lemma trim_by_map (p : ascii -> bool) (f : ascii -> ascii) (l : list ascii) :
  (forall c, p (f c) = p c) ->
  trim_by p (map f l) = map f (trim_by p l).
Proof.
  intros Hp. unfold trim_by.
  now rewrite ltrim_by_map, <- map_rev, ltrim_by_map, <- map_rev.
Qed.

Lemma lower_char_twice (c : ascii) : lower_char (lower_char c) = lower_char c.
Proof. destruct c as [[] [] [] [] [] [] [] []]; reflexivity. Qed.

Lemma lower_char_blank (c : ascii) : is_blank (lower_char c) = is_blank c.
Proof. destruct c as [[] [] [] [] [] [] [] []]; reflexivity. Qed.

Lemma lower_twice (s : string) : lower (lower s) = lower s.
Proof.
  unfold lower. rewrite text_chars, map_map. f_equal.
  apply map_ext. exact lower_char_twice.
Qed.

Lemma btrim_lower_blank (s : string) :
  String.eqb (btrim (lower s)) "" = String.eqb (btrim s) "".
Proof.
  unfold btrim, lower. rewrite text_chars, trim_by_map by exact lower_char_blank.
  destruct (trim_by is_blank (chars s)); reflexivity.
Qed.

Lemma ltrim_by_head (p : ascii -> bool) (c : ascii) (l : list ascii) :
  p c = false -> ltrim_by p (c :: l) = c :: l.
Proof. intros H. cbn [ltrim_by]. now rewrite H. Qed.

(** Trimming leaves alone a text that neither starts nor ends with a
    trimmed character. *)
Lemma trim_by_fixed (p : ascii -> bool) (l : list ascii) :
  (forall c, In c l -> p c = false) -> trim_by p l = l.
Proof.
  intros H. unfold trim_by.
  assert (E : forall m, (forall c, In c m -> p c = false) -> ltrim_by p m = m).
  { intros [|c r] Hm; [reflexivity|]. apply ltrim_by_head. apply Hm. now left. }
  rewrite (E l H), E, rev_involutive; [reflexivity|].
  intros c Hc. apply H. now apply in_rev.
Qed.

Lemma digit_not_blank (c : ascii) : is_digit c = true -> is_blank c = false.
Proof.
  destruct c as [[] [] [] [] [] [] [] []]; vm_compute; intros H;
    try reflexivity; discriminate H.
Qed.

Lemma btrim_digits (l : list ascii) :
  forallb is_digit l = true -> btrim (text l) = text l.
Proof.
  intros H. unfold btrim. rewrite text_chars, trim_by_fixed; [reflexivity|].
  intros c Hc. apply digit_not_blank.
  rewrite forallb_forall in H. now apply H.
Qed.

Lemma filter_all {A} (p : A -> bool) (l : list A) :
  forallb p l = true -> filter p l = l.
Proof.
  induction l as [|a r IH]; [reflexivity|].
  cbn [forallb filter]. intros H. apply andb_prop in H as [Ha Hr].
  rewrite Ha. f_equal. now apply IH.
Qed.

(* ------------------------------------------------------------------ *)
(** ** Booleans *)

(** X1.  The reading of a boolean column ignores letter case. *)
Theorem bool_or_null_ignores_case (s : string) :
  bool_or_null (Some (lower s)) = bool_or_null (Some s).
Proof.
  unfold bool_or_null. now rewrite btrim_lower_blank, lower_twice.
Qed.

(** X2.  A boolean text is compared as it stands: with a space anywhere in it,
    also in front or at the end, the column reads as unknown. *)
Theorem bool_or_null_padded_is_null (s : string) :
  In " "%char (chars s) -> bool_or_null (Some s) = None.
Proof.
  intros Hs.
  assert (Hl : In " "%char (chars (lower s))).
  { unfold lower. rewrite text_chars.
    change " "%char with (lower_char " "%char). now apply in_map. }
  assert (No : forall words,
             (forall w, In w words -> ~ In " "%char (chars w)) ->
             existsb (String.eqb (lower s)) words = false).
  { intros words Hw. destruct (existsb (String.eqb (lower s)) words) eqn:E; [|reflexivity].
    apply existsb_exists in E as (w & Hin & Heq). apply String.eqb_eq in Heq.
    exfalso. apply (Hw w Hin). now rewrite <- Heq. }
  unfold bool_or_null. destruct (String.eqb (btrim s) ""); [reflexivity|].
  rewrite !No; [reflexivity| |];
    intros w Hw; cbn in Hw; intuition (subst; cbn in *; intuition discriminate).
Qed.

Lemma bool_or_null_padded_is_null_witness :
  In " "%char (chars "true ") /\ bool_or_null (Some "true ") = None
  /\ bool_or_null (Some "true") = Some true.
Proof.
  split; [cbn; tauto|].
  split; [apply bool_or_null_padded_is_null; cbn; tauto|reflexivity].
Defined.

(* ------------------------------------------------------------------ *)
(** ** Integers read from text *)

Lemma split_sign_digits (l : list ascii) :
  forallb is_digit l = true -> split_sign l = (false, l).
Proof.
  destruct l as [|c r]; [reflexivity|].
  cbn [forallb]. intros H. apply andb_prop in H as [Hc _].
  unfold split_sign. destruct (Ascii.eqb c "-"%char) eqn:E; [|reflexivity].
  apply Ascii.eqb_eq in E. subst c. discriminate.
Qed.

Lemma numeric_in_digits (l : list ascii) :
  forallb is_digit l = true ->
  numeric_in l = {| unscaled := digits_value l; dscale := 0 |}.
Proof.
  intros H. unfold numeric_in. rewrite (split_sign_digits l H).
  pose proof (span_digits_app l [] H I) as E. rewrite app_nil_r in E.
  rewrite E. cbn. now rewrite app_nil_r.
Qed.

Lemma round_integer (n : Z) : round {| unscaled := n; dscale := 0 |} = n.
Proof.
  unfold round, pow10. cbn [unscaled dscale Z.of_nat]. change (10 ^ 0) with 1.
  destruct (0 <=? n) eqn:E.
  - replace (2 * n + 1) with (1 + n * (2 * 1)) by lia.
    rewrite Z.div_add by lia. reflexivity.
  - replace (2 * - n + 1) with (1 + (- n) * (2 * 1)) by lia.
    rewrite Z.div_add by lia. cbn. lia.
Qed.

(** X3.  The build year is read from the digits of the text alone, every other
    character dropped.  It is kept when it lies in 1800..2100 and unknown
    otherwise; digits worth more than the largest [int] make the cast, and
    with it the statement, fail. *)
Theorem year_read_from_digits (s : string) :
  btrim s <> "" ->
  year_1800_2100 (Some s)
  = (let n := digits_value (digits_of s) in
     if 2147483647 <? n then raise NumericValueOutOfRange
     else if (1800 <=? n) && (n <=? 2100) then ok (Some n)
     else ok None).
Proof.
  intros Hs. unfold year_1800_2100.
  apply String.eqb_neq in Hs. rewrite Hs.
  assert (Hd : forallb is_digit (digits_of s) = true) by apply filter_length_forallb.
  pose proof (digits_value_nonneg _ Hd) as Hn.
  rewrite (numeric_in_digits _ Hd), round_integer.
  unfold digits_re. rewrite Hd, andb_true_r.
  cbv zeta. set (n := digits_value (digits_of s)) in *.
  destruct (List.length (digits_of s) =? 0)%nat eqn:El.
  - apply Nat.eqb_eq in El. apply length_zero_iff_nil in El.
    subst n. rewrite El. reflexivity.
  - cbn [negb]. unfold to_int, to_smallint.
    destruct (2147483647 <? n) eqn:Ebig.
    + apply Z.ltb_lt in Ebig.
      replace (n <=? 2147483647) with false by (symmetry; apply Z.leb_gt; lia).
      now rewrite andb_false_r.
    + apply Z.ltb_ge in Ebig.
      replace (-2147483648 <=? n) with true by (symmetry; apply Z.leb_le; lia).
      replace (n <=? 2147483647) with true by (symmetry; apply Z.leb_le; lia).
      cbn [andb bind ok].
      destruct ((1800 <=? n) && (n <=? 2100)) eqn:Er; [|reflexivity].
      apply andb_prop in Er as [E1 E2]. apply Z.leb_le in E1, E2.
      replace (-32768 <=? n) with true by (symmetry; apply Z.leb_le; lia).
      replace (n <=? 32767) with true by (symmetry; apply Z.leb_le; lia).
      reflexivity.
Qed.

Lemma year_read_from_digits_witness :
  btrim "built 19.87" <> ""
  /\ year_1800_2100 (Some "built 19.87") = ok (Some 1987).
Proof.
  split; [discriminate|].
  rewrite (year_read_from_digits "built 19.87"); [reflexivity|discriminate].
Defined.

Lemma decimal_integer_value (l : list ascii) (neg : bool) (ip : list ascii) :
  decimal_text l neg ip [] ->
  0 <= digits_value ip
  /\ round (numeric_in l) = (if neg then - digits_value ip else digits_value ip)
  /\ decimal_re l = true.
Proof.
  intros H. pose proof H as (_ & Hip & _ & _).
  split; [now apply digits_value_nonneg|]. split.
  - rewrite (numeric_in_spec _ _ _ _ H), app_nil_r. cbn [List.length].
    apply round_integer.
  - apply decimal_re_spec. now exists neg, ip, [].
Qed.

(** X4.  A count written as an integer: a negative one is stored as unknown,
    one above 32767 makes the [smallint] cast, and with it the statement,
    fail, and any other is stored as it is. *)
Theorem count_read_from_integer_text (s : string) (neg : bool) (ip : list ascii) :
  btrim s <> "" ->
  decimal_text (num_chars_of s) neg ip [] ->
  smallint_nonneg (Some s)
  = (let n := digits_value ip in
     if neg && (0 <? n) then ok None
     else if 32767 <? n then raise NumericValueOutOfRange
     else ok (Some n)).
Proof.
  intros Hs H. destruct (decimal_integer_value _ _ _ H) as (Hn & Hr & Hre).
  unfold smallint_nonneg. apply String.eqb_neq in Hs. rewrite Hs, Hre, Hr.
  cbv zeta. set (n := digits_value ip) in *. unfold to_smallint.
  destruct neg; cbn [andb].
  - destruct (0 <? n) eqn:E0.
    + apply Z.ltb_lt in E0.
      replace (0 <=? - n) with false by (symmetry; apply Z.leb_gt; lia). reflexivity.
    + apply Z.ltb_ge in E0. assert (n = 0) as -> by lia. reflexivity.
  - replace (0 <=? n) with true by (symmetry; apply Z.leb_le; lia).
    replace (-32768 <=? n) with true by (symmetry; apply Z.leb_le; lia).
    cbn [andb]. destruct (32767 <? n) eqn:E.
    + apply Z.ltb_lt in E.
      replace (n <=? 32767) with false by (symmetry; apply Z.leb_gt; lia). reflexivity.
    + apply Z.ltb_ge in E.
      replace (n <=? 32767) with true by (symmetry; apply Z.leb_le; lia). reflexivity.
Qed.

Lemma count_read_from_integer_text_witness :
  smallint_nonneg (Some "3 rooms") = ok (Some 3)
  /\ smallint_nonneg (Some "40000") = raise NumericValueOutOfRange
  /\ smallint_nonneg (Some "-2") = ok None.
Proof.
  split; [|split].
  - rewrite (count_read_from_integer_text "3 rooms" false ["3"%char]);
      [reflexivity|discriminate|repeat split; discriminate].
  - rewrite (count_read_from_integer_text "40000" false (chars "40000"));
      [reflexivity|discriminate|repeat split; discriminate].
  - rewrite (count_read_from_integer_text "-2" true ["2"%char]);
      [reflexivity|discriminate|repeat split; discriminate].
Defined.

(** X5.  A floor written as an integer keeps its sign.  Outside -5..300 it is
    stored as unknown, without error as long as it fits an [int]. *)
Theorem floor_read_from_integer_text (s : string) (neg : bool) (ip : list ascii) :
  btrim s <> "" ->
  decimal_text (num_chars_of s) neg ip [] ->
  floor_bounded (-5) 300 (Some s)
  = (let v := if neg then - digits_value ip else digits_value ip in
     if (v <? -2147483648) || (2147483647 <? v) then raise NumericValueOutOfRange
     else if (-5 <=? v) && (v <=? 300) then ok (Some v)
     else ok None).
Proof.
  intros Hs H. destruct (decimal_integer_value _ _ _ H) as (_ & Hr & Hre).
  unfold floor_bounded. apply String.eqb_neq in Hs. rewrite Hs, Hre, Hr.
  cbv zeta. set (v := if neg then _ else _). unfold to_int, to_smallint.
  destruct (v <? -2147483648) eqn:Elo; cbn [orb].
  - apply Z.ltb_lt in Elo.
    replace (-2147483648 <=? v) with false by (symmetry; apply Z.leb_gt; lia). reflexivity.
  - apply Z.ltb_ge in Elo.
    replace (-2147483648 <=? v) with true by (symmetry; apply Z.leb_le; lia).
    cbn [andb]. destruct (2147483647 <? v) eqn:Ehi.
    + apply Z.ltb_lt in Ehi.
      replace (v <=? 2147483647) with false by (symmetry; apply Z.leb_gt; lia). reflexivity.
    + apply Z.ltb_ge in Ehi.
      replace (v <=? 2147483647) with true by (symmetry; apply Z.leb_le; lia).
      cbn [bind ok]. destruct ((-5 <=? v) && (v <=? 300)) eqn:Er; [|reflexivity].
      apply andb_prop in Er as [E1 E2]. apply Z.leb_le in E1, E2.
      replace (-32768 <=? v) with true by (symmetry; apply Z.leb_le; lia).
      replace (v <=? 32767) with true by (symmetry; apply Z.leb_le; lia).
      reflexivity.
Qed.

Lemma floor_read_from_integer_text_witness :
  floor_bounded (-5) 300 (Some "-2") = ok (Some (-2))
  /\ floor_bounded (-5) 300 (Some "40000") = ok None.
Proof.
  split.
  - rewrite (floor_read_from_integer_text "-2" true ["2"%char]);
      [reflexivity|discriminate|repeat split; discriminate].
  - rewrite (floor_read_from_integer_text "40000" false (chars "40000"));
      [reflexivity|discriminate|repeat split; discriminate].
Defined.

(* ------------------------------------------------------------------ *)
(** ** Zipcodes *)

Lemma lpad0_shape (d : list ascii) :
  (1 <= List.length d <= 5)%nat ->
  forallb is_digit d = true ->
  List.length (lpad0 d 5) = 5%nat /\ forallb is_digit (lpad0 d 5) = true.
Proof.
  intros Hl Hd. unfold lpad0.
  destruct (5 <=? List.length d)%nat eqn:E.
  - apply Nat.leb_le in E. assert (El : List.length d = 5%nat) by lia.
    assert (firstn 5 d = d) as -> by (rewrite <- El; apply firstn_all). auto.
  - apply Nat.leb_gt in E. split.
    + rewrite length_app, repeat_length. lia.
    + rewrite forallb_app, Hd, andb_true_r.
      apply forallb_forall. intros c Hc. apply repeat_spec in Hc. now subst c.
Qed.

(** X6.  A normalised zipcode has five digits, and normalising it again gives
    it back. *)
Theorem norm_zip_5_idempotent (s z : string) :
  norm_zip_5 (Some s) = Some z ->
  List.length (chars z) = 5%nat
  /\ forallb is_digit (chars z) = true
  /\ norm_zip_5 (Some z) = Some z.
Proof.
  unfold norm_zip_5 at 1. destruct (String.eqb (btrim s) ""); [discriminate|].
  destruct (digits_1_5_re (digits_of s)) eqn:E; [|discriminate].
  intros [= <-]. unfold digits_1_5_re in E.
  apply andb_prop in E as [E Hd]. apply andb_prop in E as [E1 E5].
  apply Nat.leb_le in E1, E5.
  destruct (lpad0_shape (digits_of s) (conj E1 E5) Hd) as [Hlen Hdig].
  set (l := lpad0 (digits_of s) 5) in *.
  rewrite text_chars. split; [exact Hlen|]. split; [exact Hdig|].
  unfold norm_zip_5. rewrite (btrim_digits l Hdig).
  assert (Hne : String.eqb (text l) "" = false).
  { apply String.eqb_neq. intros H. apply text_empty in H. rewrite H in Hlen. discriminate. }
  rewrite Hne. unfold digits_of, digits_1_5_re. rewrite text_chars, (filter_all _ _ Hdig).
  rewrite Hlen, Hdig. cbn [Nat.leb andb]. f_equal. f_equal.
  unfold lpad0. rewrite Hlen. cbn [Nat.leb]. rewrite <- Hlen. apply firstn_all.
Qed.

Lemma norm_zip_5_idempotent_witness :
  norm_zip_5 (Some "F-7501") = Some "07501"
  /\ List.length (chars "07501") = 5%nat
  /\ forallb is_digit (chars "07501") = true
  /\ norm_zip_5 (Some "07501") = Some "07501".
Proof.
  split; [reflexivity|].
  apply (norm_zip_5_idempotent "F-7501" "07501"). reflexivity.
Defined.

(* ------------------------------------------------------------------ *)
(** ** Header and staging *)

Lemma index_found (cols : list string) (c : string) :
  In c (map lower cols) ->
  In (nth (index c (map lower cols)) cols "") cols
  /\ lower (nth (index c (map lower cols)) cols "") = c.
Proof.
  induction cols as [|x r IH]; [intros []|].
  cbn [map index]. intros H.
  destruct (String.eqb (lower x) c) eqn:E.
  - apply String.eqb_eq in E. cbn [nth]. split; [now left|exact E].
  - apply String.eqb_neq in E. destruct H as [H|H]; [contradiction|].
    destruct (IH H) as [Hin Hl]. cbn [nth]. split; [now right|exact Hl].
Qed.

(** X7.  The header check accepts any file that has the expected columns,
    whatever their letter case and order and whatever other columns come
    with them; every expected column is then mapped to a column of the
    file, in the spelling of the file. *)
Theorem expected_headers_found (cols : list string) :
  (forall c, In c EXPECTED -> In c (map lower cols)) ->
  exists h, assert_expected_headers cols = inr h
            /\ map fst h = EXPECTED
            /\ forall c a, In (c, a) h -> In a cols /\ lower a = c.
Proof.
  intros H. unfold assert_expected_headers.
  rewrite filter_none.
  2:{ intros c Hc. apply negb_false_iff. apply mem_In. now apply H. }
  eexists. split; [reflexivity|]. split.
  - rewrite map_map. cbn [fst]. apply map_id.
  - intros c a Hin. apply in_map_iff in Hin as (c' & [= <- <-] & Hc).
    apply index_found. now apply H.
Qed.

Lemma shuffled_header_complete :
  forall c, In c EXPECTED -> In c (map lower shuffled_header).
Proof.
  intros c Hc. apply mem_In. apply mem_In in Hc.
  assert (E : forallb (fun c => mem c (map lower shuffled_header)) EXPECTED = true)
    by reflexivity.
  rewrite forallb_forall in E. apply E. now apply mem_In.
Qed.

Lemma expected_headers_found_witness :
  exists h, assert_expected_headers shuffled_header = inr h
            /\ map fst h = EXPECTED
            /\ forall c a, In (c, a) h -> In a shuffled_header /\ lower a = c.
Proof.
  apply (expected_headers_found shuffled_header). exact shuffled_header_complete.
Defined.

(** X8.  With the expected header, a data line that has not one field per
    column makes COPY fail: the run raises in the staging step and the
    store is left as it was. *)
Theorem ragged_line_aborts_the_load (timestamptz_in : timestamptz_parser) (now : Z)
    (f : csv_file) (db : database) (line : list (option string)) :
  read_csv_header f = EXPECTED ->
  In line (lines f) ->
  List.length line <> List.length EXPECTED ->
  run_pipeline timestamptz_in now f db
  = {| raised := Some BadCopyFileFormat; store := db; journal := [Stage] |}.
Proof.
  intros Hh Hin Hlen. unfold run_pipeline. rewrite Hh.
  destruct (assert_expected_headers EXPECTED) as [e|h] eqn:Eh; [discriminate Eh|].
  unfold load_unit, copy_csv_into_staging.
  assert (E : forallb (fun l => (List.length l =? List.length EXPECTED)%nat) (lines f)
              = false).
  { destruct (forallb _ (lines f)) eqn:E; [|reflexivity].
    rewrite forallb_forall in E. specialize (E line Hin).
    apply Nat.eqb_eq in E. contradiction. }
  rewrite E. reflexivity.
Qed.

Lemma ragged_line_aborts_the_load_witness :
  run_pipeline no_timestamps 10
    {| header := EXPECTED; lines := [[Some "A-100"; Some "SELL"]] |} empty_database
  = {| raised := Some BadCopyFileFormat; store := empty_database; journal := [Stage] |}.
Proof.
  apply (ragged_line_aborts_the_load no_timestamps 10
           {| header := EXPECTED; lines := [[Some "A-100"; Some "SELL"]] |}
           empty_database [Some "A-100"; Some "SELL"]).
  - reflexivity.
  - now left.
  - discriminate.
Defined.

(* ------------------------------------------------------------------ *)
(** ** Dimension tables *)

Section DoNothingKeys.

Variables (R C K : Type).
Variable conflict : C -> R -> bool.
Variable make : Z -> C -> R.
Variable pk : R -> Z.
Variable key : R -> K.
Variable ckey : C -> K.
Hypothesis conflict_key : forall c r, conflict c r = true <-> key r = ckey c.
Hypothesis key_make : forall i c, key (make i c) = ckey c.

Lemma existsb_conflict_key tbl c :
  existsb (conflict c) tbl = true <-> In (ckey c) (map key tbl).
Proof.
  rewrite existsb_exists, in_map_iff. split.
  - intros (r & Hr & Hc). exists r. split; [now apply conflict_key|exact Hr].
  - intros (r & Hk & Hr). exists r. split; [exact Hr|now apply conflict_key].
Qed.

Lemma insert_row_keys tbl c :
  NoDup (map key tbl) -> NoDup (map key (insert_row conflict make pk tbl c)).
Proof.
  intros H. unfold insert_row.
  destruct (existsb (conflict c) tbl) eqn:E; [exact H|].
  rewrite map_app. cbn [map]. rewrite key_make.
  apply NoDup_app; [exact H|repeat constructor; intros []|].
  intros k Hk [<-|[]].
  apply existsb_conflict_key in Hk. congruence.
Qed.

Lemma insert_do_nothing_keys cands : forall tbl,
  NoDup (map key tbl) -> NoDup (map key (insert_do_nothing conflict make pk cands tbl)).
Proof.
  unfold insert_do_nothing.
  induction cands as [|c cs IH]; intros tbl H; [exact H|].
  cbn [fold_left]. apply IH. now apply insert_row_keys.
Qed.

Lemma insert_do_nothing_key_set cands : forall tbl k,
  In k (map key (insert_do_nothing conflict make pk cands tbl))
  <-> In k (map key tbl) \/ In k (map ckey cands).
Proof.
  unfold insert_do_nothing.
  induction cands as [|c cs IH]; intros tbl k; cbn [fold_left map In]; [tauto|].
  rewrite IH. unfold insert_row.
  destruct (existsb (conflict c) tbl) eqn:E.
  - apply existsb_conflict_key in E. intuition (subst; auto).
  - rewrite map_app, in_app_iff. cbn [map In]. rewrite key_make. tauto.
Qed.

End DoNothingKeys.

Lemma dim_conflict_key (c : string) (r : dim_row) :
  dim_conflict c r = true <-> code r = c.
Proof. unfold dim_conflict. apply String.eqb_eq. Qed.

Lemma subtype_conflict_key (c : Z * string) (r : item_subtype_row) :
  subtype_conflict c r = true <-> subtype_key r = c.
Proof.
  unfold subtype_conflict, subtype_key. destruct c as [i s]. cbn [fst snd].
  rewrite andb_true_iff, Z.eqb_eq, String.eqb_eq.
  split; [intros [-> ->]; reflexivity|intros [= -> ->]; auto].
Qed.

Lemma location_conflict_key (c : Z * Z) (r : location_row) :
  location_conflict c r = true <-> location_key r = c.
Proof.
  unfold location_conflict, location_key. destruct c as [i j]. cbn [fst snd].
  rewrite andb_true_iff, !Z.eqb_eq.
  split; [intros [-> ->]; reflexivity|intros [= -> ->]; auto].
Qed.

Lemma distinct_codes_In (col : staged -> option string) (rows : list staged) (c : string) :
  In c (distinct_codes col rows)
  <-> exists sc, In sc rows /\ nullif_btrim (col sc) = Some c.
Proof.
  unfold distinct_codes. rewrite nodup_In, in_somes, in_map_iff.
  split; intros (sc & H1 & H2); exists sc; auto.
Qed.

(** X9.  After the dimension upsert the transaction types and item types on
    file are those that were there and the trimmed, non-blank codes of
    the batch, and no other. *)
Theorem dimension_codes_after_upsert (rows : list staged) (db : database) :
  (forall c, In c (map code (transaction_type (upsert_dimensions rows db)))
             <-> In c (map code (transaction_type db))
                 \/ exists sc, In sc rows /\ nullif_btrim (sc_transaction_type sc) = Some c)
  /\ (forall c, In c (map code (item_type (upsert_dimensions rows db)))
                <-> In c (map code (item_type db))
                    \/ exists sc, In sc rows /\ nullif_btrim (sc_item_type sc) = Some c).
Proof.
  split; intros c; cbn [upsert_dimensions transaction_type item_type];
    rewrite insert_codes_codes, distinct_codes_In; reflexivity.
Qed.

Lemma dimensions_grow (rows : list staged) (db : database) :
  (exists more, transaction_type (upsert_dimensions rows db) = transaction_type db ++ more)
  /\ (exists more, item_type (upsert_dimensions rows db) = item_type db ++ more)
  /\ (exists more, item_subtype (upsert_dimensions rows db) = item_subtype db ++ more).
Proof.
  cbn [upsert_dimensions transaction_type item_type item_subtype]. unfold insert_codes.
  repeat split; apply insert_do_nothing_extends.
Qed.

(** X10.  The dimension upsert only appends: the rows that were in
    transaction_type, item_type and item_subtype stay as they were, ids
    included, and codes that were unique stay unique. *)
Theorem dimensions_only_grow (rows : list staged) (db : database) :
  (exists more, transaction_type (upsert_dimensions rows db) = transaction_type db ++ more)
  /\ (exists more, item_type (upsert_dimensions rows db) = item_type db ++ more)
  /\ (exists more, item_subtype (upsert_dimensions rows db) = item_subtype db ++ more)
  /\ (NoDup (map code (transaction_type db)) ->
      NoDup (map code (transaction_type (upsert_dimensions rows db))))
  /\ (NoDup (map code (item_type db)) ->
      NoDup (map code (item_type (upsert_dimensions rows db))))
  /\ (NoDup (map subtype_key (item_subtype db)) ->
      NoDup (map subtype_key (item_subtype (upsert_dimensions rows db)))).
Proof.
  cbn [upsert_dimensions transaction_type item_type item_subtype]. unfold insert_codes.
  repeat split; try apply insert_do_nothing_extends.
  - apply insert_do_nothing_keys with (ckey := fun c => c);
      [exact dim_conflict_key|reflexivity].
  - apply insert_do_nothing_keys with (ckey := fun c => c);
      [exact dim_conflict_key|reflexivity].
  - apply insert_do_nothing_keys with (ckey := fun c => c);
      [exact subtype_conflict_key|intros i [a b]; reflexivity].
Qed.

Lemma insert_all_extends {R C} (make : Z -> C -> R) (pk : R -> Z) (cands : list C) :
  forall tbl, exists more, insert_all make pk cands tbl = tbl ++ more.
Proof.
  unfold insert_all. induction cands as [|c cs IH]; intros tbl; cbn [fold_left].
  - exists []. now rewrite app_nil_r.
  - destruct (IH (tbl ++ [make (next_id (map pk tbl)) c])) as (more & ->).
    eexists. now rewrite <- app_assoc.
Qed.

Lemma insert_all_code_list (cands : list string) : forall tbl,
  map code (insert_all make_dim dim_id cands tbl) = map code tbl ++ cands.
Proof.
  unfold insert_all. induction cands as [|c cs IH]; intros tbl; cbn [fold_left].
  - now rewrite app_nil_r.
  - rewrite IH, map_app, <- app_assoc. reflexivity.
Qed.

Lemma new_cities_In (rows : list staged) (c : list dim_row) (n : string) :
  In n (new_cities rows c)
  <-> (exists sc, In sc rows /\ nullif_btrim (sc_city sc) = Some n)
      /\ ~ In n (map code c).
Proof.
  unfold new_cities. rewrite nodup_In, in_somes, in_map_iff. split.
  - intros (sc & E & Hsc).
    destruct (nullif_btrim (sc_city sc)) as [m|] eqn:En; [|discriminate].
    destruct (existsb (dim_conflict m) c) eqn:Ec; [discriminate|].
    injection E as <-. split; [now exists sc|].
    intros Hin. apply dim_conflict_code in Hin. congruence.
  - intros ((sc & Hsc & En) & Hnot). exists sc. split; [|exact Hsc].
    rewrite En. destruct (existsb (dim_conflict n) c) eqn:Ec; [|reflexivity].
    apply dim_conflict_code in Ec. contradiction.
Qed.

(** X11.  The city insert has no ON CONFLICT clause; its NOT EXISTS test and
    DISTINCT do the same work.  After it the city names on file are those
    that were there and the trimmed, non-blank names of the batch; the
    rows that were there stay, and names that were unique stay unique. *)
Theorem city_names_after_upsert (rows : list staged) (db : database) :
  (exists more, city (upsert_cities_zipcodes_locations rows db) = city db ++ more)
  /\ (forall n, In n (map code (city (upsert_cities_zipcodes_locations rows db)))
                <-> In n (map code (city db))
                    \/ exists sc, In sc rows /\ nullif_btrim (sc_city sc) = Some n)
  /\ (NoDup (map code (city db)) ->
      NoDup (map code (city (upsert_cities_zipcodes_locations rows db)))).
Proof.
  cbn [upsert_cities_zipcodes_locations city].
  split; [apply insert_all_extends|]. split.
  - intros n. rewrite insert_all_codes, new_cities_In.
    destruct (in_dec string_dec n (map code (city db))); tauto.
  - intros H. rewrite insert_all_code_list.
    apply NoDup_app; [exact H|apply NoDup_nodup|].
    intros n Hn Hnew. apply new_cities_In in Hnew. tauto.
Qed.

(** X12.  The zipcode and location upserts only append, and zipcodes and
    (city, zipcode) pairs that were unique stay unique. *)
Theorem locations_only_grow (rows : list staged) (db : database) :
  (exists more, zipcode (upsert_cities_zipcodes_locations rows db) = zipcode db ++ more)
  /\ (exists more, location (upsert_cities_zipcodes_locations rows db) = location db ++ more)
  /\ (NoDup (map code (zipcode db)) ->
      NoDup (map code (zipcode (upsert_cities_zipcodes_locations rows db))))
  /\ (NoDup (map location_key (location db)) ->
      NoDup (map location_key (location (upsert_cities_zipcodes_locations rows db)))).
Proof.
  cbn [upsert_cities_zipcodes_locations zipcode location].
  unfold upsert_zipcodes, insert_codes.
  repeat split; try apply insert_do_nothing_extends.
  - apply insert_do_nothing_keys with (ckey := fun c => c);
      [exact dim_conflict_key|reflexivity].
  - apply insert_do_nothing_keys with (ckey := fun c => c);
      [exact location_conflict_key|intros i [a b]; reflexivity].
Qed.

(* ------------------------------------------------------------------ *)
(** ** Resolving a staged row *)

Lemma join_In {A B} (t : list A) (on : A -> bool) (k : A -> list B) (b : B) :
  In b (join t on k) <-> exists a, In a t /\ on a = true /\ In b (k a).
Proof.
  unfold join. rewrite in_flat_map. split.
  - intros (a & Ha & Hb). apply filter_In in Ha as [Ha Hon]. now exists a.
  - intros (a & Ha & Hon & Hb). exists a. split; [now apply filter_In|exact Hb].
Qed.

Lemma nullif_btrim_some (s : option string) (c : string) :
  nullif_btrim s = Some c -> option_map btrim s = Some c.
Proof.
  destruct s as [t|]; [|discriminate]. cbn [nullif_btrim option_map].
  destruct (String.eqb (btrim t) ""); [discriminate|auto].
Qed.

Lemma resolve_In (db : database) (sc : staged) (x : Z * Z * Z) :
  In x (resolve db sc) <->
  exists rtt rit rst rc rz rl,
    (In rtt (transaction_type db)
     /\ eq_text (code rtt) (option_map btrim (sc_transaction_type sc)) = true)
    /\ (In rit (item_type db)
        /\ eq_text (code rit) (option_map btrim (sc_item_type sc)) = true)
    /\ (In rst (item_subtype db)
        /\ eq_text (st_code rst) (option_map btrim (sc_item_subtype sc)) = true
        /\ st_item_type_id rst = dim_id rit)
    /\ (In rc (city db) /\ eq_text (code rc) (option_map btrim (sc_city sc)) = true)
    /\ (In rz (zipcode db) /\ eq_text (code rz) (norm_zip_5 (sc_zipcode sc)) = true)
    /\ (In rl (location db) /\ city_id rl = dim_id rc /\ zipcode_id rl = dim_id rz)
    /\ x = (dim_id rtt, item_subtype_id rst, location_id rl).
Proof.
  unfold resolve. split.
  - intros H.
    apply join_In in H as (rtt & H1 & E1 & H).
    apply join_In in H as (rit & H2 & E2 & H).
    apply join_In in H as (rst & H3 & E3 & H).
    apply join_In in H as (rc & H4 & E4 & H).
    apply join_In in H as (rz & H5 & E5 & H).
    apply join_In in H as (rl & H6 & E6 & H).
    destruct H as [<-|[]].
    apply andb_prop in E3 as [E3 E3']. apply Z.eqb_eq in E3'.
    apply andb_prop in E6 as [E6 E6']. apply Z.eqb_eq in E6, E6'.
    exists rtt, rit, rst, rc, rz, rl. repeat split; auto.
  - intros (rtt & rit & rst & rc & rz & rl
            & [H1 E1] & [H2 E2] & (H3 & E3 & E3') & [H4 E4] & [H5 E5]
            & (H6 & E6 & E6') & ->).
    apply join_In. exists rtt. split; [exact H1|]. split; [exact E1|].
    apply join_In. exists rit. split; [exact H2|]. split; [exact E2|].
    apply join_In. exists rst. split; [exact H3|].
    split; [now rewrite E3, E3', Z.eqb_refl|].
    apply join_In. exists rc. split; [exact H4|]. split; [exact E4|].
    apply join_In. exists rz. split; [exact H5|]. split; [exact E5|].
    apply join_In. exists rl. split; [exact H6|].
    split; [now rewrite E6, E6', !Z.eqb_refl|]. now left.
Qed.

Lemma code_row (tbl : list dim_row) (c : string) :
  In c (map code tbl) ->
  exists r, In r tbl /\ forall s, s = Some c -> eq_text (code r) s = true.
Proof.
  intros H. apply in_map_iff in H as (r & E & Hr). exists r. split; [exact Hr|].
  intros s ->. apply eq_text_some. now rewrite E.
Qed.

(** Once the dimension and location upserts have run, every usable row
    of the batch finds its transaction type, subtype and location. *)
Lemma usable_resolves (rows : list staged) (db : database) (sc : staged) :
  In sc rows -> usable sc ->
  exists ids,
    In ids (resolve (upsert_cities_zipcodes_locations rows (upsert_dimensions rows db)) sc).
Proof.
  intros Hsc ((ctt & Ett) & (cit & Eit) & (cst & Est) & (cc & Ec) & (cz & Ez)).
  set (db1 := upsert_dimensions rows db).
  set (db2 := upsert_cities_zipcodes_locations rows db1).
  assert (Htt : exists r, In r (transaction_type db2)
                          /\ forall s, s = Some ctt -> eq_text (code r) s = true).
  { apply code_row. cbn [db2 db1 upsert_cities_zipcodes_locations upsert_dimensions
                           transaction_type].
    apply insert_codes_codes. right. apply distinct_codes_In. now exists sc. }
  assert (Hit : exists r, In r (item_type db2)
                          /\ forall s, s = Some cit -> eq_text (code r) s = true).
  { apply code_row. cbn [db2 db1 upsert_cities_zipcodes_locations upsert_dimensions
                           item_type].
    apply insert_codes_codes. right. apply distinct_codes_In. now exists sc. }
  destruct Htt as (rtt & Htt & Ett'). destruct Hit as (rit & Hit & Eit').
  assert (Hst : exists r, In r (item_subtype db2)
                          /\ st_item_type_id r = dim_id rit /\ st_code r = cst).
  { cbn [db2 db1 upsert_cities_zipcodes_locations upsert_dimensions item_subtype].
    cbn [db2 db1 upsert_cities_zipcodes_locations upsert_dimensions item_type] in Hit.
    set (it := insert_codes (distinct_codes sc_item_type rows) (item_type db)) in *.
    assert (Hc : In (dim_id rit, cst) (subtype_candidates rows it)).
    { unfold subtype_candidates. apply in_flat_map.
      exists (Some cit, cst). split.
      - apply nodup_In. apply in_flat_map. exists sc. split; [exact Hsc|].
        rewrite Est. rewrite (nullif_btrim_some _ _ Eit). now left.
      - apply join_In. exists rit. split; [exact Hit|].
        split; [now apply Eit'|now left]. }
    pose proof (insert_do_nothing_covers _ _ subtype_conflict make_subtype item_subtype_id
                  subtype_conflict_make _ (item_subtype db) _ Hc) as Hcov.
    apply existsb_exists in Hcov as (r & Hr & Hk).
    apply subtype_conflict_key in Hk. injection Hk as H1 H2.
    exists r. auto. }
  destruct Hst as (rst & Hst & Est1 & Est2).
  assert (Hc : exists r, In r (city db2)
                         /\ forall s, s = Some cc -> eq_text (code r) s = true).
  { apply code_row. cbn [db2 upsert_cities_zipcodes_locations city].
    apply insert_all_codes.
    destruct (in_dec string_dec cc (map code (city db1))) as [Hin|Hnot]; [now left|].
    right. apply new_cities_In. split; [now exists sc|exact Hnot]. }
  assert (Hz : exists r, In r (zipcode db2)
                         /\ forall s, s = Some cz -> eq_text (code r) s = true).
  { apply code_row. cbn [db2 upsert_cities_zipcodes_locations zipcode].
    unfold upsert_zipcodes. apply insert_codes_codes. right.
    apply zip_codes_spec. now exists sc. }
  destruct Hc as (rc & Hc & Ec'). destruct Hz as (rz & Hz & Ez').
  assert (Hl : exists r, In r (location db2)
                         /\ city_id r = dim_id rc /\ zipcode_id r = dim_id rz).
  { cbn [db2 upsert_cities_zipcodes_locations location].
    cbn [db2 upsert_cities_zipcodes_locations city] in Hc.
    cbn [db2 upsert_cities_zipcodes_locations zipcode] in Hz.
    set (c2 := insert_all make_dim dim_id (new_cities rows (city db1)) (city db1)) in *.
    set (z2 := upsert_zipcodes rows (zipcode db1)) in *.
    assert (Hcand : In (dim_id rc, dim_id rz) (location_candidates rows c2 z2)).
    { unfold location_candidates. apply in_flat_map.
      exists (Some cc, Some cz). split.
      - apply nodup_In. apply in_map_iff. exists sc. split; [|exact Hsc].
        now rewrite (nullif_btrim_some _ _ Ec), Ez.
      - apply join_In. exists rc. split; [exact Hc|]. split; [now apply Ec'|].
        apply join_In. exists rz. split; [exact Hz|]. split; [now apply Ez'|now left]. }
    pose proof (insert_do_nothing_covers _ _ location_conflict make_location location_id
                  location_conflict_make _ (location db1) _ Hcand) as Hcov.
    apply existsb_exists in Hcov as (r & Hr & Hk).
    apply location_conflict_key in Hk. injection Hk as H1 H2.
    exists r. auto. }
  destruct Hl as (rl & Hl & El1 & El2).
  exists (dim_id rtt, item_subtype_id rst, location_id rl).
  apply resolve_In. exists rtt, rit, rst, rc, rz, rl.
  repeat split; auto.
  - apply Ett'. now apply nullif_btrim_some.
  - apply Eit'. now apply nullif_btrim_some.
  - apply eq_text_some. rewrite Est2. now apply nullif_btrim_some.
  - apply Ec'. now apply nullif_btrim_some.
Qed.

(* ------------------------------------------------------------------ *)
(** ** Upserts by key *)

Section DoUpdateKeys.

Variables (R C K V : Type).
Variable conflict : C -> R -> bool.
Variable make : Z -> C -> R.
Variable set : C -> R -> R.
Variable pk : R -> Z.
Variable key : R -> K.
Variable ckey : C -> K.
Variable stamp : R -> V.
Hypothesis conflict_key : forall c r, conflict c r = true <-> key r = ckey c.
Hypothesis key_make : forall i c, key (make i c) = ckey c.
Hypothesis key_set : forall c r, key (set c r) = key r.
Hypothesis stamp_set : forall c r, stamp (set c r) = stamp r.

Local Abbreviation upsert := (upsert_row conflict make set pk).

Lemma upsert_row_map_set (f : R -> V) tbl c :
  (forall c r, f (set c r) = f r) ->
  map f (map (fun r => if conflict c r then set c r else r) tbl) = map f tbl.
Proof.
  intros Hf. rewrite map_map. apply map_ext. intros r.
  destruct (conflict c r); [apply Hf|reflexivity].
Qed.

Lemma upsert_all_stamps cands : forall tbl,
  exists more, map stamp (fold_left upsert cands tbl) = map stamp tbl ++ more.
Proof.
  induction cands as [|c cs IH]; intros tbl; cbn [fold_left].
  - exists []. now rewrite app_nil_r.
  - destruct (IH (upsert tbl c)) as (more & ->). unfold upsert_row.
    destruct (existsb (conflict c) tbl).
    + exists more. now rewrite upsert_row_map_set.
    + eexists. rewrite map_app, <- app_assoc. reflexivity.
Qed.

Lemma upsert_row_key_NoDup tbl c :
  NoDup (map key tbl) -> NoDup (map key (upsert tbl c)).
Proof.
  intros H. unfold upsert_row. destruct (existsb (conflict c) tbl) eqn:E.
  - assert (Em : map key (map (fun r => if conflict c r then set c r else r) tbl)
                 = map key tbl).
    { rewrite map_map. apply map_ext. intros r.
      destruct (conflict c r); [apply key_set|reflexivity]. }
    now rewrite Em.
  - rewrite map_app. cbn [map]. rewrite key_make.
    apply NoDup_app; [exact H|repeat constructor; intros []|].
    intros k Hk [<-|[]].
    apply (existsb_conflict_key _ _ _ conflict key ckey conflict_key) in Hk. congruence.
Qed.

Lemma upsert_all_key_NoDup cands : forall tbl,
  NoDup (map key tbl) -> NoDup (map key (fold_left upsert cands tbl)).
Proof.
  induction cands as [|c cs IH]; intros tbl H; [exact H|].
  cbn [fold_left]. apply IH. now apply upsert_row_key_NoDup.
Qed.

(** Rows that no proposed row is in conflict with are left as they are. *)
Lemma upsert_all_others (p : R -> bool) cands :
  (forall c r, In c cands -> p r = true -> conflict c r = false) ->
  (forall i c, In c cands -> p (make i c) = false) ->
  forall tbl, filter p (fold_left upsert cands tbl) = filter p tbl.
Proof.
  induction cands as [|c cs IH]; intros Hp Hm tbl; [reflexivity|].
  cbn [fold_left]. rewrite IH.
  2:{ intros c' r Hc'. apply Hp. now right. }
  2:{ intros i c' Hc'. apply Hm. now right. }
  unfold upsert_row. destruct (existsb (conflict c) tbl).
  - induction tbl as [|r t IHt]; [reflexivity|].
    cbn [map filter]. destruct (conflict c r) eqn:Ec.
    + assert (Hr : p r = false).
      { destruct (p r) eqn:Er; [|reflexivity].
        rewrite (Hp c r (or_introl eq_refl) Er) in Ec. discriminate. }
      assert (Hs : p (set c r) = false).
      { destruct (p (set c r)) eqn:Er; [|reflexivity].
        pose proof (Hp c (set c r) (or_introl eq_refl) Er) as Hc.
        assert (conflict c (set c r) = true); [|congruence].
        apply conflict_key. rewrite key_set. now apply conflict_key. }
      now rewrite Hr, Hs.
    + destruct (p r); [f_equal|]; exact IHt.
  - rewrite filter_app. cbn [filter]. rewrite (Hm _ c (or_introl eq_refl)).
    apply app_nil_r.
Qed.

End DoUpdateKeys.

Lemma listing_conflict_key (c : string * listing_attrs) (r : listing_row) :
  listing_conflict c r = true <-> external_listing_id r = fst c.
Proof. unfold listing_conflict. apply String.eqb_eq. Qed.

Lemma proposed_listing_key (sc : staged) (ids : Z * Z * Z) (c : string * listing_attrs) :
  proposed_listing (sc, ids) = inr c ->
  nullif_btrim (sc_listing_id sc) = Some (fst c)
  /\ transaction_type_id (snd c) = fst (fst ids)
  /\ l_item_subtype_id (snd c) = snd (fst ids)
  /\ l_location_id (snd c) = snd ids
  /\ year_1800_2100 (sc_build_year sc) = inr (build_year (snd c))
  /\ is_new_construction (snd c) = bool_or_null (sc_is_new_construction sc)
  /\ has_passenger_lift (snd c) = bool_or_null (sc_has_passenger_lift sc)
  /\ has_cellar (snd c) = bool_or_null (sc_has_cellar sc)
  /\ is_furnished (snd c) = bool_or_null (sc_is_furnished sc).
Proof.
  unfold proposed_listing. intros H.
  destruct (year_1800_2100 (sc_build_year sc)) as [e|y]; [discriminate|].
  cbn [bind] in H.
  destruct (nullif_btrim (sc_listing_id sc)) as [k|]; [|discriminate].
  cbn [not_null bind ok] in H. injection H as <-. repeat split.
Qed.

Lemma upsert_listings_inv (rows : list staged) (db db' : database) :
  upsert_listings rows db = inr db' ->
  exists cands,
    mapM proposed_listing (flat_map (fun sc => map (pair sc) (resolve db sc)) rows)
    = inr cands
    /\ repeated_key same_fst cands = false
    /\ listing db'
       = fold_left (upsert_row listing_conflict make_listing set_listing l_id)
           cands (listing db).
Proof.
  unfold upsert_listings. intros H.
  destruct (mapM proposed_listing _) as [e|cands]; [discriminate|].
  cbn [bind] in H. unfold insert_do_update in H.
  destruct (repeated_key same_fst cands) eqn:E; [discriminate|].
  cbn [bind ok] in H. injection H as <-. exists cands. auto.
Qed.

Lemma mapM_from {A B} (f : A -> result B) :
  forall l l' b, mapM f l = inr l' -> In b l' -> exists a, In a l /\ f a = inr b.
Proof.
  induction l as [|a l IH]; intros l' b H Hb; cbn [mapM] in H.
  - injection H as <-. destruct Hb.
  - destruct (f a) as [e|b0] eqn:Ea; [discriminate|]. cbn [bind] in H.
    destruct (mapM f l) as [e|bs] eqn:El; [discriminate|]. cbn [bind ok] in H.
    injection H as <-. destruct Hb as [<-|Hb].
    + exists a. split; [now left|exact Ea].
    + destruct (IH bs b eq_refl Hb) as (a' & Ha' & E'). exists a'. split; [now right|exact E'].
Qed.

(* ------------------------------------------------------------------ *)
(** ** Listing master *)

Lemma resolve_no_zipcode (db : database) (sc : staged) :
  norm_zip_5 (sc_zipcode sc) = None -> resolve db sc = [].
Proof.
  intros Hz. destruct (resolve db sc) as [|x t] eqn:E; [reflexivity|].
  assert (Hx : In x (resolve db sc)) by (rewrite E; now left).
  apply resolve_In in Hx
    as (rtt & rit & rst & rc & rz & rl & _ & _ & _ & _ & [_ Ez] & _).
  rewrite Hz in Ez. discriminate.
Qed.

Lemma candidate_origin (rows : list staged) (db : database)
    (cands : list (string * listing_attrs)) (c : string * listing_attrs) :
  mapM proposed_listing (flat_map (fun sc => map (pair sc) (resolve db sc)) rows)
  = inr cands ->
  In c cands ->
  exists sc ids, In sc rows /\ In ids (resolve db sc)
                 /\ proposed_listing (sc, ids) = inr c.
Proof.
  intros H Hc. destruct (mapM_from _ _ _ _ H Hc) as ([sc ids] & Hin & E).
  apply in_flat_map in Hin as (sc' & Hsc & Hp).
  apply in_map_iff in Hp as (ids' & [= <- <-] & Hids).
  now exists sc', ids'.
Qed.

(** A usable row is put to the listing upsert. *)
Lemma usable_row_proposed (rows : list staged) (db : database)
    (cands : list (string * listing_attrs)) (sc : staged) :
  mapM proposed_listing
    (flat_map (fun sc => map (pair sc)
       (resolve (upsert_cities_zipcodes_locations rows (upsert_dimensions rows db)) sc))
       rows) = inr cands ->
  In sc rows -> usable sc ->
  exists ids c, proposed_listing (sc, ids) = inr c /\ In c cands.
Proof.
  intros Hm Hsc Hu.
  destruct (usable_resolves rows db sc Hsc Hu) as (ids & Hids).
  assert (Hin : In (sc, ids)
                  (flat_map (fun sc => map (pair sc)
                     (resolve (upsert_cities_zipcodes_locations rows
                                 (upsert_dimensions rows db)) sc)) rows)).
  { apply in_flat_map. exists sc. split; [exact Hsc|]. now apply in_map. }
  destruct (mapM_In _ _ _ _ Hm Hin) as (c & Ec & Hc).
  now exists ids, c.
Qed.

(** What the listing upsert was given for a key is what the listing of
    that key holds afterwards. *)
Lemma proposal_is_stored (cands : list (string * listing_attrs))
    (tbl : list listing_row) (c : string * listing_attrs) :
  repeated_key same_fst cands = false ->
  In c cands ->
  exists r,
    In r (fold_left (upsert_row listing_conflict make_listing set_listing l_id) cands tbl)
    /\ external_listing_id r = fst c
    /\ attrs r = snd c.
Proof.
  intros Hrep Hc.
  pose proof (upsert_all_settled _ _ listing_conflict same_fst make_listing set_listing l_id
                listing_conflict_make (fun _ _ _ => eq_refl) listing_one_key
                (fun _ _ => eq_refl) (fun _ _ => eq_refl)
                cands tbl Hrep c Hc) as [Hex Hset].
  apply existsb_exists in Hex as (r & Hr & Hcr).
  pose proof (Hset r Hr Hcr) as Es.
  exists r. split; [exact Hr|]. split.
  - now apply listing_conflict_key.
  - rewrite <- Es. reflexivity.
Qed.

(** The business key of a usable row has a listing after the upsert. *)
Lemma usable_key_listed (rows : list staged) (db db3 : database)
    (sc : staged) (k : string) :
  upsert_listings rows
    (upsert_cities_zipcodes_locations rows (upsert_dimensions rows db)) = inr db3 ->
  In sc rows -> usable sc ->
  nullif_btrim (sc_listing_id sc) = Some k ->
  exists r, In r (listing db3) /\ external_listing_id r = k.
Proof.
  intros H Hsc Hu Hk.
  destruct (upsert_listings_inv _ _ _ H) as (cands & Hm & Hrep & Hl).
  destruct (usable_row_proposed rows db cands sc Hm Hsc Hu) as (ids & c & Ec & Hc).
  destruct (proposed_listing_key _ _ _ Ec) as (Ek & _).
  destruct (proposal_is_stored cands
              (listing (upsert_cities_zipcodes_locations rows (upsert_dimensions rows db)))
              c Hrep Hc) as (r & Hr & Ekr & _).
  rewrite <- Hl in Hr. exists r. split; [exact Hr|]. congruence.
Qed.

(** X13.  A staged row that is usable is loaded: once the listing upsert has
    gone through, the listing of its business key is on file with the
    build year and the four flags read from this row. *)
Theorem usable_rows_are_loaded (rows : list staged) (db db3 : database)
    (sc : staged) (k : string) :
  upsert_listings rows
    (upsert_cities_zipcodes_locations rows (upsert_dimensions rows db)) = inr db3 ->
  In sc rows -> usable sc ->
  nullif_btrim (sc_listing_id sc) = Some k ->
  exists r, In r (listing db3)
            /\ external_listing_id r = k
            /\ year_1800_2100 (sc_build_year sc) = inr (build_year (attrs r))
            /\ is_new_construction (attrs r) = bool_or_null (sc_is_new_construction sc)
            /\ has_passenger_lift (attrs r) = bool_or_null (sc_has_passenger_lift sc)
            /\ has_cellar (attrs r) = bool_or_null (sc_has_cellar sc)
            /\ is_furnished (attrs r) = bool_or_null (sc_is_furnished sc).
Proof.
  intros H Hsc Hu Hk.
  destruct (upsert_listings_inv _ _ _ H) as (cands & Hm & Hrep & Hl).
  destruct (usable_row_proposed rows db cands sc Hm Hsc Hu) as (ids & c & Ec & Hc).
  destruct (proposed_listing_key _ _ _ Ec) as (Ek & _ & _ & _ & Ey & E1 & E2 & E3 & E4).
  destruct (proposal_is_stored cands
              (listing (upsert_cities_zipcodes_locations rows (upsert_dimensions rows db)))
              c Hrep Hc) as (r & Hr & Ekr & Ea).
  rewrite <- Hl in Hr.
  exists r. rewrite Ea. repeat split; auto. congruence.
Qed.

(** X14.  A business key whose rows all lack a usable zipcode is passed over by
    the listing upsert: no listing is created for it and the listing it
    has is not updated. *)
Theorem rows_without_zipcode_are_skipped (rows : list staged) (db db' : database)
    (k : string) :
  upsert_listings rows db = inr db' ->
  (forall sc, In sc rows -> nullif_btrim (sc_listing_id sc) = Some k ->
              norm_zip_5 (sc_zipcode sc) = None) ->
  filter (fun r => String.eqb (external_listing_id r) k) (listing db')
  = filter (fun r => String.eqb (external_listing_id r) k) (listing db).
Proof.
  intros H Hz.
  destruct (upsert_listings_inv _ _ _ H) as (cands & Hm & _ & ->).
  assert (Hk : forall c, In c cands -> fst c <> k).
  { intros c Hc Ek.
    destruct (candidate_origin _ _ _ _ Hm Hc) as (sc & ids & Hsc & Hids & Ep).
    destruct (proposed_listing_key _ _ _ Ep) as (Ekey & _).
    rewrite Ek in Ekey.
    rewrite (resolve_no_zipcode db sc (Hz sc Hsc Ekey)) in Hids. destruct Hids. }
  apply (upsert_all_others _ _ _ listing_conflict make_listing set_listing l_id
           external_listing_id fst listing_conflict_key (fun _ _ => eq_refl)).
  - intros c r Hc Hr. apply String.eqb_eq in Hr.
    unfold listing_conflict. apply String.eqb_neq. rewrite Hr.
    intros E. now apply (Hk c Hc).
  - intros i c Hc. cbn. apply String.eqb_neq. now apply Hk.
Qed.

Lemma rows_without_zipcode_are_skipped_witness :
  exists db',
    upsert_listings no_zipcode_rows (store duplicate_key_load) = inr db'
    /\ filter (fun r => String.eqb (external_listing_id r) "B-200") (listing db') = [].
Proof.
  eexists. split; [vm_compute; reflexivity|].
  rewrite (rows_without_zipcode_are_skipped no_zipcode_rows (store duplicate_key_load)
             _ "B-200").
  - vm_compute. reflexivity.
  - vm_compute. reflexivity.
  - intros sc [<-|[]] _. vm_compute. reflexivity.
Defined.

(** X15.  The listing upsert never deletes a listing and never changes the id
    or the business key of one; business keys that were unique stay
    unique. *)
Theorem listing_ids_and_keys_are_stable (rows : list staged) (db db' : database) :
  upsert_listings rows db = inr db' ->
  (exists more,
      map (fun r => (l_id r, external_listing_id r)) (listing db')
      = map (fun r => (l_id r, external_listing_id r)) (listing db) ++ more)
  /\ (NoDup (map external_listing_id (listing db)) ->
      NoDup (map external_listing_id (listing db'))).
Proof.
  intros H. destruct (upsert_listings_inv _ _ _ H) as (cands & _ & _ & ->). split.
  - apply upsert_all_stamps. reflexivity.
  - apply (upsert_all_key_NoDup _ _ _ listing_conflict make_listing set_listing l_id
             external_listing_id fst listing_conflict_key
             (fun _ _ => eq_refl) (fun _ _ => eq_refl)).
Qed.

Lemma listing_ids_and_keys_are_stable_witness :
  exists db',
    upsert_listings (staged_rows undated_batch) (store early_load) = inr db'
    /\ (exists more,
          map (fun r => (l_id r, external_listing_id r)) (listing db')
          = map (fun r => (l_id r, external_listing_id r)) (listing (store early_load))
            ++ more)
    /\ (NoDup (map external_listing_id (listing (store early_load))) ->
        NoDup (map external_listing_id (listing db'))).
Proof.
  eexists. split; [vm_compute; reflexivity|].
  apply (listing_ids_and_keys_are_stable (staged_rows undated_batch) (store early_load)).
  vm_compute. reflexivity.
Defined.

Lemma sample_row_usable (k p : option string) :
  usable (sample_row k (Some "75001") p (Some "50") None).
Proof. repeat split; eexists; vm_compute; reflexivity. Qed.

Lemma usable_rows_are_loaded_witness :
  exists db3 r,
    upsert_listings (staged_rows single_key_batch)
      (upsert_cities_zipcodes_locations (staged_rows single_key_batch)
         (upsert_dimensions (staged_rows single_key_batch) empty_database)) = inr db3
    /\ In r (listing db3)
    /\ external_listing_id r = "A-100"
    /\ build_year (attrs r) = None
    /\ is_furnished (attrs r) = None.
Proof.
  assert (E : exists db3,
             upsert_listings (staged_rows single_key_batch)
               (upsert_cities_zipcodes_locations (staged_rows single_key_batch)
                  (upsert_dimensions (staged_rows single_key_batch) empty_database))
             = inr db3) by (eexists; vm_compute; reflexivity).
  destruct E as (db3 & E). exists db3.
  destruct (usable_rows_are_loaded (staged_rows single_key_batch) empty_database db3
              (sample_row (Some "A-100") (Some "75001") (Some "200000") (Some "50") None)
              "A-100" E) as (r & Hr & Hk & Hy & _ & _ & _ & Hf).
  - vm_compute. now left.
  - apply sample_row_usable.
  - reflexivity.
  - exists r. split; [exact E|]. split; [exact Hr|]. split; [exact Hk|].
    split; [now injection Hy|exact Hf].
Defined.

Lemma mapM_app {A B} (f : A -> result B) (l1 l2 : list A) :
  forall l', mapM f (l1 ++ l2) = inr l' ->
  exists a b, mapM f l1 = inr a /\ mapM f l2 = inr b /\ l' = a ++ b.
Proof.
  induction l1 as [|x l1 IH]; intros l' H.
  - exists [], l'. auto.
  - cbn [app mapM] in *. destruct (f x) as [e|y]; [discriminate|]. cbn [bind] in *.
    destruct (mapM f (l1 ++ l2)) as [e|ys] eqn:E; [discriminate|].
    cbn [bind ok] in H. injection H as <-.
    destruct (IH ys eq_refl) as (a & b & -> & Hb & ->).
    exists (y :: a), b. auto.
Qed.

Lemma repeated_key_app {C} (same_key : C -> C -> bool) (l1 l2 : list C) :
  repeated_key same_key l2 = true -> repeated_key same_key (l1 ++ l2) = true.
Proof.
  intros H. induction l1 as [|x l1 IH]; [exact H|].
  cbn [app repeated_key]. rewrite IH. apply orb_true_r.
Qed.

Lemma repeated_key_found {C} (same_key : C -> C -> bool) (x y : C) (l : list C) :
  In y l -> same_key x y = true -> repeated_key same_key (x :: l) = true.
Proof.
  intros Hy E. cbn [repeated_key].
  assert (existsb (same_key x) l = true) as ->; [|reflexivity].
  apply existsb_exists. now exists y.
Qed.

(** Two rows of the batch that resolve and carry one business key make
    the listing upsert fail. *)
Lemma repeated_key_raises (rows r1 r2 r3 : list staged) (sc1 sc2 : staged)
    (db : database) (k : string) (i1 i2 : Z * Z * Z) :
  rows = r1 ++ sc1 :: r2 ++ sc2 :: r3 ->
  In i1 (resolve db sc1) -> In i2 (resolve db sc2) ->
  nullif_btrim (sc_listing_id sc1) = Some k ->
  nullif_btrim (sc_listing_id sc2) = Some k ->
  exists e, upsert_listings rows db = inl e.
Proof.
  intros -> H1 H2 K1 K2. unfold upsert_listings.
  set (g := fun sc => map (pair sc) (resolve db sc)).
  destruct (mapM proposed_listing (flat_map g (r1 ++ sc1 :: r2 ++ sc2 :: r3)))
    as [e|cands] eqn:Em; [now exists e|].
  cbn [bind]. unfold insert_do_update.
  assert (Hrep : repeated_key same_fst cands = true); [|rewrite Hrep; now eexists].
  rewrite flat_map_app, flat_map_head in Em.
  apply mapM_app in Em as (a & b & _ & Hb & ->).
  apply repeated_key_app.
  destruct (resolve db sc1) as [|j1 t1] eqn:E1; [destruct H1|].
  unfold g at 1 in Hb. rewrite E1 in Hb. cbn [map app mapM] in Hb.
  destruct (proposed_listing (sc1, j1)) as [e|c1] eqn:Ec1; [discriminate|].
  cbn [bind] in Hb.
  destruct (mapM proposed_listing (map (pair sc1) t1 ++ flat_map g (r2 ++ sc2 :: r3)))
    as [e|b'] eqn:Eb; [discriminate|].
  cbn [bind ok] in Hb. injection Hb as <-.
  assert (Hin : In (sc2, i2) (map (pair sc1) t1 ++ flat_map g (r2 ++ sc2 :: r3))).
  { apply in_or_app. right. apply in_flat_map. exists sc2.
    split; [apply in_or_app; right; now left|]. unfold g. now apply in_map. }
  destruct (mapM_In _ _ _ _ Eb Hin) as (c2 & Ec2 & Hc2).
  apply (repeated_key_found _ _ c2); [exact Hc2|].
  destruct (proposed_listing_key _ _ _ Ec1) as (E1' & _).
  destruct (proposed_listing_key _ _ _ Ec2) as (E2' & _).
  unfold same_fst. apply String.eqb_eq. congruence.
Qed.

(** X16.  A batch in which two usable rows carry one business key is rejected
    as a whole: the run raises and the store is left as it was. *)
Theorem duplicate_loadable_key_rejected (timestamptz_in : timestamptz_parser) (now : Z)
    (f : csv_file) (db : database) (r1 r2 r3 : list staged) (sc1 sc2 : staged)
    (k : string) :
  staged_rows f = r1 ++ sc1 :: r2 ++ sc2 :: r3 ->
  usable sc1 -> usable sc2 ->
  nullif_btrim (sc_listing_id sc1) = Some k ->
  nullif_btrim (sc_listing_id sc2) = Some k ->
  raised (run_pipeline timestamptz_in now f db) <> None
  /\ store (run_pipeline timestamptz_in now f db) = db
  /\ ~ In Descriptions (journal (run_pipeline timestamptz_in now f db)).
Proof.
  intros Hrows U1 U2 K1 K2. unfold run_pipeline.
  destruct (assert_expected_headers (read_csv_header f)) as [e|h] eqn:Eh.
  { cbn. repeat split; [discriminate|tauto]. }
  unfold load_unit.
  destruct (copy_csv_into_staging f (read_csv_header f) h) as [e|rows] eqn:Ec.
  { cbn. repeat split; [discriminate|intuition discriminate]. }
  pose proof (copy_staged_rows _ _ _ Eh Ec) as ->.
  assert (S1 : In sc1 (staged_rows f)).
  { rewrite Hrows. apply in_or_app. right. now left. }
  assert (S2 : In sc2 (staged_rows f)).
  { rewrite Hrows. apply in_or_app. right. right. apply in_or_app. right. now left. }
  destruct (usable_resolves _ db _ S1 U1) as (i1 & H1).
  destruct (usable_resolves _ db _ S2 U2) as (i2 & H2).
  destruct (repeated_key_raises _ _ _ _ _ _ _ k i1 i2 Hrows H1 H2 K1 K2) as (e & Ee).
  cbn [logged ok]. rewrite Ee. cbn.
  repeat split; [discriminate|intuition discriminate].
Qed.

Lemma duplicate_loadable_key_rejected_witness :
  raised (run_pipeline no_timestamps 10 repeated_key_batch empty_database) <> None
  /\ store (run_pipeline no_timestamps 10 repeated_key_batch empty_database)
     = empty_database
  /\ ~ In Descriptions
         (journal (run_pipeline no_timestamps 10 repeated_key_batch empty_database)).
Proof.
  apply (duplicate_loadable_key_rejected no_timestamps 10 repeated_key_batch empty_database
           [] [] []
           (sample_row (Some "A-100") (Some "75001") (Some "200000") (Some "50") None)
           (sample_row (Some "A-100") (Some "75001") (Some "210000") (Some "50") None)
           "A-100").
  - vm_compute. reflexivity.
  - apply sample_row_usable.
  - apply sample_row_usable.
  - reflexivity.
  - reflexivity.
Defined.

(* ------------------------------------------------------------------ *)
(** ** Descriptions of other listings *)

Lemma description_pick_incl (src : list (option string * string)) (x : option string * string) :
  In x (description_pick src) -> In x src.
Proof. exact (description_pick_by_incl _ order_by_length_desc_ok src x). Qed.

Lemma description_conflict_key (c : Z * string) (r : description_row) :
  description_conflict c r = true <-> d_listing_id r = fst c.
Proof. unfold description_conflict. apply Z.eqb_eq. Qed.

Lemma upsert_descriptions_inv (rows : list staged) (db db' : database) :
  upsert_descriptions rows db = inr db' ->
  listing_description db'
  = fold_left (upsert_row description_conflict make_description set_description
                 d_listing_id)
      (description_candidates rows (listing db)) (listing_description db).
Proof.
  unfold upsert_descriptions, upsert_descriptions_by, insert_do_update. intros H.
  destruct (repeated_key same_listing _); [discriminate|].
  cbn [bind ok] in H. now injection H as <-.
Qed.

(** X17.  A listing for which the batch brings no description text keeps the
    description it has: a blank or missing description never erases or
    replaces a stored one. *)
Theorem description_kept_without_new_text (rows : list staged) (db db' : database)
    (i : Z) :
  upsert_descriptions rows db = inr db' ->
  (forall r b, In r (listing db) -> l_id r = i ->
               ~ described rows (external_listing_id r) b) ->
  filter (fun d => d_listing_id d =? i) (listing_description db')
  = filter (fun d => d_listing_id d =? i) (listing_description db).
Proof.
  intros H Hno. rewrite (upsert_descriptions_inv _ _ _ H).
  assert (Hc : forall c, In c (description_candidates rows (listing db)) -> fst c <> i).
  { intros [i' b] Hin Ei. cbn [fst] in Ei. subst i'.
    apply description_candidates_In in Hin as (k & r & Hp & Hr & Ek & Ei).
    apply description_pick_incl, description_src_In in Hp.
    apply (Hno r b Hr Ei). now rewrite Ek. }
  apply (upsert_all_others _ _ _ description_conflict make_description set_description
           d_listing_id d_listing_id fst description_conflict_key (fun _ _ => eq_refl)).
  - intros c r Hin Hr. apply Z.eqb_eq in Hr.
    unfold description_conflict. apply Z.eqb_neq. rewrite Hr.
    intros E. now apply (Hc c Hin).
  - intros i0 c Hin. cbn. apply Z.eqb_neq. now apply Hc.
Qed.

Lemma description_kept_without_new_text_witness :
  exists db',
    upsert_descriptions no_zipcode_rows (store described_load) = inr db'
    /\ filter (fun d => d_listing_id d =? 1) (listing_description db')
       = [ {| d_listing_id := 1; lang := "fr"; body := "nice flat" |} ].
Proof.
  eexists. split; [vm_compute; reflexivity|].
  rewrite (description_kept_without_new_text no_zipcode_rows (store described_load) _ 1).
  - vm_compute. reflexivity.
  - vm_compute. reflexivity.
  - intros r b Hr _ (sc & [<-|[]] & _ & Hd). vm_compute in Hd. discriminate.
Defined.

(** X18.  The description upsert keeps one row per listing and deletes none. *)
Theorem descriptions_stay_one_per_listing (rows : list staged) (db db' : database) :
  upsert_descriptions rows db = inr db' ->
  (exists more,
      map d_listing_id (listing_description db')
      = map d_listing_id (listing_description db) ++ more)
  /\ (NoDup (map d_listing_id (listing_description db)) ->
      NoDup (map d_listing_id (listing_description db'))).
Proof.
  intros H. rewrite (upsert_descriptions_inv _ _ _ H). split.
  - apply upsert_all_stamps. reflexivity.
  - apply (upsert_all_key_NoDup _ _ _ description_conflict make_description
             set_description d_listing_id d_listing_id fst description_conflict_key
             (fun _ _ => eq_refl) (fun _ _ => eq_refl)).
Qed.

Lemma descriptions_stay_one_per_listing_witness :
  exists db',
    upsert_descriptions two_descriptions (store duplicate_key_load) = inr db'
    /\ (exists more,
          map d_listing_id (listing_description db')
          = map d_listing_id (listing_description (store duplicate_key_load)) ++ more)
    /\ (NoDup (map d_listing_id (listing_description (store duplicate_key_load))) ->
        NoDup (map d_listing_id (listing_description db'))).
Proof.
  eexists. split; [vm_compute; reflexivity|].
  apply (descriptions_stay_one_per_listing two_descriptions (store duplicate_key_load)).
  vm_compute. reflexivity.
Defined.

(* ------------------------------------------------------------------ *)
(** ** The history only grows *)

Lemma close_version_same (delta : list incoming_row) (t : version_row) :
  same_but_closed t (close_version delta t).
Proof.
  unfold same_but_closed. split; [apply close_version_listing|].
  split; [apply close_version_from|].
  unfold close_version. destruct (find (closes t) delta) as [d|] eqn:E; cbn; auto.
  repeat split. intros e He.
  apply find_some in E as [_ Hc]. unfold closes, is_open in Hc. rewrite He in Hc.
  rewrite andb_false_r in Hc. discriminate.
Qed.

Lemma same_but_closed_refl (t : version_row) : same_but_closed t t.
Proof. unfold same_but_closed. auto. Qed.

(** X19.  The SCD-2 engine never deletes a version and never rewrites one: the
    table after it is the table before it, row by row, but for the
    valid_to set on rows that had none, followed by the new versions; and
    every new version is open and carries an incoming fact as it came. *)
Theorem history_is_append_only (incoming : list incoming_row)
    (versions : list version_row) :
  exists kept added,
    apply_scd2 incoming versions = kept ++ added
    /\ Forall2 same_but_closed versions kept
    /\ Forall (fun n => exists d, In d incoming /\ n = new_version d) added.
Proof.
  unfold apply_scd2. destruct (stg_delta incoming versions) as [|d ds] eqn:E.
  - exists versions, []. rewrite app_nil_r. split; [reflexivity|]. split; [|constructor].
    clear E. induction versions; constructor; auto using same_but_closed_refl.
  - unfold insert_new_versions. eexists. eexists. split; [reflexivity|]. split.
    + unfold close_open_versions. clear E.
      induction versions; cbn [map]; constructor; auto using close_version_same.
    + apply Forall_forall. intros n Hn.
      apply in_map_iff in Hn as (d' & <- & Hd). apply filter_In in Hd as [Hd _].
      exists d'. split; [|reflexivity].
      apply (stg_delta_incl incoming versions). now rewrite E.
Qed.

(* ------------------------------------------------------------------ *)
(** ** Succession without a gap *)

Lemma find_the_fact (delta : list incoming_row) (cur : version_row) (f : incoming_row) :
  one_fact_per_listing delta ->
  In f delta -> closes cur f = true ->
  find (closes cur) delta = Some f.
Proof.
  intros Hd Hf Hc.
  destruct (find (closes cur) delta) as [d|] eqn:E.
  - apply find_some in E as [Hin Hcd]. f_equal.
    apply (NoDup_map_inj inc_listing_id delta d f Hd Hin Hf).
    unfold closes in Hc, Hcd.
    apply andb_prop in Hc as [Hc _]. apply andb_prop in Hc as [Hc _].
    apply andb_prop in Hcd as [Hcd _]. apply andb_prop in Hcd as [Hcd _].
    apply Z.eqb_eq in Hc, Hcd. congruence.
  - rewrite (find_none _ _ E f Hf) in Hc. discriminate.
Qed.

(** X20.  A changed fact that is not out of order closes the open version of
    its listing at its own valid_from and opens the new version from that
    same instant: the listing is never left without a current version and
    no time is left uncovered between the two. *)
Theorem changed_fact_succeeds_without_gap (incoming : list incoming_row)
    (versions : list version_row) (f : incoming_row) (cur : version_row) :
  one_open versions ->
  one_fact_per_listing incoming ->
  In f incoming -> In cur versions ->
  listing_id cur = inc_listing_id f ->
  valid_to cur = None ->
  facts_differ (v_facts cur) (inc_facts f) ->
  valid_from cur <= inc_valid_from f ->
  In (closed_at (inc_valid_from f) cur) (apply_scd2 incoming versions)
  /\ In (new_version f) (apply_scd2 incoming versions).
Proof.
  intros H1 Hi Hf Hcur Eid Eto Hdiff Hle.
  assert (Hfd : In f (stg_delta incoming versions)).
  { rewrite (stg_delta_filter _ _ H1). apply filter_In. split; [exact Hf|].
    apply (is_delta_spec versions f H1). right. now exists cur. }
  assert (Hc : closes cur f = true).
  { unfold closes. rewrite Eid, Z.eqb_refl. unfold is_open. rewrite Eto.
    cbn [andb]. now apply Z.leb_le. }
  pose proof (stg_delta_one_fact _ _ H1 Hi) as Hd.
  unfold apply_scd2. destruct (stg_delta incoming versions) as [|d ds] eqn:E;
    [destruct Hfd|].
  unfold insert_new_versions. split; apply in_or_app.
  - left. unfold close_open_versions. apply in_map_iff. exists cur.
    split; [|exact Hcur]. unfold close_version.
    now rewrite (find_the_fact _ _ _ Hd Hfd Hc).
  - right. now apply (reopened (d :: ds) versions cur f H1 Hcur Hfd Hc).
Qed.

Lemma changed_fact_succeeds_without_gap_witness :
  In (closed_at 10 (new_version (fact_at 1 5 100)))
     (apply_scd2 [fact_at 1 10 200] sample_versions)
  /\ In (new_version (fact_at 1 10 200))
        (apply_scd2 [fact_at 1 10 200] sample_versions).
Proof.
  apply (changed_fact_succeeds_without_gap [fact_at 1 10 200] sample_versions
           (fact_at 1 10 200) (new_version (fact_at 1 5 100))).
  - exact sample_versions_one_open.
  - apply one_fact_singleton.
  - now left.
  - now left.
  - reflexivity.
  - reflexivity.
  - left. cbn. unfold same_value. cbn. lia.
  - cbn. lia.
Defined.

(* ------------------------------------------------------------------ *)
(** ** References between tables *)

Lemma extends_incl {A B} (f : A -> B) (tbl tbl' : list A) (x : B) :
  (exists more, tbl' = tbl ++ more) -> In x (map f tbl) -> In x (map f tbl').
Proof.
  intros (more & ->) H. rewrite map_app. apply in_or_app. now left.
Qed.

Lemma insert_do_nothing_all {R C} (conflict : C -> R -> bool) (make : Z -> C -> R)
    (pk : R -> Z) (P : R -> Prop) (cands : list C) :
  (forall i c, In c cands -> P (make i c)) ->
  forall tbl, (forall r, In r tbl -> P r) ->
  forall r, In r (insert_do_nothing conflict make pk cands tbl) -> P r.
Proof.
  unfold insert_do_nothing.
  induction cands as [|c cs IH]; intros Hm tbl Ht; [exact Ht|].
  cbn [fold_left]. apply IH.
  - intros i c' Hc'. apply Hm. now right.
  - unfold insert_row. destruct (existsb (conflict c) tbl); [exact Ht|].
    intros r Hr. apply in_app_or in Hr as [Hr|[<-|[]]]; [now apply Ht|].
    apply Hm. now left.
Qed.

Lemma upsert_all_all {R C} (conflict : C -> R -> bool) (make : Z -> C -> R)
    (set : C -> R -> R) (pk : R -> Z) (P : R -> Prop) (cands : list C) :
  (forall i c, In c cands -> P (make i c)) ->
  (forall c r, In c cands -> P r -> P (set c r)) ->
  forall tbl, (forall r, In r tbl -> P r) ->
  forall r, In r (fold_left (upsert_row conflict make set pk) cands tbl) -> P r.
Proof.
  induction cands as [|c cs IH]; intros Hm Hs tbl Ht; [exact Ht|].
  cbn [fold_left]. apply IH.
  - intros i c' Hc'. apply Hm. now right.
  - intros c' r Hc'. apply Hs. now right.
  - unfold upsert_row. destruct (existsb (conflict c) tbl).
    + intros r Hr. apply in_map_iff in Hr as (r0 & <- & Hr0).
      destruct (conflict c r0); [apply Hs; [now left|]|]; now apply Ht.
    + intros r Hr. apply in_app_or in Hr as [Hr|[<-|[]]]; [now apply Ht|].
      apply Hm. now left.
Qed.

Lemma references_dimensions (rows : list staged) (db : database) :
  references_hold db -> references_hold (upsert_dimensions rows db).
Proof.
  intros (Hst & Hloc & Hl & Hd & Hv).
  destruct (dimensions_grow rows db) as (Gtt & Git & Gst).
  unfold references_hold.
  cbn [upsert_dimensions transaction_type item_type item_subtype city zipcode location
       listing listing_description listing_version] in *.
  split; [|split; [exact Hloc|split; [|split; [exact Hd|exact Hv]]]].
  - apply insert_do_nothing_all.
    + intros i c Hc. cbn [make_subtype st_item_type_id].
      unfold subtype_candidates in Hc. apply in_flat_map in Hc as (p & _ & Hc).
      apply join_In in Hc as (r & Hr & _ & [<-|[]]). cbn [fst]. now apply in_map.
    + intros st Hin. apply (extends_incl dim_id _ _ _ Git). now apply Hst.
  - intros l Hin. destruct (Hl l Hin) as (H1 & H2 & H3). repeat split.
    + now apply (extends_incl dim_id _ _ _ Gtt).
    + now apply (extends_incl item_subtype_id _ _ _ Gst).
    + exact H3.
Qed.

Lemma references_locations (rows : list staged) (db : database) :
  references_hold db -> references_hold (upsert_cities_zipcodes_locations rows db).
Proof.
  intros (Hst & Hloc & Hl & Hd & Hv).
  assert (Gc : exists more,
             city (upsert_cities_zipcodes_locations rows db) = city db ++ more)
    by apply insert_all_extends.
  assert (Gz : exists more,
             zipcode (upsert_cities_zipcodes_locations rows db) = zipcode db ++ more)
    by apply insert_do_nothing_extends.
  assert (Gl : exists more,
             location (upsert_cities_zipcodes_locations rows db) = location db ++ more)
    by apply insert_do_nothing_extends.
  unfold references_hold.
  cbn [upsert_cities_zipcodes_locations transaction_type item_type item_subtype city
       zipcode location listing listing_description listing_version] in *.
  split; [exact Hst|split; [|split; [|split; [exact Hd|exact Hv]]]].
  - apply insert_do_nothing_all.
    + intros i c Hc. cbn [make_location city_id zipcode_id].
      unfold location_candidates in Hc. apply in_flat_map in Hc as (p & _ & Hc).
      apply join_In in Hc as (cr & Hcr & _ & Hc).
      apply join_In in Hc as (zr & Hzr & _ & [<-|[]]). cbn [fst snd].
      split; now apply in_map.
    + intros loc Hin. destruct (Hloc loc Hin) as [H1 H2]. split.
      * now apply (extends_incl dim_id _ _ _ Gc).
      * now apply (extends_incl dim_id _ _ _ Gz).
  - intros l Hin. destruct (Hl l Hin) as (H1 & H2 & H3). repeat split; auto.
    now apply (extends_incl location_id _ _ _ Gl).
Qed.

Lemma references_listings (rows : list staged) (db db' : database) :
  upsert_listings rows db = inr db' ->
  references_hold db -> references_hold db'.
Proof.
  intros H (Hst & Hloc & Hl & Hd & Hv).
  destruct (upsert_listings_inv _ _ _ H) as (cands & Hm & _ & El).
  destruct (upsert_listings_tables _ _ _ H)
    as (Ett & Eit & Est & Ec & Ez & Eloc & Ed & Ev & _).
  assert (Gl : exists more, map l_id (listing db') = map l_id (listing db) ++ more).
  { rewrite El. apply upsert_all_stamps. reflexivity. }
  unfold references_hold. rewrite Ett, Eit, Est, Ec, Ez, Eloc, Ed, Ev.
  split; [exact Hst|split; [exact Hloc|split; [|split]]].
  - rewrite El.
    assert (Hc : forall c, In c cands ->
               In (transaction_type_id (snd c)) (map dim_id (transaction_type db))
               /\ In (l_item_subtype_id (snd c)) (map item_subtype_id (item_subtype db))
               /\ In (l_location_id (snd c)) (map location_id (location db))).
    { intros c Hc.
      destruct (candidate_origin _ _ _ _ Hm Hc) as (sc & ids & _ & Hids & Ep).
      destruct (proposed_listing_key _ _ _ Ep) as (_ & -> & -> & -> & _).
      apply resolve_In in Hids
        as (rtt & rit & rst & rc & rz & rl & [H1 _] & _ & (H3 & _) & _ & _ & (H6 & _) & ->).
      cbn [fst snd]. repeat split; now apply in_map. }
    apply upsert_all_all.
    + intros i c Hin. cbn [make_listing attrs]. now apply Hc.
    + intros c r Hin _. cbn [set_listing attrs]. now apply Hc.
    + exact Hl.
  - intros d Hin. destruct Gl as (more & ->). apply in_or_app. left. now apply Hd.
  - intros v Hin. destruct Gl as (more & ->). apply in_or_app. left. now apply Hv.
Qed.

Lemma references_descriptions (rows : list staged) (db db' : database) :
  upsert_descriptions rows db = inr db' ->
  references_hold db -> references_hold db'.
Proof.
  intros H (Hst & Hloc & Hl & Hd & Hv).
  pose proof (upsert_descriptions_inv _ _ _ H) as Ed.
  destruct (upsert_descriptions_tables _ _ _ H)
    as (Ett & Eit & Est & Ec & Ez & Eloc & El & Ev).
  unfold references_hold. rewrite Ett, Eit, Est, Ec, Ez, Eloc, El, Ev, Ed.
  split; [exact Hst|split; [exact Hloc|split; [exact Hl|split; [|exact Hv]]]].
  apply upsert_all_all.
  - intros i [j b] Hin. cbn [make_description d_listing_id fst].
    apply description_candidates_In in Hin as (k & r & _ & Hr & _ & <-).
    now apply in_map.
  - intros c r _ Hr. exact Hr.
  - exact Hd.
Qed.

Lemma apply_scd2_rows (incoming : list incoming_row) (versions : list version_row)
    (v : version_row) :
  In v (apply_scd2 incoming versions) ->
  (exists t, In t versions /\ listing_id v = listing_id t)
  \/ (exists d, In d incoming /\ listing_id v = inc_listing_id d).
Proof.
  unfold apply_scd2. destruct (stg_delta incoming versions) as [|d ds] eqn:E.
  - intros H. left. now exists v.
  - unfold insert_new_versions, close_open_versions. intros H.
    apply in_app_or in H as [H|H].
    + apply in_map_iff in H as (t & <- & Ht). left. exists t.
      split; [exact Ht|apply close_version_listing].
    + apply in_map_iff in H as (d' & <- & Hd). apply filter_In in Hd as [Hd _].
      right. exists d'. split; [|reflexivity].
      apply (stg_delta_incl incoming versions). now rewrite E.
Qed.

Lemma incoming_join_listing (rows : list staged) (l : list listing_row)
    (p : staged * listing_row) :
  In p (incoming_join rows l) -> In (snd p) l.
Proof.
  unfold incoming_join. intros H. apply in_flat_map in H as (sc & _ & H).
  apply in_map_iff in H as (r & <- & Hr). apply filter_In in Hr as [Hr _]. exact Hr.
Qed.

Lemma references_scd2 (timestamptz_in : timestamptz_parser) (now : Z)
    (rows : list staged) (db db' : database) :
  build_incoming_and_apply_scd2 timestamptz_in now rows db = inr db' ->
  references_hold db -> references_hold db'.
Proof.
  intros H (Hst & Hloc & Hl & Hd & Hv). unfold build_incoming_and_apply_scd2 in H.
  destruct (stg_listing_incoming timestamptz_in now rows (listing db))
    as [e|incoming] eqn:Ei; [discriminate|].
  cbn [bind ok] in H. injection H as <-. unfold references_hold.
  cbn [transaction_type item_type item_subtype city zipcode location listing
       listing_description listing_version].
  split; [exact Hst|split; [exact Hloc|split; [exact Hl|split; [exact Hd|]]]].
  intros v Hin. apply apply_scd2_rows in Hin as [(t & Ht & ->)|(d & Hin & ->)].
  - now apply Hv.
  - pose proof (stg_listing_incoming_ids _ _ _ _ _ Ei) as Eids.
    assert (Hid : In (inc_listing_id d) (map inc_listing_id incoming)) by now apply in_map.
    rewrite Eids in Hid. apply in_map_iff in Hid as (p & <- & Hp).
    apply in_map. now apply (incoming_join_listing rows).
Qed.

(** X21.  Whatever the batch, a run leaves every reference between the tables
    in place: the loader itself never stores a subtype without its item
    type, a location without its city and zipcode, a listing without its
    transaction type, subtype and location, or a description or version
    without its listing. *)
Theorem references_survive_a_run (timestamptz_in : timestamptz_parser) (now : Z)
    (f : csv_file) (db : database) :
  references_hold db ->
  references_hold (store (run_pipeline timestamptz_in now f db)).
Proof.
  intros H. unfold run_pipeline.
  destruct (assert_expected_headers (read_csv_header f)) as [e|h]; [exact H|].
  destruct (load_unit timestamptz_in now f (read_csv_header f) h db) as [j [e|db5]] eqn:E;
    [exact H|].
  cbn [store].
  destruct (load_unit_inv _ _ _ _ _ _ _ _ E) as (rows & db3 & db4 & _ & E3 & E4 & E5).
  apply (references_scd2 _ _ _ _ _ E5).
  apply (references_descriptions _ _ _ E4).
  apply (references_listings _ _ _ E3).
  apply references_locations, references_dimensions, H.
Qed.

Lemma references_hold_empty : references_hold empty_database.
Proof. unfold references_hold. cbn. intuition. Qed.

Lemma references_survive_a_run_witness :
  references_hold (store duplicate_key_load).
Proof.
  apply (references_survive_a_run iso_date_in (day "2024-03-01") duplicate_key_batch
           empty_database).
  exact references_hold_empty.
Defined.

(* ------------------------------------------------------------------ *)
(** ** Where an incoming fact comes from *)

Lemma incoming_of_dates timestamptz_in now sc r f :
  incoming_of timestamptz_in now (sc, r) = inr f ->
  ts_or_null timestamptz_in (sc_change_date sc) = inr (inc_source_change_ts f)
  /\ match inc_source_change_ts f with
     | Some t => inc_valid_from f = t
     | None =>
         exists s, ts_or_null timestamptz_in (sc_start_date sc) = inr s
                   /\ inc_valid_from f = match s with Some t => t | None => now end
     end.
Proof.
  unfold incoming_of. intros H.
  destruct (ts_or_null timestamptz_in (sc_change_date sc)) as [e|[t|]];
    [discriminate| |]; cbn [bind ok] in H.
  - bind_inv H. injection H as <-. cbn. auto.
  - destruct (ts_or_null timestamptz_in (sc_start_date sc)) as [e|s];
      [discriminate|]; cbn [bind ok] in H.
    bind_inv H. injection H as <-. cbn. split; [reflexivity|]. now exists s.
Qed.

(** X23.  Every incoming fact stems from a batch row joined to the listing of
    its business key.  Its valid_from is the change date of the row when
    there is one, else its start date, else the time of the load; its
    source_change_ts is the change date alone. *)
Theorem valid_from_is_change_else_start_else_now (timestamptz_in : timestamptz_parser)
    (now : Z) (rows : list staged) (l : list listing_row)
    (incoming : list incoming_row) (f : incoming_row) :
  stg_listing_incoming timestamptz_in now rows l = inr incoming ->
  In f incoming ->
  exists sc r,
    In sc rows /\ In r l
    /\ nullif_btrim (sc_listing_id sc) = Some (external_listing_id r)
    /\ inc_listing_id f = l_id r
    /\ ts_or_null timestamptz_in (sc_change_date sc) = inr (inc_source_change_ts f)
    /\ match inc_source_change_ts f with
       | Some t => inc_valid_from f = t
       | None =>
           exists s, ts_or_null timestamptz_in (sc_start_date sc) = inr s
                     /\ inc_valid_from f = match s with Some t => t | None => now end
       end.
Proof.
  intros H Hf. destruct (mapM_from _ _ _ _ H Hf) as ([sc r] & Hin & E).
  unfold incoming_join in Hin. apply in_flat_map in Hin as (sc' & Hsc & Hin).
  apply in_map_iff in Hin as (r' & [= <- <-] & Hr). apply filter_In in Hr as [Hr Ek].
  apply eq_text_some in Ek.
  destruct (incoming_of_fields _ _ _ _ _ E) as (Eid & _).
  destruct (incoming_of_dates _ _ _ _ _ E) as [Ec Ev].
  exists sc', r'. repeat split; auto.
Qed.

Lemma valid_from_is_change_else_start_else_now_witness :
  exists f sc r,
    stg_listing_incoming iso_date_in (day "2024-03-01") duplicate_key_rows
      (listing (store duplicate_key_load)) = inr [f; fact_of_second_line]
    /\ In sc duplicate_key_rows /\ In r (listing (store duplicate_key_load))
    /\ inc_source_change_ts f = Some (day "2024-01-01")
    /\ inc_valid_from f = day "2024-01-01".
Proof.
  assert (E : exists f,
             stg_listing_incoming iso_date_in (day "2024-03-01") duplicate_key_rows
               (listing (store duplicate_key_load)) = inr [f; fact_of_second_line]
             /\ inc_source_change_ts f = Some (day "2024-01-01"))
    by (eexists; split; vm_compute; reflexivity).
  destruct E as (f & E & Ets). exists f.
  destruct (valid_from_is_change_else_start_else_now _ _ _ _ _ f E (or_introl eq_refl))
    as (sc & r & Hsc & Hr & _ & _ & _ & Hv).
  exists sc, r. rewrite Ets in Hv. cbv iota in Hv.
  split; [exact E|]. split; [exact Hsc|]. split; [exact Hr|].
  split; [exact Ets|exact Hv].
Defined.

(* ------------------------------------------------------------------ *)
(** ** From a usable row to a current version *)

Lemma load_unit_steps (timestamptz_in : timestamptz_parser) (now : Z) (f : csv_file)
    (h : list (string * string)) (db db5 : database) (j : list step) :
  assert_expected_headers (read_csv_header f) = inr h ->
  load_unit timestamptz_in now f (read_csv_header f) h db = (j, inr db5) ->
  exists db3 db4 incoming,
    upsert_listings (staged_rows f)
      (upsert_cities_zipcodes_locations (staged_rows f)
         (upsert_dimensions (staged_rows f) db)) = inr db3
    /\ upsert_descriptions (staged_rows f) db3 = inr db4
    /\ stg_listing_incoming timestamptz_in now (staged_rows f) (listing db3) = inr incoming
    /\ listing db5 = listing db3
    /\ listing db4 = listing db3
    /\ listing_version db4 = listing_version db
    /\ listing_version db5 = apply_scd2 incoming (listing_version db)
    /\ (NoDup (map l_id (listing db)) -> NoDup (map l_id (listing db3))).
Proof.
  intros Eh E.
  destruct (load_unit_inv _ _ _ _ _ _ _ _ E) as (rows & db3 & db4 & Ec & E3 & E4 & E5).
  pose proof (copy_staged_rows _ _ _ Eh Ec) as Erows.
  destruct (upsert_listings_tables _ _ _ E3) as (_ & _ & _ & _ & _ & _ & _ & Ev3 & Hn).
  destruct (upsert_descriptions_tables _ _ _ E4) as (_ & _ & _ & _ & _ & _ & El4 & Ev4).
  unfold build_incoming_and_apply_scd2 in E5.
  destruct (stg_listing_incoming timestamptz_in now rows (listing db4))
    as [e|incoming] eqn:Ei; [discriminate|].
  cbn [bind ok] in E5. injection E5 as E5. subst db5.
  exists db3, db4, incoming.
  cbn [listing listing_version].
  change (listing_version (upsert_cities_zipcodes_locations rows (upsert_dimensions rows db)))
    with (listing_version db) in Ev3.
  change (listing (upsert_cities_zipcodes_locations rows (upsert_dimensions rows db)))
    with (listing db) in Hn.
  rewrite El4 in Ei. rewrite <- Erows.
  split; [exact E3|]. split; [exact E4|]. split; [exact Ei|].
  split; [exact El4|]. split; [exact El4|]. split; [congruence|].
  split; [congruence|exact Hn].
Qed.

Lemma completed_run_inv (timestamptz_in : timestamptz_parser) (now : Z) (f : csv_file)
    (db : database) :
  raised (run_pipeline timestamptz_in now f db) = None ->
  exists h j db5,
    assert_expected_headers (read_csv_header f) = inr h
    /\ load_unit timestamptz_in now f (read_csv_header f) h db = (j, inr db5)
    /\ store (run_pipeline timestamptz_in now f db) = db5.
Proof.
  unfold run_pipeline.
  destruct (assert_expected_headers (read_csv_header f)) as [e|h] eqn:Eh; [discriminate|].
  destruct (load_unit timestamptz_in now f (read_csv_header f) h db) as [j [e|db5]] eqn:E;
    [discriminate|].
  intros _. exists h, j, db5. split; [reflexivity|]. split; [exact E|reflexivity].
Qed.

Lemma failed_run_inv (timestamptz_in : timestamptz_parser) (now : Z) (f : csv_file)
    (db : database) :
  (raised (run_pipeline timestamptz_in now f db) <> None
   /\ store (run_pipeline timestamptz_in now f db) = db)
  \/ exists h j db5,
       assert_expected_headers (read_csv_header f) = inr h
       /\ load_unit timestamptz_in now f (read_csv_header f) h db = (j, inr db5).
Proof.
  unfold run_pipeline.
  destruct (assert_expected_headers (read_csv_header f)) as [e|h] eqn:Eh.
  { left. cbn. split; [discriminate|reflexivity]. }
  destruct (load_unit timestamptz_in now f (read_csv_header f) h db) as [j [e|db5]] eqn:E.
  { left. cbn. split; [discriminate|reflexivity]. }
  right. exists h, j, db5. split; [reflexivity|exact E].
Qed.

Lemma joined_fact (timestamptz_in : timestamptz_parser) (now : Z) (rows : list staged)
    (l : list listing_row) (incoming : list incoming_row) (sc : staged) (r : listing_row) :
  stg_listing_incoming timestamptz_in now rows l = inr incoming ->
  In sc rows -> In r l ->
  nullif_btrim (sc_listing_id sc) = Some (external_listing_id r) ->
  exists f, incoming_of timestamptz_in now (sc, r) = inr f
            /\ In f incoming /\ inc_listing_id f = l_id r.
Proof.
  intros H Hsc Hr Ek.
  pose proof (incoming_join_In rows l sc r Hsc Hr Ek) as Hin.
  destruct (mapM_In _ _ _ _ H Hin) as (f & Ef & Hf).
  exists f. split; [exact Ef|]. split; [exact Hf|].
  now destruct (incoming_of_fields _ _ _ _ _ Ef).
Qed.

(** X24.  After a completed load every usable row of the batch has its listing
    on file, and that listing has a current version. *)
Theorem usable_rows_end_with_a_current_version (timestamptz_in : timestamptz_parser)
    (now : Z) (f : csv_file) (db : database) (sc : staged) (k : string) :
  store_ok db ->
  NoDup (business_keys (staged_rows f)) ->
  raised (run_pipeline timestamptz_in now f db) = None ->
  In sc (staged_rows f) -> usable sc ->
  nullif_btrim (sc_listing_id sc) = Some k ->
  exists r v,
    In r (listing (store (run_pipeline timestamptz_in now f db)))
    /\ external_listing_id r = k
    /\ In v (listing_version (store (run_pipeline timestamptz_in now f db)))
    /\ listing_id v = l_id r
    /\ valid_to v = None.
Proof.
  intros [Hn H1] Hk Hrun Hsc Hu Ek.
  destruct (completed_run_inv _ _ _ _ Hrun) as (h & j & db5 & Eh & E & ->).
  destruct (load_unit_steps _ _ _ _ _ _ _ Eh E)
    as (db3 & db4 & incoming & E3 & E4 & Ei & El5 & El4 & Ev4 & Ev5 & Hn3).
  destruct (usable_key_listed _ _ _ _ _ E3 Hsc Hu Ek) as (r & Hr & Ekr).
  destruct (joined_fact _ _ _ _ _ sc r Ei Hsc Hr) as (f0 & _ & Hf0 & Eid);
    [now rewrite Ekr|].
  assert (Hone : one_fact_per_listing incoming).
  { apply (stg_listing_incoming_one_fact _ _ _ _ _ (Hn3 Hn) Hk Ei). }
  exists r. rewrite El5, Ev5.
  destruct (fact_recorded_or_late incoming (listing_version db) f0 H1 Hone Hf0)
    as [(v & Hv & Evid & Eto & _)|(o & Ho & Eoid & Eto & _ & Efil)].
  - exists v. repeat split; auto. congruence.
  - exists o. repeat split; auto; [|congruence].
    assert (Hin : In o (filter (of_listing (inc_listing_id f0)) (listing_version db))).
    { apply filter_In. split; [exact Ho|]. unfold of_listing. now apply Z.eqb_eq. }
    rewrite <- Efil in Hin. now apply filter_In in Hin.
Qed.

Lemma usable_rows_end_with_a_current_version_witness :
  exists r v,
    In r (listing (store (run_pipeline no_timestamps 10 single_key_batch empty_database)))
    /\ external_listing_id r = "A-100"
    /\ In v (listing_version
               (store (run_pipeline no_timestamps 10 single_key_batch empty_database)))
    /\ listing_id v = l_id r
    /\ valid_to v = None.
Proof.
  apply (usable_rows_end_with_a_current_version no_timestamps 10 single_key_batch
           empty_database
           (sample_row (Some "A-100") (Some "75001") (Some "200000") (Some "50") None)
           "A-100").
  - exact store_ok_empty.
  - exact single_key_batch_keys.
  - vm_compute. reflexivity.
  - vm_compute. now left.
  - apply sample_row_usable.
  - reflexivity.
Defined.

(* ------------------------------------------------------------------ *)
(** ** One unreadable value fails the run *)

Lemma incoming_of_casts timestamptz_in now sc r f :
  incoming_of timestamptz_in now (sc, r) = inr f -> casts timestamptz_in sc.
Proof.
  unfold incoming_of, casts. intros H.
  destruct (ts_or_null timestamptz_in (sc_change_date sc)) as [e|c] eqn:Ec;
    [discriminate|]. cbn [bind] in H.
  assert (Hs : c = None ->
               exists s, ts_or_null timestamptz_in (sc_start_date sc) = inr s).
  { intros ->. destruct (ts_or_null timestamptz_in (sc_start_date sc)) as [e|s];
      [discriminate|now exists s]. }
  destruct (match c with
            | Some t => ok t
            | None => start <- ts_or_null timestamptz_in (sc_start_date sc) ;;
                      ok match start with Some t => t | None => now end
            end) as [e|vf]; [discriminate|]. cbn [bind] in H.
  bind_inv H.
  split; [exists c; auto|]. repeat split; eexists; reflexivity.
Qed.

(** X25.  A timestamp that PostgreSQL cannot read, or a floor or count that
    does not fit its integer type, in one usable row with a business key
    fails the whole run: it raises and the store is left as it was. *)
Theorem unreadable_value_fails_the_run (timestamptz_in : timestamptz_parser) (now : Z)
    (f : csv_file) (db : database) (sc : staged) (k : string) :
  In sc (staged_rows f) -> usable sc ->
  nullif_btrim (sc_listing_id sc) = Some k ->
  ~ casts timestamptz_in sc ->
  raised (run_pipeline timestamptz_in now f db) <> None
  /\ store (run_pipeline timestamptz_in now f db) = db.
Proof.
  intros Hsc Hu Ek Hno.
  destruct (failed_run_inv timestamptz_in now f db) as [H|(h & j & db5 & Eh & E)];
    [exact H|].
  exfalso.
  destruct (load_unit_steps _ _ _ _ _ _ _ Eh E)
    as (db3 & db4 & incoming & E3 & E4 & Ei & El5 & El4 & _).
  destruct (usable_key_listed _ _ _ _ _ E3 Hsc Hu Ek) as (r & Hr & Ekr).
  destruct (joined_fact _ _ _ _ _ sc r Ei Hsc Hr) as (f0 & Ef0 & _);
    [now rewrite Ekr|].
  apply Hno. now apply (incoming_of_casts _ _ _ _ _ Ef0).
Qed.

Lemma unreadable_value_fails_the_run_witness :
  raised (run_pipeline no_timestamps 10 dated_batch empty_database) <> None
  /\ store (run_pipeline no_timestamps 10 dated_batch empty_database) = empty_database.
Proof.
  apply (unreadable_value_fails_the_run no_timestamps 10 dated_batch empty_database
           (sample_row_at (Some "2024-01-02") (Some "A-100") (Some "75001")
              (Some "200000") (Some "50") None)
           "A-100").
  - vm_compute. now left.
  - repeat split; eexists; vm_compute; reflexivity.
  - reflexivity.
  - intros ((c & Ec & _) & _). vm_compute in Ec. discriminate.
Defined.

(* ------------------------------------------------------------------ *)
(** ** Unique keys *)

Lemma keys_dimensions (rows : list staged) (db : database) :
  keys_unique db -> keys_unique (upsert_dimensions rows db).
Proof.
  intros (H1 & H2 & H3 & H4 & H5 & H6 & H7 & H8). unfold keys_unique.
  cbn [upsert_dimensions transaction_type item_type item_subtype city zipcode location
       listing listing_description]. unfold insert_codes.
  repeat split; auto.
  - apply insert_do_nothing_keys with (ckey := fun c => c);
      [exact dim_conflict_key|reflexivity|exact H1].
  - apply insert_do_nothing_keys with (ckey := fun c => c);
      [exact dim_conflict_key|reflexivity|exact H2].
  - apply insert_do_nothing_keys with (ckey := fun c => c);
      [exact subtype_conflict_key|intros i [a b]; reflexivity|exact H3].
Qed.

Lemma keys_locations (rows : list staged) (db : database) :
  keys_unique db -> keys_unique (upsert_cities_zipcodes_locations rows db).
Proof.
  intros (H1 & H2 & H3 & H4 & H5 & H6 & H7 & H8). unfold keys_unique.
  cbn [upsert_cities_zipcodes_locations transaction_type item_type item_subtype city
       zipcode location listing listing_description]. unfold upsert_zipcodes, insert_codes.
  repeat split; auto.
  - rewrite insert_all_code_list.
    apply NoDup_app; [exact H4|apply NoDup_nodup|].
    intros n Hn Hnew. apply new_cities_In in Hnew. tauto.
  - apply insert_do_nothing_keys with (ckey := fun c => c);
      [exact dim_conflict_key|reflexivity|exact H5].
  - apply insert_do_nothing_keys with (ckey := fun c => c);
      [exact location_conflict_key|intros i [a b]; reflexivity|exact H6].
Qed.

Lemma keys_listings (rows : list staged) (db db' : database) :
  upsert_listings rows db = inr db' -> keys_unique db -> keys_unique db'.
Proof.
  intros H (H1 & H2 & H3 & H4 & H5 & H6 & H7 & H8).
  destruct (upsert_listings_inv _ _ _ H) as (cands & _ & _ & El).
  destruct (upsert_listings_tables _ _ _ H)
    as (Ett & Eit & Est & Ec & Ez & Eloc & Ed & _ & _).
  unfold keys_unique. rewrite Ett, Eit, Est, Ec, Ez, Eloc, Ed, El.
  repeat split; auto.
  apply (upsert_all_key_NoDup _ _ _ listing_conflict make_listing set_listing l_id
           external_listing_id fst listing_conflict_key
           (fun _ _ => eq_refl) (fun _ _ => eq_refl)). exact H7.
Qed.

Lemma keys_descriptions (rows : list staged) (db db' : database) :
  upsert_descriptions rows db = inr db' -> keys_unique db -> keys_unique db'.
Proof.
  intros H (H1 & H2 & H3 & H4 & H5 & H6 & H7 & H8).
  pose proof (upsert_descriptions_inv _ _ _ H) as Ed.
  destruct (upsert_descriptions_tables _ _ _ H)
    as (Ett & Eit & Est & Ec & Ez & Eloc & El & _).
  unfold keys_unique. rewrite Ett, Eit, Est, Ec, Ez, Eloc, El, Ed.
  repeat split; auto.
  apply (upsert_all_key_NoDup _ _ _ description_conflict make_description
           set_description d_listing_id d_listing_id fst description_conflict_key
           (fun _ _ => eq_refl) (fun _ _ => eq_refl)). exact H8.
Qed.

Lemma keys_scd2 (timestamptz_in : timestamptz_parser) (now : Z)
    (rows : list staged) (db db' : database) :
  build_incoming_and_apply_scd2 timestamptz_in now rows db = inr db' ->
  keys_unique db -> keys_unique db'.
Proof.
  intros H Hk.
  destruct (scd2_step_tables _ _ _ _ _ H)
    as (Ett & Eit & Est & Ec & Ez & Eloc & El & Ed & _).
  unfold keys_unique in *. now rewrite Ett, Eit, Est, Ec, Ez, Eloc, El, Ed.
Qed.

(** X26.  Whatever the batch, a run keeps unique every key that the loader
    joins on or names in an ON CONFLICT clause; it does so by its own
    statements, the city insert with its NOT EXISTS test included. *)
Theorem keys_survive_a_run (timestamptz_in : timestamptz_parser) (now : Z)
    (f : csv_file) (db : database) :
  keys_unique db ->
  keys_unique (store (run_pipeline timestamptz_in now f db)).
Proof.
  intros H. unfold run_pipeline.
  destruct (assert_expected_headers (read_csv_header f)) as [e|h]; [exact H|].
  destruct (load_unit timestamptz_in now f (read_csv_header f) h db) as [j [e|db5]] eqn:E;
    [exact H|].
  cbn [store].
  destruct (load_unit_inv _ _ _ _ _ _ _ _ E) as (rows & db3 & db4 & _ & E3 & E4 & E5).
  apply (keys_scd2 _ _ _ _ _ E5).
  apply (keys_descriptions _ _ _ E4).
  apply (keys_listings _ _ _ E3).
  apply keys_locations, keys_dimensions, H.
Qed.

Lemma keys_unique_empty : keys_unique empty_database.
Proof. unfold keys_unique. cbn. repeat split; constructor. Qed.

Lemma keys_survive_a_run_witness : keys_unique (store duplicate_key_load).
Proof.
  apply (keys_survive_a_run iso_date_in (day "2024-03-01") duplicate_key_batch
           empty_database).
  exact keys_unique_empty.
Defined.

(* ------------------------------------------------------------------ *)
(** ** When a run completes *)

Lemma filter_unique {A K} (key : A -> K) (on : A -> bool) (k : K) (t : list A) :
  NoDup (map key t) ->
  (forall a, In a t -> on a = true -> key a = k) ->
  (List.length (filter on t) <= 1)%nat.
Proof.
  induction t as [|a r IH]; intros Hn Hk; [cbn; lia|].
  cbn [map] in Hn. apply NoDup_cons_iff in Hn as [Hnot Hn].
  cbn [filter]. destruct (on a) eqn:Ea.
  - rewrite filter_none; [cbn; lia|].
    intros x Hx. destruct (on x) eqn:Ex; [|reflexivity].
    exfalso. apply Hnot.
    rewrite (Hk a (or_introl eq_refl) Ea), <- (Hk x (or_intror Hx) Ex).
    now apply in_map.
  - apply IH; [exact Hn|]. intros x Hx. apply Hk. now right.
Qed.

Lemma join_short {A B} (t : list A) (on : A -> bool) (kf : A -> list B) :
  (List.length (filter on t) <= 1)%nat ->
  (forall a, (List.length (kf a) <= 1)%nat) ->
  (List.length (join t on kf) <= 1)%nat.
Proof.
  unfold join. intros Hf Hk. destruct (filter on t) as [|a [|b r]]; cbn in *; try lia.
  rewrite app_nil_r. apply Hk.
Qed.

Lemma eq_text_key (a : string) (b : option string) (k : string) :
  b = Some k -> eq_text a b = true -> a = k.
Proof. intros -> H. apply eq_text_some in H. congruence. Qed.

Lemma filter_by_text {A} (key : A -> string) (b : option string) (t : list A) :
  NoDup (map key t) ->
  (List.length (filter (fun a => eq_text (key a) b) t) <= 1)%nat.
Proof.
  intros Hn. destruct b as [k|].
  - apply (filter_unique key _ k); [exact Hn|].
    intros a _ H. now apply (eq_text_key _ (Some k)).
  - rewrite filter_none; [cbn; lia|]. reflexivity.
Qed.

(** With unique keys in the dimensions a staged row resolves to one
    (transaction type, subtype, location) at most. *)
Lemma resolve_short (db : database) (sc : staged) :
  keys_unique db -> (List.length (resolve db sc) <= 1)%nat.
Proof.
  intros (H1 & H2 & H3 & H4 & H5 & H6 & _). unfold resolve.
  apply join_short; [now apply (filter_by_text code)|intros tt].
  apply join_short; [now apply (filter_by_text code)|intros it].
  apply join_short; [|intros st].
  { destruct (option_map btrim (sc_item_subtype sc)) as [sub|] eqn:E.
    - apply (filter_unique subtype_key _ (dim_id it, sub)); [exact H3|].
      intros a _ Ha. apply andb_prop in Ha as [Ha1 Ha2].
      apply eq_text_some in Ha1. apply Z.eqb_eq in Ha2.
      unfold subtype_key. congruence.
    - rewrite filter_none; [cbn; lia|]. reflexivity. }
  apply join_short; [now apply (filter_by_text code)|intros c].
  apply join_short; [now apply (filter_by_text code)|intros z].
  apply join_short; [|intros loc; cbn; lia].
  apply (filter_unique location_key _ (dim_id c, dim_id z)); [exact H6|].
  intros a _ Ha. apply andb_prop in Ha as [Ha1 Ha2]. apply Z.eqb_eq in Ha1, Ha2.
  unfold location_key. congruence.
Qed.

Lemma repeated_key_fst {A} (cands : list (string * A)) :
  NoDup (map fst cands) -> repeated_key same_fst cands = false.
Proof.
  induction cands as [|c cs IH]; [reflexivity|].
  cbn [map repeated_key]. intros Hn. apply NoDup_cons_iff in Hn as [Hnot Hn].
  rewrite (IH Hn), orb_false_r.
  destruct (existsb (same_fst c) cs) eqn:E; [|reflexivity].
  apply existsb_exists in E as (c' & Hc' & Ec). unfold same_fst in Ec.
  apply String.eqb_eq in Ec. exfalso. apply Hnot. rewrite Ec. now apply in_map.
Qed.

Lemma proposed_listing_total (sc : staged) (ids : Z * Z * Z) (k : string) :
  nullif_btrim (sc_listing_id sc) = Some k ->
  (exists y, year_1800_2100 (sc_build_year sc) = inr y) ->
  exists c, proposed_listing (sc, ids) = inr c /\ fst c = k.
Proof.
  intros Ek (y & Ey). unfold proposed_listing. rewrite Ey, Ek.
  cbn [bind not_null ok]. eexists. split; reflexivity.
Qed.

Lemma proposals_total (db : database) : forall rows : list staged,
  (forall sc, In sc rows ->
     (exists k, nullif_btrim (sc_listing_id sc) = Some k)
     /\ (exists y, year_1800_2100 (sc_build_year sc) = inr y)
     /\ (List.length (resolve db sc) <= 1)%nat) ->
  NoDup (business_keys rows) ->
  exists cands,
    mapM proposed_listing (flat_map (fun sc => map (pair sc) (resolve db sc)) rows)
    = inr cands
    /\ NoDup (map fst cands)
    /\ forall c, In c cands -> In (fst c) (business_keys rows).
Proof.
  induction rows as [|sc rest IH]; intros Hrows Hn.
  - exists []. cbn. repeat split; [constructor|tauto].
  - destruct (Hrows sc (or_introl eq_refl)) as ((k & Ek) & Hy & Hlen).
    unfold business_keys in Hn |- *. cbn [map somes] in Hn |- *. rewrite Ek in Hn |- *.
    apply NoDup_cons_iff in Hn as [Hnot Hn].
    destruct (IH (fun s Hs => Hrows s (or_intror Hs)) Hn) as (cs & Em & Hcs & Hin).
    cbn [flat_map]. destruct (resolve db sc) as [|ids [|ids' t]]; cbn in Hlen; try lia.
    + exists cs. cbn [map app]. split; [exact Em|]. split; [exact Hcs|].
      intros c Hc. right. now apply Hin.
    + destruct (proposed_listing_total sc ids k Ek Hy) as (c & Ec & Efst).
      exists (c :: cs). cbn [map app mapM]. rewrite Ec. cbn [bind].
      unfold business_keys in Em. rewrite Em. cbn [bind ok]. split; [reflexivity|].
      split.
      * cbn [map]. constructor; [|exact Hcs]. rewrite Efst. intros Hk.
        apply in_map_iff in Hk as (c' & Ec' & Hc'). apply Hnot. rewrite <- Ec'.
        now apply Hin.
      * intros c' [<-|Hc']; [left; now rewrite Efst|right; now apply Hin].
Qed.

Lemma upsert_listings_total (rows : list staged) (db : database) :
  keys_unique db ->
  NoDup (business_keys rows) ->
  (forall sc, In sc rows ->
     (exists k, nullif_btrim (sc_listing_id sc) = Some k)
     /\ (exists y, year_1800_2100 (sc_build_year sc) = inr y)) ->
  exists db', upsert_listings rows db = inr db'.
Proof.
  intros Hk Hn Hrows.
  destruct (proposals_total db rows) as (cands & Em & Hc & _); [|exact Hn|].
  { intros sc Hsc. destruct (Hrows sc Hsc) as [H1 H2].
    split; [exact H1|]. split; [exact H2|]. now apply resolve_short. }
  unfold upsert_listings. rewrite Em. cbn [bind]. unfold insert_do_update.
  rewrite (repeated_key_fst _ Hc). cbn [bind ok]. now eexists.
Qed.

Lemma upsert_descriptions_total (rows : list staged) (db : database) :
  NoDup (map l_id (listing db)) ->
  exists db', upsert_descriptions rows db = inr db'.
Proof.
  intros Hn. unfold upsert_descriptions, upsert_descriptions_by.
  fold (description_candidates rows (listing db)).
  destruct (upsert_descriptions_settled (description_candidates rows (listing db))
              (listing_description db)) as (tbl' & E & _).
  { now apply description_candidates_ids. }
  rewrite E. cbn [bind ok]. now eexists.
Qed.

(** X27.  The transaction of a run goes through when the header of the
    file is the list of expected columns, every line has one field per
    column, no business key comes twice, every row is loadable, and the
    store has unique keys and listing ids: the header check passes, the
    six steps from staging to SCD-2 run without raising, and the store
    they build is the one the run leaves. *)
Theorem well_formed_batch_loads (timestamptz_in : timestamptz_parser) (now : Z)
    (f : csv_file) (db : database) :
  keys_unique db ->
  NoDup (map l_id (listing db)) ->
  read_csv_header f = EXPECTED ->
  (forall line, In line (lines f) ->
     List.length line = List.length (read_csv_header f)) ->
  NoDup (business_keys (staged_rows f)) ->
  (forall sc, In sc (staged_rows f) -> loadable timestamptz_in sc) ->
  exists h db5,
    assert_expected_headers (read_csv_header f) = inr h
    /\ load_unit timestamptz_in now f (read_csv_header f) h db
       = ([Stage; Dimensions; Locations; Listings; Descriptions; Scd2], inr db5)
    /\ store (run_pipeline timestamptz_in now f db) = db5.
Proof.
  intros Hk Hid Hh Hl Hn Hrows.
  assert (Eh : exists h, assert_expected_headers (read_csv_header f) = inr h)
    by (rewrite Hh; eexists; reflexivity).
  destruct Eh as (h & Eh).
  assert (Ec : copy_csv_into_staging f (read_csv_header f) h = inr (staged_rows f)).
  { unfold copy_csv_into_staging, staged_rows. rewrite Eh.
    assert (forallb (fun l => (List.length l =? List.length (read_csv_header f))%nat)
              (lines f) = true) as ->; [|reflexivity].
    apply forallb_forall. intros l Hin. apply Nat.eqb_eq. now apply Hl. }
  set (rows := staged_rows f) in *.
  set (db2 := upsert_cities_zipcodes_locations rows (upsert_dimensions rows db)).
  destruct (upsert_listings_total rows db2) as (db3 & E3).
  { apply keys_locations, keys_dimensions, Hk. }
  { exact Hn. }
  { intros sc Hsc. destruct (Hrows sc Hsc) as (H1 & H2 & _). auto. }
  destruct (upsert_listings_tables _ _ _ E3) as (_ & _ & _ & _ & _ & _ & _ & _ & Hid3).
  destruct (upsert_descriptions_total rows db3 (Hid3 Hid)) as (db4 & E4).
  destruct (stg_listing_incoming_total timestamptz_in now rows (listing db4))
    as (incoming & Ei).
  { intros sc Hsc. now destruct (Hrows sc Hsc) as (_ & _ & H3). }
  assert (E : exists db5,
             load_unit timestamptz_in now f (read_csv_header f) h db
             = ([Stage; Dimensions; Locations; Listings; Descriptions; Scd2], inr db5)).
  { unfold load_unit. rewrite Ec. cbn [logged ok].
    fold db2. rewrite E3. cbn [logged]. rewrite E4. cbn [logged].
    unfold build_incoming_and_apply_scd2. rewrite Ei. cbn. now eexists. }
  destruct E as (db5 & E). exists h, db5.
  split; [exact Eh|]. split; [exact E|].
  unfold run_pipeline. rewrite Eh, E. reflexivity.
Qed.

Lemma single_key_batch_loadable :
  forall sc, In sc (staged_rows single_key_batch) -> loadable no_timestamps sc.
Proof.
  intros sc Hsc. vm_compute in Hsc. destruct Hsc as [<-|[]].
  split; [eexists; reflexivity|]. split; [eexists; reflexivity|].
  unfold casts. cbn. repeat split; eauto.
Qed.

Lemma well_formed_batch_loads_witness :
  exists h db5,
    assert_expected_headers (read_csv_header single_key_batch) = inr h
    /\ load_unit no_timestamps 10 single_key_batch (read_csv_header single_key_batch) h
         empty_database
       = ([Stage; Dimensions; Locations; Listings; Descriptions; Scd2], inr db5)
    /\ store (run_pipeline no_timestamps 10 single_key_batch empty_database) = db5.
Proof.
  apply (well_formed_batch_loads no_timestamps 10 single_key_batch empty_database).
  - exact keys_unique_empty.
  - constructor.
  - reflexivity.
  - intros line [<-|[]]. reflexivity.
  - exact single_key_batch_keys.
  - exact single_key_batch_loadable.
Defined.

(* ------------------------------------------------------------------ *)
(** ** Numbers are compared by value *)

Lemma digits_value_from (l : list ascii) : forall acc,
  fold_left (fun a c => 10 * a + digit_value c) l acc
  = acc * 10 ^ Z.of_nat (List.length l) + digits_value l.
Proof.
  unfold digits_value. induction l as [|c r IH]; intros acc.
  - cbn. lia.
  - cbn [fold_left List.length]. rewrite IH, (IH (10 * 0 + digit_value c)).
    rewrite Nat2Z.inj_succ, Z.pow_succ_r by lia. lia.
Qed.

Lemma digits_value_zeros (l : list ascii) (n : nat) :
  digits_value (l ++ repeat "0"%char n) = digits_value l * 10 ^ Z.of_nat n.
Proof.
  unfold digits_value at 1. rewrite fold_left_app.
  fold (digits_value l). rewrite digits_value_from, repeat_length.
  assert (digits_value (repeat "0"%char n) = 0) as ->; [|lia].
  induction n as [|n IH]; [reflexivity|].
  unfold digits_value in *. cbn [repeat fold_left]. exact IH.
Qed.

(** X28.  The delta test compares numbers by value: a number written again with
    more zeros after the point is no change. *)
Theorem trailing_zeros_are_no_change (s s' : string) (ip fp : list ascii) (n : nat) :
  btrim s <> "" -> btrim s' <> "" ->
  decimal_text (num_chars_of s) false ip fp ->
  decimal_text (num_chars_of s') false ip (fp ++ repeat "0"%char n) ->
  distinct_numeric (num_nonneg (Some s)) (num_nonneg (Some s')) = false.
Proof.
  intros Hs Hs' H H'.
  rewrite (num_nonneg_decimal s ip fp Hs H), (num_nonneg_decimal s' ip _ Hs' H').
  cbn [distinct_numeric]. apply negb_false_iff.
  unfold numeric_eqb, pow10. cbn [unscaled dscale]. apply Z.eqb_eq.
  rewrite app_assoc, digits_value_zeros, length_app, repeat_length.
  rewrite Nat2Z.inj_add, Z.pow_add_r by lia. lia.
Qed.

Lemma trailing_zeros_are_no_change_witness :
  distinct_numeric (num_nonneg (Some "200000")) (num_nonneg (Some "200000.00 EUR"))
  = false.
Proof.
  apply (trailing_zeros_are_no_change "200000" "200000.00 EUR" (chars "200000") [] 2).
  - discriminate.
  - discriminate.
  - repeat split. discriminate.
  - repeat split. discriminate.
Defined.
